(** * Yatzee / Farkle dice games: the scoring engine, the dice source,
      the Farkle turn machine and match controller, and the Yahtzee
      category scoring, embedded from the JavaScript sources.

    Conventions of the embedding.
    - JavaScript numbers that hold die faces, counts and scores are
      integers far below 2^53; they are modelled as [Z].
    - A plain object used as a dictionary ([freq], [remaining],
      [player.scores]) is a [gmap]; [Object.keys] / [Object.values]
      enumerate it by ascending key, as JavaScript does for the integer keys
      that die faces are.
    - A JavaScript [Set] of die or player indices is an insertion-ordered
      list without duplicates ([JsSet]).
    - [null] / [undefined] results are [None].
    - [setTimeout] callbacks are recorded in the game state as pending
      timers and run by an explicit [fire] step.
    - [Math.random] is an explicit stream of draws handed to [roll].
    - The event emitter of the dice engine is resolved statically: the game
      runs its [roll-end] listeners when the renderer finishes a roll.
    - Rendering, overlays and player profiles carry no game state and are
      left out; the store of suspended games and finished matches is
      modelled on its own ([GameHistory]). *)

From stdpp Require Import gmap list fin_maps strings pretty sorting.
From Stdlib Require Import ZArith Lia.

Local Open Scope Z_scope.

(** ** JavaScript objects and sets *)

(** [Object.keys(o).map(Number)]: integer keys are enumerated in ascending
    order. *)
Definition Object_keys {V} (o : gmap Z V) : list Z :=
  merge_sort Z.le (map_to_list o).*1.

(** [Object.values(o)]: the values in the order of the keys. *)
Definition Object_values {V} (o : gmap Z V) : list V :=
  omap (λ k, o !! k) (Object_keys o).

(** [x || 0] on a possibly undefined number. *)
Definition or0 (x : option Z) : Z := default 0 x.

(** Truthiness of a possibly undefined number. *)
Definition truthy (x : option Z) : bool :=
  match x with
  | None => false
  | Some c => negb (bool_decide (c = 0))
  end.

Module JsSet.
Definition t := list nat.

Definition empty : t := [].

Definition has (i : nat) (s : t) : bool := bool_decide (i ∈ s).

(** [s.add(i)]: appended when absent, insertion order kept. *)
Definition add (i : nat) (s : t) : t := if has i s then s else s ++ [i].

(** [s.delete(i)]. *)
Definition delete (i : nat) (s : t) : t := filter (λ j, j ≠ i) s.

Definition size (s : t) : Z := Z.of_nat (length s).

(** [new Set(array)]. *)
Definition of_list (l : list nat) : t := foldl (λ s i, add i s) empty l.

(** [[...s]]. *)
Definition to_list (s : t) : list nat := s.
End JsSet.

(** ** FarkleScoring.js *)

Module FarkleScoring.

Definition TRIPLE_BASE : gmap Z Z :=
  list_to_map [(1, 1000); (2, 200); (3, 300); (4, 400); (5, 500); (6, 600)].
Definition SINGLE_SCORES : gmap Z Z := list_to_map [(1, 100); (5, 50)].
Definition STRAIGHT_SCORE : Z := 1000.
Definition THREE_PAIRS_SCORE : Z := 1500.
Definition TWO_TRIPLETS_SCORE : Z := 2500.

(** The loop bounds [for (let val = 1; val <= 6; val++)] and the literal
    array [[1, 2, 3, 4, 5, 6]]. *)
Definition faces : list Z := [1; 2; 3; 4; 5; 6].

(** [countFrequency]: [freq[v] = (freq[v] || 0) + 1] for each die. *)
Definition countFrequency (dice : list Z) : gmap Z Z :=
  foldl (λ freq v, <[v := or0 (freq !! v) + 1]> freq) ∅ dice.

(** [[1,2,3,4,5,6].every(v => freq[v] === 1)]. *)
Definition is_straight (freq : gmap Z Z) : bool :=
  forallb (λ v, bool_decide (freq !! v = Some 1)) faces.

(** [Object.values(freq).filter(c => c === k).length]. *)
Definition count_values (k : Z) (freq : gmap Z Z) : nat :=
  length (filter (λ c, c = k) (Object_values freq)).

(** Body of the first loop of [scoreSelection]: extract the largest
    multiple of [val]. *)
Definition extract_multiple (st : Z * gmap Z Z) (val : Z) : Z * gmap Z Z :=
  let '(score, remaining) := st in
  let count := or0 (remaining !! val) in
  let base := or0 (TRIPLE_BASE !! val) in
  if decide (6 ≤ count) then (score + base * 8, <[val := count - 6]> remaining)
  else if decide (5 ≤ count) then (score + base * 4, <[val := count - 5]> remaining)
  else if decide (4 ≤ count) then (score + base * 2, <[val := count - 4]> remaining)
  else if decide (3 ≤ count) then (score + base, <[val := count - 3]> remaining)
  else (score, remaining).

(** Body of the second loop: leftover dice must be 1s or 5s; [None] is the
    early [return null]. *)
Definition score_single (st : option (Z * gmap Z Z)) (val : Z)
  : option (Z * gmap Z Z) :=
  '(score, remaining) ← st;
  let count := or0 (remaining !! val) in
  if decide (0 < count) then
    match SINGLE_SCORES !! val with
    | Some s => Some (score + s * count, <[val := 0]> remaining)
    | None => None
    end
  else Some (score, remaining).

Definition scoreSelection (selectedDice : list Z) : option Z :=
  if decide (length selectedDice = 0%nat) then None
  else
    let freq := countFrequency selectedDice in
    let remaining := freq in
    if bool_decide (length selectedDice = 6%nat) && is_straight remaining
    then Some STRAIGHT_SCORE
    else if bool_decide (length selectedDice = 6%nat)
            && bool_decide (count_values 2 remaining = 3%nat)
    then Some THREE_PAIRS_SCORE
    else if bool_decide (length selectedDice = 6%nat)
            && bool_decide (count_values 3 remaining = 2%nat)
    then Some TWO_TRIPLETS_SCORE
    else
      let st := foldl extract_multiple (0, remaining) faces in
      '(score, _) ← foldl score_single (Some st) faces;
      if decide (0 < score) then Some score else None.

Definition isFarkle (dice : list Z) : bool :=
  if decide (length dice = 0%nat) then true
  else if bool_decide (1 ∈ dice) || bool_decide (5 ∈ dice) then false
  else
    let freq := countFrequency dice in
    if existsb (λ count, bool_decide (3 ≤ count)) (Object_values freq) then false
    else if bool_decide (length dice = 6%nat) && is_straight freq then false
    else if bool_decide (length dice = 6%nat)
            && bool_decide (count_values 2 freq = 3%nat)
    then false
    else true.

Record StraightAttempt := {
  possible : bool;
  missingValue : option Z
}.

Definition no_attempt : StraightAttempt :=
  {| possible := false; missingValue := None |}.

Definition detectStraightAttempt (dice : list Z) : StraightAttempt :=
  if decide (length dice ≠ 6%nat) then no_attempt
  else
    let freq := countFrequency dice in
    let uniqueVals := Object_keys freq in
    if decide (length uniqueVals ≠ 5%nat) then no_attempt
    else
      let allInRange := forallb (λ v, bool_decide (1 ≤ v ∧ v ≤ 6)) uniqueVals in
      if negb allInRange then no_attempt
      else
        let missing := find (λ v, negb (truthy (freq !! v))) faces in
        let hasDuplicate :=
          existsb (λ c, bool_decide (c = 2)) (Object_values freq) in
        match missing with
        | Some m =>
            if hasDuplicate
            then {| possible := true; missingValue := Some m |}
            else no_attempt
        | None => no_attempt
        end.

(** The loops [for (let i = 0; i < dice.length; i++) if (p(dice[i]))
    scorable.add(indices[i])] of [findScorableDiceIndices].  Every caller
    passes one index per die; an index that is missing ([undefined] in
    JavaScript) is skipped. *)
Definition add_matching (p : Z → bool) (dice : list Z) (indices : list nat)
    (scorable : JsSet.t) : JsSet.t :=
  foldl (λ s id,
           if p id.2 then
             match indices !! id.1 with
             | Some idx => JsSet.add idx s
             | None => s
             end
           else s)
        scorable (imap pair dice).

(** [indices.forEach(idx => scorable.add(idx))]. *)
Definition add_all (indices : list nat) (scorable : JsSet.t) : JsSet.t :=
  foldl (λ s idx, JsSet.add idx s) scorable indices.

Definition findScorableDiceIndices (dice : list Z) (indices : list nat) : JsSet.t :=
  let freq := countFrequency dice in
  let scorable :=
    add_matching (λ d, bool_decide (d = 1) || bool_decide (d = 5))
                 dice indices JsSet.empty in
  let scorable :=
    foldl (λ s val,
             if bool_decide (3 ≤ or0 (freq !! val))
             then add_matching (λ d, bool_decide (d = val)) dice indices s
             else s)
          scorable faces in
  if bool_decide (length dice = 6%nat) then
    let scorable := if is_straight freq then add_all indices scorable else scorable in
    let scorable :=
      if bool_decide (count_values 2 freq = 3%nat)
      then add_all indices scorable else scorable in
    if bool_decide (count_values 3 freq = 2%nat)
    then add_all indices scorable else scorable
  else scorable.

(** An entry [{name, score}] of the breakdown of [describeSelection]. *)
Module Entry.
Record t := { name : string; score : Z }.
End Entry.

(** Body of the first loop of [describeSelection]. *)
Definition describe_multiple (st : list Entry.t * gmap Z Z) (val : Z)
  : list Entry.t * gmap Z Z :=
  let '(breakdown, remaining) := st in
  let count := or0 (remaining !! val) in
  let base := or0 (TRIPLE_BASE !! val) in
  if decide (6 ≤ count) then
    (breakdown ++ [{| Entry.name := "Sei " +:+ pretty val; Entry.score := base * 8 |}],
     <[val := count - 6]> remaining)
  else if decide (5 ≤ count) then
    (breakdown ++ [{| Entry.name := "Cinque " +:+ pretty val; Entry.score := base * 4 |}],
     <[val := count - 5]> remaining)
  else if decide (4 ≤ count) then
    (breakdown ++ [{| Entry.name := "Quattro " +:+ pretty val; Entry.score := base * 2 |}],
     <[val := count - 4]> remaining)
  else if decide (3 ≤ count) then
    (breakdown ++ [{| Entry.name := "Tris di " +:+ pretty val; Entry.score := base |}],
     <[val := count - 3]> remaining)
  else (breakdown, remaining).

(** Body of the second loop: one entry per leftover one or five; other
    leftover faces are passed over. *)
Definition describe_single (st : list Entry.t * gmap Z Z) (val : Z)
  : list Entry.t * gmap Z Z :=
  let '(breakdown, remaining) := st in
  let count := or0 (remaining !! val) in
  if decide (0 < count) then
    match SINGLE_SCORES !! val with
    | Some s =>
        (breakdown
         ++ replicate (Z.to_nat count)
              {| Entry.name := if decide (val = 1) then "Singolo 1" else "Singolo 5";
                 Entry.score := s |},
         <[val := 0]> remaining)
    | None => (breakdown, remaining)
    end
  else (breakdown, remaining).

Definition describeSelection (selectedDice : list Z) : list Entry.t :=
  if decide (length selectedDice = 0%nat) then []
  else
    let freq := countFrequency selectedDice in
    let remaining := freq in
    if bool_decide (length selectedDice = 6%nat) && is_straight remaining
    then [{| Entry.name := "Scala 1-2-3-4-5-6"; Entry.score := STRAIGHT_SCORE |}]
    else if bool_decide (length selectedDice = 6%nat)
            && bool_decide (count_values 2 remaining = 3%nat)
    then [{| Entry.name := "Tre coppie"; Entry.score := THREE_PAIRS_SCORE |}]
    else if bool_decide (length selectedDice = 6%nat)
            && bool_decide (count_values 3 remaining = 2%nat)
    then
      let vals := filter (λ v, remaining !! v = Some 3) (Object_keys remaining) in
      [{| Entry.name := "Due tris (" +:+ String.concat " e " (pretty <$> vals) +:+ ")";
          Entry.score := TWO_TRIPLETS_SCORE |}]
    else
      let st := foldl describe_multiple ([], remaining) faces in
      (foldl describe_single st faces).1.

(** An entry [{name, score, diceCount}] of [getAvailableCombinations]. *)
Module Combo.
Record t := { name : string; score : Z; diceCount : Z }.
End Combo.

(** Body of the loop over the faces in [getAvailableCombinations]: the
    four tests are independent, so six of a kind lists four entries. *)
Definition multiples_of (freq : gmap Z Z) (val : Z) : list Combo.t :=
  let count := or0 (freq !! val) in
  let base := or0 (TRIPLE_BASE !! val) in
  (if decide (6 ≤ count)
   then [{| Combo.name := "Sei " +:+ pretty val; Combo.score := base * 8;
            Combo.diceCount := 6 |}] else [])
  ++ (if decide (5 ≤ count)
      then [{| Combo.name := "Cinque " +:+ pretty val; Combo.score := base * 4;
               Combo.diceCount := 5 |}] else [])
  ++ (if decide (4 ≤ count)
      then [{| Combo.name := "Quattro " +:+ pretty val; Combo.score := base * 2;
               Combo.diceCount := 4 |}] else [])
  ++ (if decide (3 ≤ count)
      then [{| Combo.name := "Tris di " +:+ pretty val; Combo.score := base;
               Combo.diceCount := 3 |}] else []).

Definition getAvailableCombinations (dice : list Z) : list Combo.t :=
  if decide (length dice = 0%nat) then []
  else
    let freq := countFrequency dice in
    let specials :=
      if bool_decide (length dice = 6%nat) then
        (if is_straight freq
         then [{| Combo.name := "Scala 1-2-3-4-5-6"; Combo.score := STRAIGHT_SCORE;
                  Combo.diceCount := 6 |}] else [])
        ++ (if bool_decide (count_values 2 freq = 3%nat)
            then [{| Combo.name := "Tre coppie"; Combo.score := THREE_PAIRS_SCORE;
                     Combo.diceCount := 6 |}] else [])
        ++ (if bool_decide (count_values 3 freq = 2%nat)
            then [{| Combo.name := "Due tris"; Combo.score := TWO_TRIPLETS_SCORE;
                     Combo.diceCount := 6 |}] else [])
      else [] in
    specials
    ++ (faces ≫= multiples_of freq)
    ++ (if truthy (freq !! 1)
        then [{| Combo.name := "Singolo 1"; Combo.score := 100; Combo.diceCount := 1 |}]
        else [])
    ++ (if truthy (freq !! 5)
        then [{| Combo.name := "Singolo 5"; Combo.score := 50; Combo.diceCount := 1 |}]
        else []).

End FarkleScoring.

(** ** DiceEngine *)

(** [a[i] = x] on a JavaScript array.  Inside the array the cell is
    overwritten.  Past the end JavaScript grows the array and leaves holes;
    the holes are filled here with [pad].  Every engine built by the
    constructor, [reset], [_startTurn] or the hot-dice reset has exactly
    [count] cells and all writes use indices below [count], so [pad] is never
    read in those engines. *)
Definition array_set {A} (pad : A) (i : nat) (x : A) (a : list A) : list A :=
  if decide (i < length a)%nat then <[i := x]> a
  else a ++ replicate (i - length a) pad ++ [x].

(** [a[i]] on an array of numbers; [0] (never a die face) stands for
    [undefined] out of range. *)
Definition array_get (a : list Z) (i : nat) : Z := or0 (a !! i).

Module DiceEngine.

Record t := {
  count : nat;
  sides : Z;
  maxRolls : Z;
  values : list Z;
  held : list bool;
  rollsLeft : Z;
  hasRolled : bool;
  isRolling : bool
}.

(** The object returned by [getState] and consumed by [restoreState]. *)
Record State := {
  s_values : list Z;
  s_held : list bool;
  s_rollsLeft : Z;
  s_hasRolled : bool
}.

Definition set_values (v : list Z) (e : t) : t :=
  {| count := count e; sides := sides e; maxRolls := maxRolls e;
     values := v; held := held e; rollsLeft := rollsLeft e;
     hasRolled := hasRolled e; isRolling := isRolling e |}.
Definition set_held (h : list bool) (e : t) : t :=
  {| count := count e; sides := sides e; maxRolls := maxRolls e;
     values := values e; held := h; rollsLeft := rollsLeft e;
     hasRolled := hasRolled e; isRolling := isRolling e |}.
Definition set_rollsLeft (r : Z) (e : t) : t :=
  {| count := count e; sides := sides e; maxRolls := maxRolls e;
     values := values e; held := held e; rollsLeft := r;
     hasRolled := hasRolled e; isRolling := isRolling e |}.
Definition set_hasRolled (b : bool) (e : t) : t :=
  {| count := count e; sides := sides e; maxRolls := maxRolls e;
     values := values e; held := held e; rollsLeft := rollsLeft e;
     hasRolled := b; isRolling := isRolling e |}.
Definition set_isRolling (b : bool) (e : t) : t :=
  {| count := count e; sides := sides e; maxRolls := maxRolls e;
     values := values e; held := held e; rollsLeft := rollsLeft e;
     hasRolled := hasRolled e; isRolling := b |}.

(** [new DiceEngine({count, sides, maxRolls})]. *)
Definition new (count : nat) (sides maxRolls : Z) : t :=
  {| count := count; sides := sides; maxRolls := maxRolls;
     values := replicate count 1; held := replicate count false;
     rollsLeft := maxRolls; hasRolled := false; isRolling := false |}.

(** The loop of [roll]: every die that is not held takes the draw
    [rnd i], which stands for [Math.floor(Math.random() * sides) + 1]. *)
Definition roll_values (rnd : nat → Z) (e : t) : list Z :=
  foldl (λ vs i, if default false (held e !! i) then vs
                 else array_set 0 i (rnd i) vs)
        (values e) (seq 0 (count e)).

(** [roll()]: the new engine and the returned boolean. *)
Definition roll (rnd : nat → Z) (e : t) : t * bool :=
  if bool_decide (rollsLeft e ≤ 0) || isRolling e then (e, false)
  else
    let e1 := set_rollsLeft (rollsLeft e - 1)
                (set_hasRolled true (set_isRolling true e)) in
    (set_values (roll_values rnd e1) e1, true).

(** [finishRoll()]; the [roll-end] listeners are run by the game. *)
Definition finishRoll (e : t) : t := set_isRolling false e.

Definition toggleHold (index : Z) (e : t) : t * bool :=
  if negb (hasRolled e) || isRolling e || bool_decide (rollsLeft e = 0)
  then (e, false)
  else if bool_decide (index < 0) || bool_decide (Z.of_nat (count e) ≤ index)
  then (e, false)
  else
    let i := Z.to_nat index in
    (set_held (array_set false i (negb (default false (held e !! i))) (held e)) e,
     true).

Definition reset (e : t) : t :=
  set_isRolling false (set_hasRolled false (set_rollsLeft (maxRolls e)
    (set_held (replicate (count e) false)
      (set_values (replicate (count e) 1) e)))).

Definition canRoll (e : t) : bool :=
  bool_decide (0 < rollsLeft e) && negb (isRolling e).
Definition canHold (e : t) : bool :=
  hasRolled e && negb (isRolling e) && bool_decide (0 < rollsLeft e).

Definition getState (e : t) : State :=
  {| s_values := values e; s_held := held e;
     s_rollsLeft := rollsLeft e; s_hasRolled := hasRolled e |}.

(** [restoreState(state)]; [None] is a missing ([null] / [undefined])
    snapshot, for which the method returns at once. *)
Definition restoreState (state : option State) (e : t) : t :=
  match state with
  | None => e
  | Some s =>
      set_isRolling false (set_hasRolled (s_hasRolled s)
        (set_rollsLeft (s_rollsLeft s)
          (set_held (s_held s) (set_values (s_values s) e))))
  end.

(** The calls a client makes on an engine between construction and the
    next [restoreState]: the game's [roll] and [reset], the renderer's
    [finishRoll] and [toggleHold]. *)
Inductive Call :=
| Roll (rnd : nat → Z)
| FinishRoll
| ToggleHold (index : Z)
| Reset.

Definition call (e : t) (c : Call) : t :=
  match c with
  | Roll rnd => (roll rnd e).1
  | FinishRoll => finishRoll e
  | ToggleHold index => (toggleHold index e).1
  | Reset => reset e
  end.

Definition calls (e : t) (cs : list Call) : t := foldl call e cs.

(** Every draw of a roll is a face of a die with [sides] sides, as
    [Math.floor(Math.random() * sides) + 1] is. *)
Definition draws_faces (sides : Z) (c : Call) : Prop :=
  match c with
  | Roll rnd => ∀ i, 1 ≤ rnd i ≤ sides
  | _ => True
  end.

End DiceEngine.

(** ** FarkleGame *)

Module FarkleGame.
Import FarkleScoring.

Definition TARGET_SCORE : Z := 10000.
Definition MIN_SCORE_3RD_ROLL : Z := 350.
Definition STRAIGHT_SCORE : Z := 1000.

Inductive TurnState :=
  idle | rolling | selecting | confirmed | farkle | straightAttempt.

#[global] Instance TurnState_eq_dec : EqDecision TurnState.
Proof. solve_decision. Defined.

(** A player; [id] is the position in [players]. *)
Record Player := {
  name : string;
  color : string;
  totalScore : Z
}.

Definition set_totalScore (x : Z) (p : Player) : Player :=
  {| name := name p; color := color p; totalScore := x |}.

(** The callbacks handed to [setTimeout]. *)
Inductive Timer :=
| NextPlayerTimer   (* [_handleFarkle], [_handleForcedFarkle]: after 2000 ms *)
| HotDiceTimer.     (* [_handleHotDice]: after 1800 ms *)

#[global] Instance Timer_eq_dec : EqDecision Timer.
Proof. solve_decision. Defined.

(** The object written by [_autoSave] and read by [_restoreState].
    [gameId], [gameType] and [gameStartTime] identify the record and carry
    no game state; they are left out.  [sv_dice] is optional because
    [_restoreState] tests [if (state.dice)]. *)
Record Saved := {
  sv_players : list Player;
  sv_currentPlayerIndex : nat;
  sv_turnScore : Z;
  sv_rollCount : Z;
  sv_setAsideDice : list nat;
  sv_selectedDice : list nat;
  sv_turnState : TurnState;
  sv_finalRound : bool;
  sv_finalRoundTriggerPlayer : Z;
  sv_playersHadFinalTurn : list nat;
  sv_dice : option DiceEngine.State
}.

(** The controller object.  Besides the fields of the class:
    [straightHandler] is the one-shot [roll-end] listener registered by
    [_attemptStraight] (its captured [keptDupIdx] and [missingVal]);
    [timers] are the pending [setTimeout] callbacks;
    [saved] is the record of this game in the active-games store;
    [winners] is set by [_endGame] (the indices of the winning players). *)
Record t := {
  players : list Player;
  currentPlayerIndex : nat;
  turnScore : Z;
  rollCount : Z;
  setAsideDice : JsSet.t;
  selectedDice : JsSet.t;
  turnState : TurnState;
  straightAttemptData : option StraightAttempt;
  finalRound : bool;
  finalRoundTriggerPlayer : Z;
  playersHadFinalTurn : JsSet.t;
  diceEngine : DiceEngine.t;
  straightHandler : option (option nat * option Z);
  timers : list Timer;
  saved : option Saved;
  winners : option (list nat)
}.

Definition set_players (x : list Player) (g : t) : t :=
  {| players := x;
     currentPlayerIndex := currentPlayerIndex g;
     turnScore := turnScore g;
     rollCount := rollCount g;
     setAsideDice := setAsideDice g;
     selectedDice := selectedDice g;
     turnState := turnState g;
     straightAttemptData := straightAttemptData g;
     finalRound := finalRound g;
     finalRoundTriggerPlayer := finalRoundTriggerPlayer g;
     playersHadFinalTurn := playersHadFinalTurn g;
     diceEngine := diceEngine g;
     straightHandler := straightHandler g;
     timers := timers g;
     saved := saved g;
     winners := winners g |}.
Definition set_currentPlayerIndex (x : nat) (g : t) : t :=
  {| players := players g;
     currentPlayerIndex := x;
     turnScore := turnScore g;
     rollCount := rollCount g;
     setAsideDice := setAsideDice g;
     selectedDice := selectedDice g;
     turnState := turnState g;
     straightAttemptData := straightAttemptData g;
     finalRound := finalRound g;
     finalRoundTriggerPlayer := finalRoundTriggerPlayer g;
     playersHadFinalTurn := playersHadFinalTurn g;
     diceEngine := diceEngine g;
     straightHandler := straightHandler g;
     timers := timers g;
     saved := saved g;
     winners := winners g |}.
Definition set_turnScore (x : Z) (g : t) : t :=
  {| players := players g;
     currentPlayerIndex := currentPlayerIndex g;
     turnScore := x;
     rollCount := rollCount g;
     setAsideDice := setAsideDice g;
     selectedDice := selectedDice g;
     turnState := turnState g;
     straightAttemptData := straightAttemptData g;
     finalRound := finalRound g;
     finalRoundTriggerPlayer := finalRoundTriggerPlayer g;
     playersHadFinalTurn := playersHadFinalTurn g;
     diceEngine := diceEngine g;
     straightHandler := straightHandler g;
     timers := timers g;
     saved := saved g;
     winners := winners g |}.
Definition set_rollCount (x : Z) (g : t) : t :=
  {| players := players g;
     currentPlayerIndex := currentPlayerIndex g;
     turnScore := turnScore g;
     rollCount := x;
     setAsideDice := setAsideDice g;
     selectedDice := selectedDice g;
     turnState := turnState g;
     straightAttemptData := straightAttemptData g;
     finalRound := finalRound g;
     finalRoundTriggerPlayer := finalRoundTriggerPlayer g;
     playersHadFinalTurn := playersHadFinalTurn g;
     diceEngine := diceEngine g;
     straightHandler := straightHandler g;
     timers := timers g;
     saved := saved g;
     winners := winners g |}.
Definition set_setAsideDice (x : JsSet.t) (g : t) : t :=
  {| players := players g;
     currentPlayerIndex := currentPlayerIndex g;
     turnScore := turnScore g;
     rollCount := rollCount g;
     setAsideDice := x;
     selectedDice := selectedDice g;
     turnState := turnState g;
     straightAttemptData := straightAttemptData g;
     finalRound := finalRound g;
     finalRoundTriggerPlayer := finalRoundTriggerPlayer g;
     playersHadFinalTurn := playersHadFinalTurn g;
     diceEngine := diceEngine g;
     straightHandler := straightHandler g;
     timers := timers g;
     saved := saved g;
     winners := winners g |}.
Definition set_selectedDice (x : JsSet.t) (g : t) : t :=
  {| players := players g;
     currentPlayerIndex := currentPlayerIndex g;
     turnScore := turnScore g;
     rollCount := rollCount g;
     setAsideDice := setAsideDice g;
     selectedDice := x;
     turnState := turnState g;
     straightAttemptData := straightAttemptData g;
     finalRound := finalRound g;
     finalRoundTriggerPlayer := finalRoundTriggerPlayer g;
     playersHadFinalTurn := playersHadFinalTurn g;
     diceEngine := diceEngine g;
     straightHandler := straightHandler g;
     timers := timers g;
     saved := saved g;
     winners := winners g |}.
Definition set_turnState (x : TurnState) (g : t) : t :=
  {| players := players g;
     currentPlayerIndex := currentPlayerIndex g;
     turnScore := turnScore g;
     rollCount := rollCount g;
     setAsideDice := setAsideDice g;
     selectedDice := selectedDice g;
     turnState := x;
     straightAttemptData := straightAttemptData g;
     finalRound := finalRound g;
     finalRoundTriggerPlayer := finalRoundTriggerPlayer g;
     playersHadFinalTurn := playersHadFinalTurn g;
     diceEngine := diceEngine g;
     straightHandler := straightHandler g;
     timers := timers g;
     saved := saved g;
     winners := winners g |}.
Definition set_straightAttemptData (x : option StraightAttempt) (g : t) : t :=
  {| players := players g;
     currentPlayerIndex := currentPlayerIndex g;
     turnScore := turnScore g;
     rollCount := rollCount g;
     setAsideDice := setAsideDice g;
     selectedDice := selectedDice g;
     turnState := turnState g;
     straightAttemptData := x;
     finalRound := finalRound g;
     finalRoundTriggerPlayer := finalRoundTriggerPlayer g;
     playersHadFinalTurn := playersHadFinalTurn g;
     diceEngine := diceEngine g;
     straightHandler := straightHandler g;
     timers := timers g;
     saved := saved g;
     winners := winners g |}.
Definition set_finalRound (x : bool) (g : t) : t :=
  {| players := players g;
     currentPlayerIndex := currentPlayerIndex g;
     turnScore := turnScore g;
     rollCount := rollCount g;
     setAsideDice := setAsideDice g;
     selectedDice := selectedDice g;
     turnState := turnState g;
     straightAttemptData := straightAttemptData g;
     finalRound := x;
     finalRoundTriggerPlayer := finalRoundTriggerPlayer g;
     playersHadFinalTurn := playersHadFinalTurn g;
     diceEngine := diceEngine g;
     straightHandler := straightHandler g;
     timers := timers g;
     saved := saved g;
     winners := winners g |}.
Definition set_finalRoundTriggerPlayer (x : Z) (g : t) : t :=
  {| players := players g;
     currentPlayerIndex := currentPlayerIndex g;
     turnScore := turnScore g;
     rollCount := rollCount g;
     setAsideDice := setAsideDice g;
     selectedDice := selectedDice g;
     turnState := turnState g;
     straightAttemptData := straightAttemptData g;
     finalRound := finalRound g;
     finalRoundTriggerPlayer := x;
     playersHadFinalTurn := playersHadFinalTurn g;
     diceEngine := diceEngine g;
     straightHandler := straightHandler g;
     timers := timers g;
     saved := saved g;
     winners := winners g |}.
Definition set_playersHadFinalTurn (x : JsSet.t) (g : t) : t :=
  {| players := players g;
     currentPlayerIndex := currentPlayerIndex g;
     turnScore := turnScore g;
     rollCount := rollCount g;
     setAsideDice := setAsideDice g;
     selectedDice := selectedDice g;
     turnState := turnState g;
     straightAttemptData := straightAttemptData g;
     finalRound := finalRound g;
     finalRoundTriggerPlayer := finalRoundTriggerPlayer g;
     playersHadFinalTurn := x;
     diceEngine := diceEngine g;
     straightHandler := straightHandler g;
     timers := timers g;
     saved := saved g;
     winners := winners g |}.
Definition set_diceEngine (x : DiceEngine.t) (g : t) : t :=
  {| players := players g;
     currentPlayerIndex := currentPlayerIndex g;
     turnScore := turnScore g;
     rollCount := rollCount g;
     setAsideDice := setAsideDice g;
     selectedDice := selectedDice g;
     turnState := turnState g;
     straightAttemptData := straightAttemptData g;
     finalRound := finalRound g;
     finalRoundTriggerPlayer := finalRoundTriggerPlayer g;
     playersHadFinalTurn := playersHadFinalTurn g;
     diceEngine := x;
     straightHandler := straightHandler g;
     timers := timers g;
     saved := saved g;
     winners := winners g |}.
Definition set_straightHandler (x : option (option nat * option Z)) (g : t) : t :=
  {| players := players g;
     currentPlayerIndex := currentPlayerIndex g;
     turnScore := turnScore g;
     rollCount := rollCount g;
     setAsideDice := setAsideDice g;
     selectedDice := selectedDice g;
     turnState := turnState g;
     straightAttemptData := straightAttemptData g;
     finalRound := finalRound g;
     finalRoundTriggerPlayer := finalRoundTriggerPlayer g;
     playersHadFinalTurn := playersHadFinalTurn g;
     diceEngine := diceEngine g;
     straightHandler := x;
     timers := timers g;
     saved := saved g;
     winners := winners g |}.
Definition set_timers (x : list Timer) (g : t) : t :=
  {| players := players g;
     currentPlayerIndex := currentPlayerIndex g;
     turnScore := turnScore g;
     rollCount := rollCount g;
     setAsideDice := setAsideDice g;
     selectedDice := selectedDice g;
     turnState := turnState g;
     straightAttemptData := straightAttemptData g;
     finalRound := finalRound g;
     finalRoundTriggerPlayer := finalRoundTriggerPlayer g;
     playersHadFinalTurn := playersHadFinalTurn g;
     diceEngine := diceEngine g;
     straightHandler := straightHandler g;
     timers := x;
     saved := saved g;
     winners := winners g |}.
Definition set_saved (x : option Saved) (g : t) : t :=
  {| players := players g;
     currentPlayerIndex := currentPlayerIndex g;
     turnScore := turnScore g;
     rollCount := rollCount g;
     setAsideDice := setAsideDice g;
     selectedDice := selectedDice g;
     turnState := turnState g;
     straightAttemptData := straightAttemptData g;
     finalRound := finalRound g;
     finalRoundTriggerPlayer := finalRoundTriggerPlayer g;
     playersHadFinalTurn := playersHadFinalTurn g;
     diceEngine := diceEngine g;
     straightHandler := straightHandler g;
     timers := timers g;
     saved := x;
     winners := winners g |}.
Definition set_winners (x : option (list nat)) (g : t) : t :=
  {| players := players g;
     currentPlayerIndex := currentPlayerIndex g;
     turnScore := turnScore g;
     rollCount := rollCount g;
     setAsideDice := setAsideDice g;
     selectedDice := selectedDice g;
     turnState := turnState g;
     straightAttemptData := straightAttemptData g;
     finalRound := finalRound g;
     finalRoundTriggerPlayer := finalRoundTriggerPlayer g;
     playersHadFinalTurn := playersHadFinalTurn g;
     diceEngine := diceEngine g;
     straightHandler := straightHandler g;
     timers := timers g;
     saved := saved g;
     winners := x |}.

(** The constant range of the loops [for (let i = 0; i < 6; i++)]. *)
Definition six : list nat := seq 0 6.

(** [_autoSave]: the snapshot handed to [gameHistory.saveActiveGame]. *)
Definition snapshot (g : t) : Saved :=
  {| sv_players := players g;
     sv_currentPlayerIndex := currentPlayerIndex g;
     sv_turnScore := turnScore g;
     sv_rollCount := rollCount g;
     sv_setAsideDice := JsSet.to_list (setAsideDice g);
     sv_selectedDice := JsSet.to_list (selectedDice g);
     sv_turnState := turnState g;
     sv_finalRound := finalRound g;
     sv_finalRoundTriggerPlayer := finalRoundTriggerPlayer g;
     sv_playersHadFinalTurn := JsSet.to_list (playersHadFinalTurn g);
     sv_dice := Some (DiceEngine.getState (diceEngine g)) |}.

Definition _autoSave (g : t) : t := set_saved (Some (snapshot g)) g.

(** [_startTurn]. *)
Definition _startTurn (g : t) : t :=
  let g := set_turnScore 0 g in
  let g := set_rollCount 0 g in
  let g := set_setAsideDice JsSet.empty g in
  let g := set_selectedDice JsSet.empty g in
  let g := set_turnState idle g in
  let g := set_straightAttemptData None g in
  let e := diceEngine g in
  let e := DiceEngine.set_values (replicate 6 1) e in
  let e := DiceEngine.set_held (replicate 6 false) e in
  let e := DiceEngine.set_rollsLeft 1 e in
  let e := DiceEngine.set_hasRolled false e in
  let e := DiceEngine.set_isRolling false e in
  set_diceEngine e g.

(** [for (i < 6) held[i] = setAsideDice.has(i)]. *)
Definition hold_set_aside (sa : JsSet.t) (held : list bool) : list bool :=
  foldl (λ h i, array_set false i (JsSet.has i sa) h) held six.

(** [_rollDice]; the result of [diceEngine.roll()] is not used. *)
Definition _rollDice (rnd : nat → Z) (g : t) : t :=
  if DiceEngine.isRolling (diceEngine g) then g
  else if negb (bool_decide (turnState g = idle))
          && negb (bool_decide (turnState g = confirmed)) then g
  else
    let e := DiceEngine.set_rollsLeft 1 (diceEngine g) in
    let e := DiceEngine.set_held (hold_set_aside (setAsideDice g) (DiceEngine.held e)) e in
    let g := set_diceEngine e g in
    let g := set_selectedDice JsSet.empty g in
    let g := set_rollCount (rollCount g + 1) g in
    let g := set_turnState rolling g in
    set_diceEngine (DiceEngine.roll rnd (diceEngine g)).1 g.

(** The indices and the values of the dice that are not set aside. *)
Definition availableIndices (g : t) : list nat :=
  filter (λ i, JsSet.has i (setAsideDice g) = false) six.
Definition availableDice (g : t) : list Z :=
  array_get (DiceEngine.values (diceEngine g)) <$> availableIndices g.

Definition _handleFarkle (g : t) : t :=
  let g := set_turnState farkle g in
  let g := set_turnScore 0 g in
  set_timers (timers g ++ [NextPlayerTimer]) g.

Definition _handleForcedFarkle (g : t) : t :=
  let g := set_turnState farkle g in
  let g := set_turnScore 0 g in
  set_timers (timers g ++ [NextPlayerTimer]) g.

(** [_onRollEnd], the permanent [roll-end] listener. *)
Definition _onRollEnd (g : t) : t :=
  let g := set_diceEngine (DiceEngine.set_rollsLeft 0 (diceEngine g)) g in
  let available := availableDice g in
  if isFarkle available then _handleFarkle g
  else
    let g :=
      if decide (length available = 6%nat) then
        let sa := detectStraightAttempt available in
        if possible sa then set_straightAttemptData (Some sa) g
        else set_straightAttemptData None g
      else set_straightAttemptData None g in
    let g := set_turnState selecting g in
    _autoSave g.

(** [_onDiceClick]. *)
Definition _onDiceClick (index : nat) (g : t) : t :=
  if negb (bool_decide (turnState g = selecting)) then g
  else if JsSet.has index (setAsideDice g) then g
  else if JsSet.has index (selectedDice g)
  then set_selectedDice (JsSet.delete index (selectedDice g)) g
  else set_selectedDice (JsSet.add index (selectedDice g)) g.

(** The synchronous part of [_handleHotDice]. *)
Definition _handleHotDice (g : t) : t :=
  let g := set_setAsideDice JsSet.empty g in
  set_timers (timers g ++ [HotDiceTimer]) g.

(** The callback that [_handleHotDice] schedules. *)
Definition hotDice_callback (g : t) : t :=
  let e := diceEngine g in
  let e := DiceEngine.set_values (replicate 6 1) e in
  let e := DiceEngine.set_held (replicate 6 false) e in
  let e := DiceEngine.set_rollsLeft 1 e in
  let e := DiceEngine.set_hasRolled false e in
  let g := set_diceEngine e g in
  let g := set_turnState confirmed g in
  _autoSave g.

(** The values of the selected dice, in the iteration order of the set. *)
Definition selectedValues (g : t) : list Z :=
  array_get (DiceEngine.values (diceEngine g)) <$> JsSet.to_list (selectedDice g).

(** [for (const idx of selectedDice) setAsideDice.add(idx)]: the
    set-aside set once the selection has been moved into it. *)
Definition aside_after (g : t) : JsSet.t :=
  foldl (λ s idx, JsSet.add idx s) (setAsideDice g) (JsSet.to_list (selectedDice g)).

(** [_confirmSelection]. *)
Definition _confirmSelection (g : t) : t :=
  if negb (bool_decide (turnState g = selecting)) then g
  else if bool_decide (JsSet.size (selectedDice g) = 0) then g
  else
    match scoreSelection (selectedValues g) with
    | None => g
    | Some score =>
        let g := set_turnScore (turnScore g + score) g in
        let g := set_setAsideDice (aside_after g) g in
        let g := set_selectedDice JsSet.empty g in
        if bool_decide (6 ≤ JsSet.size (setAsideDice g)) then _handleHotDice g
        else if bool_decide (3 ≤ rollCount g)
                && bool_decide (turnScore g < MIN_SCORE_3RD_ROLL)
        then _handleForcedFarkle g
        else _autoSave (set_turnState confirmed g)
    end.

(** The loop of [_endGame] that collects the winners. *)
Definition winner_step (acc : Z * list nat) (ip : nat * Player) : Z * list nat :=
  let '(maxScore, ws) := acc in
  let '(i, p) := ip in
  if bool_decide (maxScore < totalScore p) then (totalScore p, [i])
  else if bool_decide (totalScore p = maxScore) then (maxScore, ws ++ [i])
  else (maxScore, ws).

Definition find_winners (ps : list Player) : Z * list nat :=
  foldl winner_step (-1, []) (imap pair ps).

(** [_endGame]: the winners are fixed and the game leaves the active-games
    store; history, profiles and the modal are outside the model. *)
Definition _endGame (g : t) : t :=
  set_saved None (set_winners (Some (find_winners (players g)).2) g).

(** [players.every((_, i) => i === finalRoundTriggerPlayer ||
    playersHadFinalTurn.has(i))]. *)
Definition allDone (g : t) : bool :=
  forallb (λ i, bool_decide (Z.of_nat i = finalRoundTriggerPlayer g)
                || JsSet.has i (playersHadFinalTurn g))
          (seq 0 (length (players g))).

Definition next_index (g : t) : nat :=
  ((currentPlayerIndex g + 1) mod length (players g))%nat.

(** [_nextPlayer]. *)
Definition _nextPlayer (g : t) : t :=
  let g :=
    if finalRound g
    then set_playersHadFinalTurn
           (JsSet.add (currentPlayerIndex g) (playersHadFinalTurn g)) g
    else g in
  if finalRound g && allDone g then _endGame g
  else
    let g := set_currentPlayerIndex (next_index g) g in
    if finalRound g
       && bool_decide (Z.of_nat (currentPlayerIndex g) = finalRoundTriggerPlayer g)
    then
      let g := set_playersHadFinalTurn
                 (JsSet.add (currentPlayerIndex g) (playersHadFinalTurn g)) g in
      let g := set_currentPlayerIndex (next_index g) g in
      if allDone g then _endGame g
      else _autoSave (_startTurn g)
    else _autoSave (_startTurn g).

(** [_bank].  [players[currentPlayerIndex]] is always defined: the index
    only ever moves modulo [players.length]. *)
Definition _bank (g : t) : t :=
  if negb (bool_decide (turnState g = confirmed)) then g
  else
    match players g !! currentPlayerIndex g with
    | None => g
    | Some p =>
        let p := set_totalScore (totalScore p + turnScore g) p in
        let g := set_players (<[currentPlayerIndex g := p]> (players g)) g in
        let g :=
          if bool_decide (TARGET_SCORE ≤ totalScore p) && negb (finalRound g)
          then set_finalRoundTriggerPlayer (Z.of_nat (currentPlayerIndex g))
                 (set_finalRound true g)
          else g in
        _nextPlayer (_autoSave g)
    end.

(** The one-shot [straightHandler] of [_attemptStraight]. *)
Definition run_straightHandler (keptDupIdx : option nat) (missingVal : option Z)
    (g : t) : t :=
  let g := set_straightHandler None g in
  let g := set_diceEngine (DiceEngine.set_rollsLeft 0 (diceEngine g)) g in
  let newVal := keptDupIdx ≫= λ i, DiceEngine.values (diceEngine g) !! i in
  if bool_decide (is_Some newVal ∧ newVal = missingVal) then
    let g := set_turnScore (turnScore g + STRAIGHT_SCORE) g in
    let g := set_setAsideDice (JsSet.of_list six) g in
    let g := set_straightAttemptData None g in
    _handleHotDice g
  else _handleFarkle (set_straightAttemptData None g).

(** The loop of [_attemptStraight] that keeps the first die showing the
    duplicated face and sets the others aside.  [values[i] === dupVal]
    compares two possibly undefined numbers. *)
Definition keep_one_duplicate (values : list Z) (dupVal : option Z)
    (st : option nat * JsSet.t) (i : nat) : option nat * JsSet.t :=
  let '(keptDupIdx, sa) := st in
  if bool_decide (values !! i = dupVal) && bool_decide (keptDupIdx = None)
  then (Some i, sa)
  else (keptDupIdx, JsSet.add i sa).

(** [_attemptStraight]. *)
Definition _attemptStraight (rnd : nat → Z) (g : t) : t :=
  match straightAttemptData g with
  | None => g
  | Some sa =>
      if negb (bool_decide (turnState g = selecting)) then g
      else
        let g := set_turnState straightAttempt g in
        let missingVal := missingValue sa in
        let values := DiceEngine.values (diceEngine g) in
        let freq := countFrequency values in
        let dupVal := find (λ v, bool_decide (freq !! v = Some 2)) (Object_keys freq) in
        let '(keptDupIdx, aside) :=
          foldl (keep_one_duplicate values dupVal) (None, setAsideDice g) six in
        let g := set_setAsideDice aside g in
        let g := set_selectedDice JsSet.empty g in
        let e := DiceEngine.set_held
                   (hold_set_aside aside (replicate 6 false)) (diceEngine g) in
        let e := DiceEngine.set_rollsLeft 1 e in
        let g := set_diceEngine e g in
        let g := set_rollCount (rollCount g + 1) g in
        let g := set_straightHandler (Some (keptDupIdx, missingVal)) g in
        set_diceEngine (DiceEngine.roll rnd (diceEngine g)).1 g
  end.

(** The renderer's call of [diceEngine.finishRoll()] when the animation
    ends: the [roll-end] listeners run in registration order, the
    permanent [_onRollEnd] first and then the one-shot straight handler
    when one was registered. *)
Definition finishRoll (g : t) : t :=
  let h := straightHandler g in
  let g := set_diceEngine (DiceEngine.finishRoll (diceEngine g)) g in
  let g := _onRollEnd g in
  match h with
  | Some (keptDupIdx, missingVal) => run_straightHandler keptDupIdx missingVal g
  | None => g
  end.

(** A pending timer expires and its callback runs. *)
Definition remove_first (x : Timer) (l : list Timer) : list Timer :=
  match list_find (λ y, y = x) l with
  | Some (i, _) => delete i l
  | None => l
  end.

Definition fire (x : Timer) (g : t) : t :=
  if bool_decide (x ∈ timers g) then
    let g := set_timers (remove_first x (timers g)) g in
    match x with
    | NextPlayerTimer => _nextPlayer g
    | HotDiceTimer => hotDice_callback g
    end
  else g.

(** [_restoreState].  On values that are present, [x || 0], [x || []],
    [x || 'idle'] and [x ?? -1] return [x] (a present number that is falsy
    is [0] itself). *)
Definition _restoreState (state : Saved) (g : t) : t :=
  let g := set_players (sv_players state) g in
  let g := set_currentPlayerIndex (sv_currentPlayerIndex state) g in
  let g := set_turnScore (sv_turnScore state) g in
  let g := set_rollCount (sv_rollCount state) g in
  let g := set_setAsideDice (JsSet.of_list (sv_setAsideDice state)) g in
  let g := set_selectedDice (JsSet.of_list (sv_selectedDice state)) g in
  let g := set_turnState (sv_turnState state) g in
  let g := set_finalRound (sv_finalRound state) g in
  let g := set_finalRoundTriggerPlayer (sv_finalRoundTriggerPlayer state) g in
  let g := set_playersHadFinalTurn (JsSet.of_list (sv_playersHadFinalTurn state)) g in
  let g :=
    match sv_dice state with
    | Some d => set_diceEngine (DiceEngine.restoreState (Some d) (diceEngine g)) g
    | None => g
    end in
  set_diceEngine (DiceEngine.set_rollsLeft 0 (diceEngine g)) g.

(** The fields the constructor sets before it restores or starts. *)
Definition blank (ps : list Player) : t :=
  {| players := ps;
     currentPlayerIndex := 0;
     turnScore := 0;
     rollCount := 0;
     setAsideDice := JsSet.empty;
     selectedDice := JsSet.empty;
     turnState := idle;
     straightAttemptData := None;
     finalRound := false;
     finalRoundTriggerPlayer := -1;
     playersHadFinalTurn := JsSet.empty;
     diceEngine := DiceEngine.new 6 6 999;
     straightHandler := None;
     timers := [];
     saved := None;
     winners := None |}.

(** [new FarkleGame({players, savedState})]. *)
Definition new (ps : list Player) (savedState : option Saved) : t :=
  match savedState with
  | Some state => _restoreState state (blank ps)
  | None => _startTurn (blank ps)
  end.

(** The events the controller reacts to: the buttons, a click on a die,
    the renderer's end-of-animation call and the expiry of a timer. *)
Inductive Event :=
| RollButton (rnd : nat → Z)
| RollFinished
| DiceClick (index : nat)
| ConfirmButton
| BankButton
| StraightButton (rnd : nat → Z)
| TimerFires (x : Timer).

Definition handle (g : t) (ev : Event) : t :=
  match ev with
  | RollButton rnd => _rollDice rnd g
  | RollFinished => finishRoll g
  | DiceClick index => _onDiceClick index g
  | ConfirmButton => _confirmSelection g
  | BankButton => _bank g
  | StraightButton rnd => _attemptStraight rnd g
  | TimerFires x => fire x g
  end.

(** A game after a sequence of events. *)
Definition run (g : t) (evs : list Event) : t := foldl handle g evs.

(** The sets of the controller hold no index twice, and
    [playersHadFinalTurn] is empty until the final round starts. *)
Definition sets_wf (g : t) : Prop :=
  NoDup (setAsideDice g) ∧ NoDup (selectedDice g)
  ∧ NoDup (playersHadFinalTurn g)
  ∧ (finalRound g = false → playersHadFinalTurn g = []).

(** Whether an event ends the current player's turn, that is, whether its
    handler calls [_nextPlayer]: the bank button in state [confirmed], or
    the expiry of a pending timer of [_handleFarkle] /
    [_handleForcedFarkle]. *)
Definition ends_turn (g : t) (ev : Event) : bool :=
  match ev with
  | BankButton => bool_decide (turnState g = confirmed)
  | TimerFires NextPlayerTimer => bool_decide (NextPlayerTimer ∈ timers g)
  | _ => false
  end.

(** Number of turns ended while the events are handled one after the
    other. *)
Fixpoint turn_ends (g : t) (evs : list Event) : nat :=
  match evs with
  | [] => 0
  | ev :: evs => ((if ends_turn g ev then 1 else 0) + turn_ends (handle g ev) evs)%nat
  end.

(** The fields the match controller owns. *)
Definition match_state (g : t)
  : list Player * nat * bool * Z * JsSet.t * option (list nat) :=
  (players g, currentPlayerIndex g, finalRound g, finalRoundTriggerPlayer g,
   playersHadFinalTurn g, winners g).

(** Number of turn ends after which it is player [i]'s turn, counted in
    turn order from the player [trig], among [n] players. *)
Definition turns_after (n trig i : nat) : nat := ((i + n - trig) mod n)%nat.

(** The final round triggered by player [trig] when [j] players, the trigger
    player first, have finished their last turn: the next [j]-th player in
    turn order is to play, and exactly the [j] players before it are
    recorded in [playersHadFinalTurn]. *)
Definition final_round_at (trig j : nat) (g : t) : Prop :=
  finalRound g = true
  ∧ finalRoundTriggerPlayer g = Z.of_nat trig
  ∧ (trig < length (players g))%nat
  ∧ winners g = None
  ∧ currentPlayerIndex g = ((trig + j) mod length (players g))%nat
  ∧ ∀ i, (i < length (players g))%nat →
         i ∈ playersHadFinalTurn g
         ↔ (turns_after (length (players g)) trig i < j)%nat.

(** [_getSelectionScore]: the score of the current selection, [null] when
    nothing is selected. *)
Definition _getSelectionScore (g : t) : option Z :=
  if bool_decide (JsSet.size (selectedDice g) = 0) then None
  else scoreSelection (selectedValues g).

(** [isValid] of [_updateActionButtons] in state [selecting]: the confirm
    button is enabled exactly when it holds
    ([selScore !== null && selScore > 0]). *)
Definition isValid (g : t) : bool :=
  match _getSelectionScore g with
  | Some selScore => bool_decide (0 < selScore)
  | None => false
  end.

(** [remaining] of [_updateActionButtons] in state [confirmed]: the number
    shown on the roll button, [6 - setAsideDice.size]. *)
Definition remaining (g : t) : Z := 6 - JsSet.size (setAsideDice g).

(** A stream of draws of a six-sided die. *)
Definition fair (rnd : nat → Z) : Prop := ∀ i, 1 ≤ rnd i ≤ 6.

(** An event as the page can produce it: the clicks are on one of the six
    dice and the draws are faces. *)
Definition playable (ev : Event) : Prop :=
  match ev with
  | RollButton rnd | StraightButton rnd => fair rnd
  | DiceClick index => (index < 6)%nat
  | _ => True
  end.

(** The table of a turn: the engine has six dice, each showing a face; the
    set-aside and the selected indices are dice; no die is both selected and
    set aside; the turn score is not negative. *)
Definition table_ok (g : t) : Prop :=
  DiceEngine.count (diceEngine g) = 6%nat
  ∧ length (DiceEngine.values (diceEngine g)) = 6%nat
  ∧ length (DiceEngine.held (diceEngine g)) = 6%nat
  ∧ Forall (λ v, 1 ≤ v ≤ 6) (DiceEngine.values (diceEngine g))
  ∧ Forall (λ i, (i < 6)%nat) (setAsideDice g)
  ∧ Forall (λ i, (i < 6)%nat) (selectedDice g)
  ∧ (∀ i, i ∈ selectedDice g → i ∉ setAsideDice g)
  ∧ 0 ≤ turnScore g.

End FarkleGame.

(** ** Yahtzee: YahtzeeScoring, YahtzeeCategories and the controller *)

Module Yahtzee.

(** [d.reduce((a, b) => a + b, 0)]. *)
Definition sum (d : list Z) : Z := foldl Z.add 0 d.

Definition countDice (dice : list Z) (val : Z) : Z :=
  sum (filter (λ d, d = val) dice).

(** [d.forEach(v => counts[v] = (counts[v] || 0) + 1)]. *)
Definition counts (d : list Z) : gmap Z Z :=
  foldl (λ c v, <[v := or0 (c !! v) + 1]> c) ∅ d.

Definition threeOfAKind (d : list Z) : Z :=
  if existsb (λ c, bool_decide (3 ≤ c)) (Object_values (counts d))
  then sum d else 0.

Definition fourOfAKind (d : list Z) : Z :=
  if existsb (λ c, bool_decide (4 ≤ c)) (Object_values (counts d))
  then sum d else 0.

Definition fullHouse (d : list Z) : Z :=
  let vals := Object_values (counts d) in
  if bool_decide (3 ∈ vals) && bool_decide (2 ∈ vals) then 25 else 0.

(** [str.includes(s)] on strings of one-character faces: [s] occurs in
    [str] as a contiguous block.  Faces are single digits, so the joined
    strings and the lists of faces correspond one to one, and the default
    (string) order of [sort()] is the numeric order. *)
Definition includes (s str : list Z) : bool :=
  existsb (λ k, bool_decide (take (length s) (drop k str) = s))
          (seq 0 (S (length str))).

Definition smallStraight (d : list Z) : Z :=
  let unique := merge_sort Z.le (remove_dups d) in
  if existsb (λ s, includes s unique) [[1; 2; 3; 4]; [2; 3; 4; 5]; [3; 4; 5; 6]]
  then 30 else 0.

Definition largeStraight (d : list Z) : Z :=
  let sorted := merge_sort Z.le d in
  if bool_decide (sorted = [1; 2; 3; 4; 5]) || bool_decide (sorted = [2; 3; 4; 5; 6])
  then 40 else 0.

(** [d.every(v => v === d[0]) ? 50 : 0]; [every] holds of the empty
    array. *)
Definition yahtzeeCheck (d : list Z) : Z :=
  match d with
  | [] => 50
  | d0 :: _ => if forallb (λ v, bool_decide (v = d0)) d then 50 else 0
  end.

Definition chance (d : list Z) : Z := sum d.

Inductive CatType := upper | bonus | lower.

#[global] Instance CatType_eq_dec : EqDecision CatType.
Proof. solve_decision. Defined.

Record Category := {
  id : string;
  type : CatType;
  calc : list Z → Z
}.

Definition categories : list Category := [
  {| id := "ones";          type := upper; calc := λ d, countDice d 1 |};
  {| id := "twos";          type := upper; calc := λ d, countDice d 2 |};
  {| id := "threes";        type := upper; calc := λ d, countDice d 3 |};
  {| id := "fours";         type := upper; calc := λ d, countDice d 4 |};
  {| id := "fives";         type := upper; calc := λ d, countDice d 5 |};
  {| id := "sixes";         type := upper; calc := λ d, countDice d 6 |};
  {| id := "bonus";         type := bonus; calc := λ _, 0 |};
  {| id := "threeKind";     type := lower; calc := threeOfAKind |};
  {| id := "fourKind";      type := lower; calc := fourOfAKind |};
  {| id := "fullHouse";     type := lower; calc := fullHouse |};
  {| id := "smallStraight"; type := lower; calc := smallStraight |};
  {| id := "largeStraight"; type := lower; calc := largeStraight |};
  {| id := "yahtzee";       type := lower; calc := yahtzeeCheck |};
  {| id := "chance";        type := lower; calc := chance |}
].

Record Player := {
  name : string;
  color : string;
  scores : gmap string Z;
  yahtzees : Z
}.

Definition calculateUpperSum (player : Player) : Z :=
  foldl (λ sum id, sum + or0 (scores player !! id)) 0
        ["ones"; "twos"; "threes"; "fours"; "fives"; "sixes"].

Definition calculateTotal (player : Player) (categories : list Category) : Z :=
  let total := calculateUpperSum player in
  let total := if bool_decide (63 ≤ total) then total + 35 else total in
  let total :=
    foldl (λ total c, total + or0 (scores player !! id c)) total
          (filter (λ c, type c = lower) categories) in
  if bool_decide (1 < yahtzees player)
  then total + (yahtzees player - 1) * 100
  else total.

(** The controller: players, turn index, dice engine, the record in the
    active-games store and the winners fixed by [_endGame]. *)
Record t := {
  players : list Player;
  currentPlayerIndex : nat;
  diceEngine : DiceEngine.t;
  saved : option (list Player * nat * DiceEngine.State);
  winners : option (list nat)
}.

Definition set_players (x : list Player) (g : t) : t :=
  {| players := x; currentPlayerIndex := currentPlayerIndex g;
     diceEngine := diceEngine g; saved := saved g; winners := winners g |}.
Definition set_currentPlayerIndex (x : nat) (g : t) : t :=
  {| players := players g; currentPlayerIndex := x;
     diceEngine := diceEngine g; saved := saved g; winners := winners g |}.
Definition set_diceEngine (x : DiceEngine.t) (g : t) : t :=
  {| players := players g; currentPlayerIndex := currentPlayerIndex g;
     diceEngine := x; saved := saved g; winners := winners g |}.
Definition set_saved (x : option (list Player * nat * DiceEngine.State)) (g : t) : t :=
  {| players := players g; currentPlayerIndex := currentPlayerIndex g;
     diceEngine := diceEngine g; saved := x; winners := winners g |}.
Definition set_winners (x : option (list nat)) (g : t) : t :=
  {| players := players g; currentPlayerIndex := currentPlayerIndex g;
     diceEngine := diceEngine g; saved := saved g; winners := x |}.

Definition _autoSave (g : t) : t :=
  set_saved (Some (players g, currentPlayerIndex g,
                   DiceEngine.getState (diceEngine g))) g.

Definition _isPlayerFinished (p : Player) : bool :=
  forallb (λ c, bool_decide (is_Some (scores p !! id c)))
          (filter (λ c, type c ≠ bonus) categories).

Definition advance (g : t) : t :=
  set_currentPlayerIndex
    ((currentPlayerIndex g + 1) mod length (players g))%nat g.

(** [_startTurn] and [_nextPlayer] call each other while the current
    player has filled every category; [fuel] bounds the number of players
    skipped that way ([players.length] is enough whenever some player is
    unfinished, which [_selectCategory] checks before it calls
    [_nextPlayer]). *)
Fixpoint _startTurn (fuel : nat) (g : t) : t :=
  let g := set_diceEngine (DiceEngine.reset (diceEngine g)) g in
  match players g !! currentPlayerIndex g with
  | Some p =>
      if _isPlayerFinished p then
        match fuel with
        | O => g
        | S fuel => _autoSave (_startTurn fuel (advance g))
        end
      else g
  | None => g
  end.

Definition _nextPlayer (g : t) : t :=
  _autoSave (_startTurn (length (players g)) (advance g)).

(** The loop of [_endGame] that collects the winners. *)
Definition winner_step (acc : Z * list nat) (ip : nat * Player) : Z * list nat :=
  let '(maxScore, ws) := acc in
  let '(i, p) := ip in
  let t := calculateTotal p categories in
  if bool_decide (maxScore < t) then (t, [i])
  else if bool_decide (t = maxScore) then (maxScore, ws ++ [i])
  else (maxScore, ws).

Definition _endGame (g : t) : t :=
  set_saved None
    (set_winners (Some (foldl winner_step (-1, []) (imap pair (players g))).2) g).

Definition set_score (catId : string) (score : Z) (p : Player) : Player :=
  {| name := name p; color := color p;
     scores := <[catId := score]> (scores p); yahtzees := yahtzees p |}.
Definition set_yahtzees (y : Z) (p : Player) : Player :=
  {| name := name p; color := color p; scores := scores p; yahtzees := y |}.

(** [_selectCategory]. *)
Definition _selectCategory (catId : string) (g : t) : t :=
  if negb (DiceEngine.hasRolled (diceEngine g))
     || DiceEngine.isRolling (diceEngine g) then g
  else
    match players g !! currentPlayerIndex g with
    | None => g
    | Some p =>
        match find (λ c, bool_decide (id c = catId)) categories with
        | None => g
        | Some cat =>
            if bool_decide (is_Some (scores p !! catId)) then g
            else
              let score := calc cat (DiceEngine.values (diceEngine g)) in
              let '(p, score) :=
                if bool_decide (catId = "yahtzee") && bool_decide (score = 50)
                then
                  let p := set_yahtzees (yahtzees p + 1) p in
                  if bool_decide (1 < yahtzees p) then (p, 100) else (p, score)
                else (p, score) in
              let p := set_score catId score p in
              let g := set_players (<[currentPlayerIndex g := p]> (players g)) g in
              if forallb _isPlayerFinished (players g) then _endGame g
              else _nextPlayer g
        end
    end.

(** [_rollDice] and the renderer's [finishRoll]; [_onRollEnd] saves. *)
Definition _rollDice (rnd : nat → Z) (g : t) : t :=
  if negb (DiceEngine.canRoll (diceEngine g)) then g
  else set_diceEngine (DiceEngine.roll rnd (diceEngine g)).1 g.

Definition finishRoll (g : t) : t :=
  _autoSave (set_diceEngine (DiceEngine.finishRoll (diceEngine g)) g).

(** The Yahtzee counter of a player agrees with the score sheet: it is 0,
    or it is 1 and the Yahtzee category is filled. *)
Definition counted_once (p : Player) : Prop :=
  yahtzees p = 0 ∨ (yahtzees p = 1 ∧ is_Some (scores p !! "yahtzee")).

(** [new YahtzeeGame({players})] without a saved state. *)
Definition new (names : list (string * string)) : t :=
  _startTurn (length names)
    {| players :=
         (λ nc, {| name := nc.1; color := nc.2; scores := ∅; yahtzees := 0 |})
           <$> names;
       currentPlayerIndex := 0;
       diceEngine := DiceEngine.new 5 6 3;
       saved := None;
       winners := None |}.

(** A click on a die: the renderer calls [diceEngine.toggleHold(i)], and
    when the engine accepts it the [hold-changed] listener [_onHoldChanged]
    saves the game. *)
Definition holdClick (index : Z) (g : t) : t :=
  let '(e, changed) := DiceEngine.toggleHold index (diceEngine g) in
  if changed then _autoSave (set_diceEngine e g) else g.

(** [_restoreState(state)] on the fields [_autoSave] stores; [dice] is
    [state.dice], which may be missing.  [p.yahtzees || 0] is [p.yahtzees]
    on a number. *)
Definition _restoreState (ps : list Player) (index : nat)
    (dice : option DiceEngine.State) (g : t) : t :=
  let g := set_players ps g in
  let g := set_currentPlayerIndex index g in
  match dice with
  | Some d => set_diceEngine (DiceEngine.restoreState (Some d) (diceEngine g)) g
  | None => g
  end.

(** The events the controller reacts to: the roll button, the renderer's
    end-of-animation call, a click on a die and a click on a cell of the
    score sheet. *)
Inductive Event :=
| RollButton (rnd : nat → Z)
| RollFinished
| HoldClick (index : Z)
| CategoryClick (catId : string).

Definition handle (g : t) (ev : Event) : t :=
  match ev with
  | RollButton rnd => _rollDice rnd g
  | RollFinished => finishRoll g
  | HoldClick index => holdClick index g
  | CategoryClick catId => _selectCategory catId g
  end.

Definition run (g : t) (evs : list Event) : t := foldl handle g evs.

(** The player at [k] seats after the current one, in turn order. *)
Definition seat (g : t) (k : nat) : nat :=
  ((currentPlayerIndex g + k) mod length (players g))%nat.

(** A seat whose player has filled the whole score sheet. *)
Definition seat_finished (g : t) (k : nat) : bool :=
  match players g !! seat g k with
  | Some p => _isPlayerFinished p
  | None => false
  end.

End Yahtzee.

(** ** GameHistoryService over StorageService *)

(** The service keeps the suspended games and the finished matches in
    [localStorage] through [StorageService].  The three keys it uses here
    are the fields of the store; a key that is absent, or whose text does
    not parse, reads as the default.  [available] is the flag of
    [StorageService], [writable] says whether [localStorage.setItem]
    succeeds (it throws when the quota is exceeded).  Identifiers
    ([_generateId]) and dates ([new Date().toISOString()]) are handed in.
    The content of a saved game and of a match, beyond the fields the
    service reads, is of any type.  Player profiles are not modelled. *)
Module GameHistory.
Section service.
Context {A B : Type}.

(** A saved game: [gameId] and [savedAt] may be missing. *)
Record Game := {
  gameId : option string;
  savedAt : option string;
  state : A
}.

(** An entry of the match history. *)
Record Match := {
  id : option string;
  date : option string;
  result : B
}.

Record Store := {
  available : bool;
  writable : bool;
  ACTIVE_GAMES : option (list Game);
  ACTIVE_GAME : option Game;
  MATCH_HISTORY : option (list Match)
}.

(** [storage.get(key, defaultValue)] for the three keys. *)
Definition get_ACTIVE_GAMES (st : Store) : option (list Game) :=
  if available st then ACTIVE_GAMES st else None.
Definition get_ACTIVE_GAME (st : Store) : option Game :=
  if available st then ACTIVE_GAME st else None.
Definition get_MATCH_HISTORY (st : Store) : list Match :=
  if available st then default [] (MATCH_HISTORY st) else [].

(** [storage.set(key, value)]: the returned boolean and the store. *)
Definition set_ACTIVE_GAMES (v : list Game) (st : Store) : bool * Store :=
  if available st && writable st then
    (true, {| available := available st; writable := writable st;
              ACTIVE_GAMES := Some v; ACTIVE_GAME := ACTIVE_GAME st;
              MATCH_HISTORY := MATCH_HISTORY st |})
  else (false, st).
Definition set_MATCH_HISTORY (v : list Match) (st : Store) : bool * Store :=
  if available st && writable st then
    (true, {| available := available st; writable := writable st;
              ACTIVE_GAMES := ACTIVE_GAMES st; ACTIVE_GAME := ACTIVE_GAME st;
              MATCH_HISTORY := Some v |})
  else (false, st).

(** [storage.remove(ACTIVE_GAME)]. *)
Definition remove_ACTIVE_GAME (st : Store) : Store :=
  if available st then
    {| available := available st; writable := writable st;
       ACTIVE_GAMES := ACTIVE_GAMES st; ACTIVE_GAME := None;
       MATCH_HISTORY := MATCH_HISTORY st |}
  else st.

(** [!gameId]: a missing or empty identifier. *)
Definition no_id (x : option string) : bool :=
  match x with
  | None => true
  | Some s => bool_decide (s = "")
  end.

(** [getActiveGames()], with the migration of the old single-game key;
    [migrated] is the identifier given to an old game that has none. *)
Definition getActiveGames (migrated : string) (st : Store) : list Game * Store :=
  match get_ACTIVE_GAMES st with
  | Some games => (games, st)
  | None =>
      match get_ACTIVE_GAME st with
      | Some oldGame =>
          let oldGame :=
            if no_id (gameId oldGame)
            then {| gameId := Some migrated; savedAt := savedAt oldGame;
                    state := state oldGame |}
            else oldGame in
          let st := (set_ACTIVE_GAMES [oldGame] st).2 in
          ([oldGame], remove_ACTIVE_GAME st)
      | None => ([], st)
      end
  end.

(** [games.findIndex(g => g.gameId === id)]. *)
Definition findIndex (gid : option string) (games : list Game) : option nat :=
  fst <$> list_find (λ g, gameId g = gid) games.

(** [saveActiveGame(gameState)]: the boolean of [storage.set] and the
    store; [fresh] is the identifier given to a game that has none, [now]
    the date of the save. *)
Definition saveActiveGame (fresh migrated now : string) (gameState : Game)
    (st : Store) : bool * Store :=
  let gameState :=
    if no_id (gameId gameState)
    then {| gameId := Some fresh; savedAt := savedAt gameState;
            state := state gameState |}
    else gameState in
  let '(games, st) := getActiveGames migrated st in
  let data := {| gameId := gameId gameState; savedAt := Some now;
                 state := state gameState |} in
  let games :=
    match findIndex (gameId data) games with
    | Some idx => <[idx := data]> games
    | None => games ++ [data]
    end in
  set_ACTIVE_GAMES games st.

(** [removeActiveGame(gameId)]. *)
Definition removeActiveGame (migrated : string) (gid : option string)
    (st : Store) : Store :=
  let '(games, st) := getActiveGames migrated st in
  (set_ACTIVE_GAMES (filter (λ g, gameId g ≠ gid) games) st).2.

(** [getActiveGame()] and [hasActiveGames()]. *)
Definition getActiveGame (migrated : string) (st : Store) : option Game * Store :=
  let '(games, st) := getActiveGames migrated st in (head games, st).
Definition hasActiveGames (migrated : string) (st : Store) : bool * Store :=
  let '(games, st) := getActiveGames migrated st in
  (bool_decide (0 < length games)%nat, st).

(** [clearActiveGame()]. *)
Definition clearActiveGame (st : Store) : Store :=
  remove_ACTIVE_GAME (set_ACTIVE_GAMES [] st).2.

Definition getMatchHistory (st : Store) : list Match := get_MATCH_HISTORY st.

(** [addMatchToHistory(match)]: the entry and the store.  The fields of
    [match] are spread after [id] and [date], so an identifier or a date
    that [match] brings is kept. *)
Definition addMatchToHistory (fresh now : string) (m : Match) (st : Store)
  : Match * Store :=
  let history := getMatchHistory st in
  let entry := {| id := Some (default fresh (id m));
                  date := Some (default now (date m));
                  result := result m |} in
  let history := entry :: history in
  let history := if decide (50 < length history)%nat then take 50 history else history in
  (entry, (set_MATCH_HISTORY history st).2).

(** [getRecentMatches(count)] for a count that is not negative. *)
Definition getRecentMatches (count : nat) (st : Store) : list Match :=
  take count (getMatchHistory st).

Definition clearHistory (st : Store) : Store := (set_MATCH_HISTORY [] st).2.

End service.
Arguments Game : clear implicits.
Arguments Match : clear implicits.
Arguments Store : clear implicits.
End GameHistory.

(** ** The scoring rules as the specification words them *)

Module Rules.
Import FarkleScoring.

(** Number of dice showing face [v]. *)
Definition occ (v : Z) (dice : list Z) : Z :=
  Z.of_nat (length (filter (λ x, x = v) dice)).

(** A die face: an integer in [1, 6]. *)
Definition is_face (v : Z) : Prop := 1 ≤ v ∧ v ≤ 6.

(** Sum of a list of scores. *)
Definition total_of (l : list Z) : Z := foldr Z.add 0 l.

(** Full straight: six dice, one of each face 1-6. *)
Definition full_straight (dice : list Z) : Prop :=
  length dice = 6%nat ∧ Forall (λ v, occ v dice = 1) faces.

(** Three pairs: six dice, three distinct values each appearing exactly
    twice. *)
Definition three_pairs (dice : list Z) : Prop :=
  length dice = 6%nat
  ∧ length (filter (λ v, occ v dice = 2) (remove_dups dice)) = 3%nat.

(** Two triplets: six dice, two distinct values each appearing exactly
    three times. *)
Definition two_triplets (dice : list Z) : Prop :=
  length dice = 6%nat
  ∧ length (filter (λ v, occ v dice = 3) (remove_dups dice)) = 2%nat.

#[global] Instance full_straight_dec dice : Decision (full_straight dice).
Proof. unfold full_straight. apply _. Defined.
#[global] Instance three_pairs_dec dice : Decision (three_pairs dice).
Proof. unfold three_pairs. apply _. Defined.
#[global] Instance two_triplets_dec dice : Decision (two_triplets dice).
Proof. unfold two_triplets. apply _. Defined.

(** Three-of-a-kind base score of a face. *)
Definition base (v : Z) : Z := if decide (v = 1) then 1000 else v * 100.

(** Contribution of a face [v] that occurs [c] times:
    [base v * 2^(c-3)] when [c >= 3]. *)
Definition kind_score_of (v c : Z) : Z :=
  if decide (3 ≤ c) then base v * 2 ^ (c - 3) else 0.
Definition kind_score (v : Z) (dice : list Z) : Z :=
  kind_score_of v (occ v dice).

(** Dice of a face left over once its n-of-a-kind group is taken. *)
Definition leftover_of (c : Z) : Z := if decide (3 ≤ c) then 0 else c.
Definition leftover (v : Z) (dice : list Z) : Z := leftover_of (occ v dice).

(** Points of one leftover die: 100 for a one, 50 for a five, nothing
    otherwise. *)
Definition single_points (v : Z) : Z :=
  if decide (v = 1) then 100 else if decide (v = 5) then 50 else 0.

(** A leftover face other than 1 and 5. *)
Definition bad_leftover (dice : list Z) : Prop :=
  Exists (λ v, v ≠ 1 ∧ v ≠ 5 ∧ 0 < leftover v dice) faces.

#[global] Instance bad_leftover_dec dice : Decision (bad_leftover dice).
Proof. unfold bad_leftover. apply _. Defined.

(** The priority algorithm of the specification; [None] is "invalid". *)
Definition scoreSelection_spec (dice : list Z) : option Z :=
  if decide (dice = []) then None
  else if decide (full_straight dice) then Some 1000
  else if decide (three_pairs dice) then Some 1500
  else if decide (two_triplets dice) then Some 2500
  else if decide (bad_leftover dice) then None
  else
    let total := total_of ((λ v, kind_score v dice) <$> faces)
                 + 100 * leftover 1 dice + 50 * leftover 5 dice in
    if decide (total = 0) then None else Some total.

(** The bust condition: none of the scoring opportunities is present. *)
Definition scoring_opportunity (dice : list Z) : Prop :=
  1 ∈ dice ∨ 5 ∈ dice ∨ (∃ v, 3 ≤ occ v dice)
  ∨ full_straight dice ∨ three_pairs dice.

(** Exactly one face value is duplicated: one face shows twice and every
    other face shows at most once. *)
Definition one_duplicate (dice : list Z) : Prop :=
  ∃ d, occ d dice = 2 ∧ ∀ v, v ≠ d → occ v dice ≤ 1.

(** The five-of-six opportunity: exactly 5 distinct face values, all
    within [1, 6], and exactly one of them duplicated. *)
Definition five_of_six (dice : list Z) : Prop :=
  length (remove_dups dice) = 5%nat ∧ Forall is_face dice ∧ one_duplicate dice.

(** [m] is a face that no die shows. *)
Definition missing_face (dice : list Z) (m : Z) : Prop := is_face m ∧ m ∉ dice.

End Rules.

(** ** Sample games *)

Module Samples.
Import FarkleGame.

Definition alice : Player := {| name := "Alice"; color := "#e74c3c"; totalScore := 0 |}.
Definition bob : Player := {| name := "Bob"; color := "#3498db"; totalScore := 0 |}.

(** A fresh two-player game. *)
Definition fresh : t := new [alice; bob] None.

(** Draws: every die shows five; the dice show 2,3,4,6,2,5. *)
Definition fives : nat → Z := λ _, 5.
Definition mixed : nat → Z := λ i, nth i [2; 3; 4; 6; 2; 5] 1.

(** Draws without a scoring die: the dice show 2,3,4,6,2,3. *)
Definition barren : nat → Z := λ i, nth i [2; 3; 4; 6; 2; 3] 1.

(** A roll completed by the renderer. *)
Definition rolled (rnd : nat → Z) (g : t) : t := finishRoll (_rollDice rnd g).

(** Two fives are kept after each of the first two rolls; after the
    third roll the last two dice, both fives, are selected. *)
Definition third_roll_last_two : t :=
  let g := rolled fives fresh in
  let g := _confirmSelection (_onDiceClick 1 (_onDiceClick 0 g)) in
  let g := rolled fives g in
  let g := _confirmSelection (_onDiceClick 3 (_onDiceClick 2 g)) in
  let g := rolled fives g in
  _onDiceClick 5 (_onDiceClick 4 g).

(** One five is kept after each of the first two rolls; after the third
    roll one more five is selected. *)
Definition third_roll_one_five : t :=
  let g := rolled fives fresh in
  let g := _confirmSelection (_onDiceClick 0 g) in
  let g := rolled fives g in
  let g := _confirmSelection (_onDiceClick 1 g) in
  let g := rolled fives g in
  _onDiceClick 2 g.

(** After the first roll 2,3,4,6,2,5 the player selects the first die, a
    two. *)
Definition selected_a_two : t := _onDiceClick 0 (rolled mixed fresh).

(** Alice, with 9900 points banked, has confirmed 100 points this turn. *)
Definition about_to_trigger : t :=
  let g := new [set_totalScore 9900 alice; set_totalScore 9950 bob] None in
  let g := rolled mixed g in
  let g := _confirmSelection (_onDiceClick 5 g) in
  let g := rolled fives g in
  _confirmSelection (_onDiceClick 0 g).

(** After the first roll 2,3,4,6,2,5 the straight is offered (a one is
    missing); the player takes it and the re-rolled die shows a three. *)
Definition straight_failed : t :=
  run fresh [RollButton mixed; RollFinished;
             StraightButton (λ _, 3); RollFinished].

(** Three players; Alice banks 100 points on top of 9900: the final round
    is open and it is Bob's turn, Carol's being next. *)
Definition carol : Player := {| name := "Carol"; color := "#2ecc71"; totalScore := 0 |}.
Definition final_round_of_three : t :=
  run (new [set_totalScore 9900 alice; set_totalScore 9950 bob;
            set_totalScore 9990 carol] None)
      [RollButton mixed; RollFinished; DiceClick 5; ConfirmButton;
       RollButton fives; RollFinished; DiceClick 0; ConfirmButton; BankButton].

(** Bob's last turn: the roll 2,3,4,6,2,5 offers the straight, he takes it
    and the re-rolled die shows a three. *)
Definition bob_fails_straight : list Event :=
  [RollButton mixed; RollFinished; StraightButton (λ _, 3); RollFinished].

(** Draws: the dice show 1,1,1,5,5,5, two triplets. *)
Definition triplets : nat → Z := λ i, nth i [1; 1; 1; 5; 5; 5] 1.

(** The player clicks the six dice and confirms. *)
Definition select_all_six : list Event :=
  [DiceClick 0; DiceClick 1; DiceClick 2; DiceClick 3; DiceClick 4; DiceClick 5;
   ConfirmButton].

(** The first roll of a fresh game shows 1,1,1,5,5,5; the player confirms
    all six dice: the hot-dice banner is on the screen and its 1800 ms have
    not yet passed. *)
Definition hot_dice_shown : t :=
  run fresh ([RollButton triplets; RollFinished] ++ select_all_six).

(** The roll button has been pressed on a fresh game and the animation is
    running; the menu's "home" action saves the game ([_autoSave]) and the
    game is later resumed from that record. *)
Definition saved_mid_roll : Saved := snapshot (_rollDice mixed fresh).
Definition resumed_mid_roll : t := new [alice; bob] (Some saved_mid_roll).

(** A one-player Yahtzee game in which every roll shows five threes: the
    first five-of-a-kind is scored as Yahtzee, then the dice are rolled
    again. *)
Definition threes : nat → Z := λ _, 3.
Definition yahtzee_scored : Yahtzee.t :=
  Yahtzee._selectCategory "yahtzee"
    (Yahtzee.finishRoll (Yahtzee._rollDice threes (Yahtzee.new [("Alice", "#e74c3c")]))).
Definition second_yahtzee_rolled : Yahtzee.t :=
  Yahtzee.finishRoll (Yahtzee._rollDice threes yahtzee_scored).

End Samples.

Import FarkleScoring Rules.

(** Closed goals over sample inputs are settled by evaluation. *)
Ltac crunch := vm_compute; first [reflexivity | intros ?; discriminate | done].

(** * Properties of the scoring engine *)

Section frequency.
Implicit Types (dice : list Z) (v : Z).

Lemma occ_nonneg v dice : 0 ≤ occ v dice.
Proof. unfold occ. lia. Qed.

Lemma occ_cons v x dice :
  occ v (x :: dice) = occ v dice + (if decide (x = v) then 1 else 0).
Proof.
  unfold occ. rewrite filter_cons. case_decide; simpl; lia.
Qed.

Lemma occ_pos v dice : 0 < occ v dice ↔ v ∈ dice.
Proof.
  induction dice as [|x dice IH].
  - unfold occ; simpl. rewrite elem_of_nil. lia.
  - rewrite occ_cons, elem_of_cons. pose proof (occ_nonneg v dice) as Hnn.
    case_decide as Hx.
    + subst. split; [by left | lia].
    + rewrite Z.add_0_r, IH. split; [by right|]. intros [->|?]; done.
Qed.

Lemma occ_zero v dice : v ∉ dice → occ v dice = 0.
Proof.
  intros Hn. pose proof (occ_nonneg v dice) as Hnn.
  destruct (decide (occ v dice = 0)) as [|Hne]; [done|].
  exfalso. apply Hn, occ_pos. lia.
Qed.

(** The loop of [countFrequency], from any starting object. *)
Lemma countFrequency_from dice (acc : gmap Z Z) v :
  or0 (foldl (λ freq x, <[x := or0 (freq !! x) + 1]> freq) acc dice !! v)
  = or0 (acc !! v) + occ v dice
  ∧ (is_Some (foldl (λ freq x, <[x := or0 (freq !! x) + 1]> freq) acc dice !! v)
     ↔ is_Some (acc !! v) ∨ v ∈ dice).
Proof.
  revert acc. induction dice as [|x dice IH]; intros acc; simpl.
  - unfold occ; simpl. split; [lia|]. rewrite elem_of_nil. tauto.
  - destruct (IH (<[x := or0 (acc !! x) + 1]> acc)) as [IH1 IH2].
    rewrite IH1, IH2, occ_cons, elem_of_cons, lookup_insert.
    case_decide; subst; simpl.
    + split; [lia|]. split; [intros _; right; by left | intros _; left; eauto].
    + split; [lia|]. split; [intros [?|?]; eauto|].
      intros [?|[?|?]]; eauto; congruence.
Qed.

Lemma countFrequency_lookup dice v :
  countFrequency dice !! v = if decide (v ∈ dice) then Some (occ v dice) else None.
Proof.
  destruct (countFrequency_from dice ∅ v) as [H1 H2].
  fold (countFrequency dice) in H1, H2.
  rewrite lookup_empty in H1, H2. simpl in H1.
  case_decide as Hin.
  - destruct H2 as [_ H2]. destruct H2 as [c Hc]; [by right|].
    rewrite Hc in *. simpl in H1. f_equal. lia.
  - destruct (countFrequency dice !! v) eqn:E; [|done].
    exfalso. destruct H2 as [H2 _]. destruct H2 as [H2|H2]; eauto.
    by destruct H2.
Qed.

Lemma countFrequency_or0 dice v : or0 (countFrequency dice !! v) = occ v dice.
Proof.
  rewrite countFrequency_lookup. case_decide; [done|]. simpl. by rewrite occ_zero.
Qed.

Lemma Object_keys_countFrequency dice :
  Object_keys (countFrequency dice) ≡ₚ remove_dups dice.
Proof.
  unfold Object_keys. rewrite merge_sort_Permutation.
  apply NoDup_Permutation.
  - apply NoDup_fst_map_to_list.
  - apply NoDup_remove_dups.
  - intros v. rewrite elem_of_remove_dups, list_elem_of_fmap. split.
    + intros [[k c] [-> Hkc]]. apply elem_of_map_to_list in Hkc. simpl.
      rewrite countFrequency_lookup in Hkc. by case_decide.
    + intros Hin. exists (v, occ v dice). split; [done|].
      apply elem_of_map_to_list. rewrite countFrequency_lookup. by case_decide.
Qed.

Lemma omap_total {A B} (f : A → option B) (g : A → B) (l : list A) :
  (∀ x, x ∈ l → f x = Some (g x)) → omap f l = g <$> l.
Proof.
  induction l as [|a l IH]; intros H; simpl; [done|].
  rewrite (H a) by left. f_equal. apply IH. intros x Hx. apply H. by right.
Qed.

Lemma Object_values_countFrequency dice :
  Object_values (countFrequency dice) ≡ₚ (λ v, occ v dice) <$> remove_dups dice.
Proof.
  unfold Object_values. rewrite Object_keys_countFrequency.
  rewrite (omap_total _ (λ v, occ v dice)); [done|].
  intros v Hv. rewrite elem_of_remove_dups in Hv.
  rewrite countFrequency_lookup. by case_decide.
Qed.

(** [Object.values(freq).filter(c => c === k).length] counts the distinct
    faces that occur exactly [k] times. *)
Lemma count_values_countFrequency k dice :
  count_values k (countFrequency dice)
  = length (filter (λ v, occ v dice = k) (remove_dups dice)).
Proof.
  unfold count_values. rewrite Object_values_countFrequency.
  induction (remove_dups dice) as [|a l IH]; [done|].
  rewrite fmap_cons, !filter_cons. repeat case_decide; simpl; congruence.
Qed.

Lemma is_straight_countFrequency dice :
  is_straight (countFrequency dice) = true ↔ Forall (λ v, occ v dice = 1) faces.
Proof.
  unfold is_straight. rewrite forallb_forall, Forall_forall.
  split; intros H v Hv.
  - apply list_elem_of_In in Hv. specialize (H v Hv).
    apply bool_decide_eq_true in H. rewrite countFrequency_lookup in H.
    case_decide; congruence.
  - apply bool_decide_eq_true. apply list_elem_of_In in Hv.
    rewrite countFrequency_lookup. specialize (H v Hv). simpl in H.
    case_decide as Hin; [by rewrite H|].
    rewrite occ_zero in H by done. lia.
Qed.

Lemma existsb_values_countFrequency (P : Z → Prop) `{∀ c, Decision (P c)} dice :
  ¬ P 0 →
  existsb (λ c, bool_decide (P c)) (Object_values (countFrequency dice)) = true
  ↔ ∃ v, P (occ v dice).
Proof.
  intros HP0. rewrite existsb_exists. split.
  - intros (c & Hc & HP). apply bool_decide_eq_true in HP.
    apply list_elem_of_In in Hc. rewrite Object_values_countFrequency in Hc.
    apply list_elem_of_fmap in Hc as (v & -> & _). eauto.
  - intros (v & HP). exists (occ v dice). split; [|by apply bool_decide_eq_true].
    apply list_elem_of_In. rewrite Object_values_countFrequency.
    apply list_elem_of_fmap. exists v. split; [done|].
    apply elem_of_remove_dups, occ_pos.
    destruct (decide (occ v dice = 0)) as [E|]; [by rewrite E in HP|].
    pose proof (occ_nonneg v dice). lia.
Qed.

End frequency.

(** ** The two loops of [scoreSelection] *)

Section loops.
Implicit Types (vs : list Z) (rem : gmap Z Z) (s v c : Z).

Lemma TRIPLE_BASE_face v : is_face v → or0 (TRIPLE_BASE !! v) = base v.
Proof.
  intros [H1 H6].
  assert (v = 1 ∨ v = 2 ∨ v = 3 ∨ v = 4 ∨ v = 5 ∨ v = 6) as Hv by lia.
  destruct Hv as [->|[->|[->|[->|[->| ->]]]]]; reflexivity.
Qed.

Lemma kind_score_of_nonneg v c : is_face v → 0 ≤ kind_score_of v c.
Proof.
  intros [H1 H6]. unfold kind_score_of, base.
  case_decide; [|lia].
  assert (0 < 2 ^ (c - 3)) by (apply Z.pow_pos_nonneg; lia).
  case_decide; subst; nia.
Qed.

(** One iteration of the first loop. *)
Lemma extract_multiple_step s rem v :
  is_face v → or0 (rem !! v) ≤ 6 →
  ∃ rem', extract_multiple (s, rem) v = (s + kind_score_of v (or0 (rem !! v)), rem')
    ∧ or0 (rem' !! v) = leftover_of (or0 (rem !! v))
    ∧ ∀ w, w ≠ v → rem' !! w = rem !! w.
Proof.
  intros Hv Hc. unfold extract_multiple, kind_score_of, leftover_of.
  rewrite (TRIPLE_BASE_face v Hv).
  set (c := or0 (rem !! v)) in *.
  repeat case_decide; try lia.
  - assert (c = 6) as -> by lia. eexists; split; [reflexivity|].
    split; [by rewrite lookup_insert_eq|]. intros w Hw. by rewrite lookup_insert_ne.
  - assert (c = 5) as -> by lia. eexists; split; [reflexivity|].
    split; [by rewrite lookup_insert_eq|]. intros w Hw. by rewrite lookup_insert_ne.
  - assert (c = 4) as -> by lia. eexists; split; [reflexivity|].
    split; [by rewrite lookup_insert_eq|]. intros w Hw. by rewrite lookup_insert_ne.
  - assert (c = 3) as -> by lia. eexists; split; [f_equal; simpl; lia|].
    split; [by rewrite lookup_insert_eq|]. intros w Hw. by rewrite lookup_insert_ne.
  - eexists; split; [f_equal; lia|]. split; [done|]. done.
Qed.

(** The first loop over distinct faces: the score grows by the
    n-of-a-kind contributions and each visited face keeps its leftover. *)
Lemma extract_multiple_loop vs : NoDup vs → ∀ s rem,
  (∀ v, v ∈ vs → is_face v ∧ or0 (rem !! v) ≤ 6) →
  ∃ rem', foldl extract_multiple (s, rem) vs
          = (s + total_of ((λ v, kind_score_of v (or0 (rem !! v))) <$> vs), rem')
    ∧ (∀ v, v ∈ vs → or0 (rem' !! v) = leftover_of (or0 (rem !! v)))
    ∧ (∀ v, v ∉ vs → rem' !! v = rem !! v).
Proof.
  induction 1 as [|x vs Hx Hnd IH]; intros s rem Hall; cbn [foldl].
  - exists rem. split; [simpl; f_equal; lia|].
    split; [intros v Hv; by inversion Hv|done].
  - destruct (Hall x) as [Hfx Hcx]; [by left|].
    destruct (extract_multiple_step s rem x Hfx Hcx) as (rem1 & -> & Hx1 & Hother).
    assert (∀ v, v ∈ vs → rem1 !! v = rem !! v) as Hsame.
    { intros v Hv. apply Hother. intros ->. done. }
    destruct (IH (s + kind_score_of x (or0 (rem !! x))) rem1) as (rem' & -> & Hin & Hout).
    { intros v Hv. rewrite Hsame by done. apply Hall. by right. }
    exists rem'. split; [|split].
    + f_equal. rewrite fmap_cons. unfold total_of at 2. cbn [foldr].
      fold (total_of ((λ v, kind_score_of v (or0 (rem !! v))) <$> vs)).
      rewrite <- Z.add_assoc. f_equal. f_equal. f_equal.
      apply Forall_fmap_ext, Forall_forall. intros v Hv. by rewrite Hsame.
    + intros v [->|Hv]%elem_of_cons.
      * rewrite Hout by done. done.
      * rewrite Hin by done. by rewrite Hsame.
    + intros v Hv%not_elem_of_cons. destruct Hv as [Hne Hv].
      rewrite Hout by done. by apply Hother.
Qed.

(** Points of the leftover dice of a face: 100 per one, 50 per five. *)
Lemma SINGLE_SCORES_face v :
  SINGLE_SCORES !! v
  = if decide (v = 1) then Some 100 else if decide (v = 5) then Some 50 else None.
Proof.
  repeat case_decide; subst; try reflexivity.
  unfold SINGLE_SCORES. simpl.
  rewrite !lookup_insert_ne by done. apply lookup_empty.
Qed.

Lemma score_single_None vs : foldl score_single None vs = None.
Proof. induction vs; simpl; auto. Qed.

(** One iteration of the second loop. *)
Lemma score_single_step s rem v :
  0 ≤ or0 (rem !! v) →
  (v ≠ 1 ∧ v ≠ 5 ∧ 0 < or0 (rem !! v) → score_single (Some (s, rem)) v = None)
  ∧ (¬ (v ≠ 1 ∧ v ≠ 5 ∧ 0 < or0 (rem !! v)) →
     ∃ rem', score_single (Some (s, rem)) v
             = Some (s + single_points v * or0 (rem !! v), rem')
       ∧ ∀ w, w ≠ v → rem' !! w = rem !! w).
Proof.
  intros Hc. unfold score_single, single_points. cbn [mbind option_bind].
  rewrite SINGLE_SCORES_face.
  split.
  - intros (H1 & H5 & Hpos). rewrite decide_True by done.
    by rewrite !decide_False by done.
  - intros Hok. destruct (decide (0 < or0 (rem !! v))) as [Hpos|Hzero].
    + destruct (decide (v = 1)) as [->|H1]; [|destruct (decide (v = 5)) as [->|H5]].
      * eexists; split; [reflexivity|]. intros w Hw. by rewrite lookup_insert_ne.
      * eexists; split; [reflexivity|]. intros w Hw. by rewrite lookup_insert_ne.
      * exfalso. apply Hok. done.
    + exists rem. split; [|done].
      assert (or0 (rem !! v) = 0) as -> by lia. do 2 f_equal. lia.
Qed.

(** The second loop over distinct faces: [null] when some visited face
    other than 1 and 5 is left over, the leftover points otherwise. *)
Lemma score_single_loop vs : NoDup vs → ∀ s rem,
  (∀ v, v ∈ vs → 0 ≤ or0 (rem !! v)) →
  fst <$> foldl score_single (Some (s, rem)) vs
  = if decide (Exists (λ v, v ≠ 1 ∧ v ≠ 5 ∧ 0 < or0 (rem !! v)) vs) then None
    else Some (s + total_of ((λ v, single_points v * or0 (rem !! v)) <$> vs)).
Proof.
  induction 1 as [|x vs Hx Hnd IH]; intros s rem Hall; cbn [foldl].
  - rewrite decide_False by (by inversion 1). simpl. f_equal. lia.
  - destruct (score_single_step s rem x) as [Hbad Hgood]; [apply Hall; by left|].
    destruct (decide (x ≠ 1 ∧ x ≠ 5 ∧ 0 < or0 (rem !! x))) as [Hb|Hg].
    + rewrite Hbad, score_single_None by done. simpl.
      rewrite decide_True; [done|]. apply Exists_cons. by left.
    + destruct (Hgood Hg) as (rem' & -> & Hsame).
      assert (∀ v, v ∈ vs → rem' !! v = rem !! v) as Hvs.
      { intros v Hv. apply Hsame. intros ->. done. }
      rewrite IH by (intros v Hv; rewrite Hvs by done; apply Hall; by right).
      assert (Exists (λ v, v ≠ 1 ∧ v ≠ 5 ∧ 0 < or0 (rem' !! v)) vs
              ↔ Exists (λ v, v ≠ 1 ∧ v ≠ 5 ∧ 0 < or0 (rem !! v)) (x :: vs)) as Hex.
      { rewrite Exists_cons, !Exists_exists. split.
        - intros (v & Hv & Hp). right. exists v. rewrite <- Hvs by done. done.
        - intros [?|(v & Hv & Hp)]; [done|]. exists v. rewrite Hvs by done. done. }
      assert ((λ v, single_points v * or0 (rem' !! v)) <$> vs
              = (λ v, single_points v * or0 (rem !! v)) <$> vs) as ->.
      { apply Forall_fmap_ext, Forall_forall. intros v Hv. by rewrite Hvs. }
      destruct (decide (Exists _ vs)) as [He|He].
      * rewrite decide_True by (by apply Hex). done.
      * rewrite decide_False by (by rewrite <- Hex).
        f_equal. rewrite fmap_cons. unfold total_of. cbn [foldr]. lia.
Qed.

End loops.

(** ** [scoreSelection] against the priority algorithm *)

Section scoreSelection_refinement.
Implicit Types (dice : list Z).

Lemma NoDup_faces : NoDup faces.
Proof. apply (NoDup_seqZ 1 6). Qed.

Lemma faces_is_face v : v ∈ faces ↔ is_face v.
Proof.
  unfold faces, is_face. rewrite !elem_of_cons, elem_of_nil. lia.
Qed.

Lemma straight_check dice :
  bool_decide (length dice = 6%nat) && is_straight (countFrequency dice)
  = bool_decide (full_straight dice).
Proof.
  apply Bool.eq_iff_eq_true.
  rewrite andb_true_iff, !bool_decide_eq_true, is_straight_countFrequency. done.
Qed.

Lemma three_pairs_check dice :
  bool_decide (length dice = 6%nat)
  && bool_decide (count_values 2 (countFrequency dice) = 3%nat)
  = bool_decide (three_pairs dice).
Proof.
  apply Bool.eq_iff_eq_true.
  rewrite andb_true_iff, !bool_decide_eq_true, count_values_countFrequency. done.
Qed.

Lemma two_triplets_check dice :
  bool_decide (length dice = 6%nat)
  && bool_decide (count_values 3 (countFrequency dice) = 2%nat)
  = bool_decide (two_triplets dice).
Proof.
  apply Bool.eq_iff_eq_true.
  rewrite andb_true_iff, !bool_decide_eq_true, count_values_countFrequency. done.
Qed.

Lemma bind_fst {A B C} (x : option (A * B)) (F : A → option C) :
  ('(a, _) ← x; F a) = (fst <$> x) ≫= F.
Proof. by destruct x as [[a b]|]. Qed.

Lemma leftover_of_nonneg c : 0 ≤ c → 0 ≤ leftover_of c.
Proof. unfold leftover_of. case_decide; lia. Qed.

Lemma single_total (f : Z → Z) :
  total_of ((λ v, single_points v * f v) <$> faces) = 100 * f 1 + 50 * f 5.
Proof. unfold faces, total_of, single_points. simpl. lia. Qed.

Lemma kind_total_nonneg dice :
  0 ≤ total_of ((λ v, kind_score v dice) <$> faces).
Proof.
  assert (∀ vs, Forall is_face vs → 0 ≤ total_of ((λ v, kind_score v dice) <$> vs)) as H.
  { induction 1 as [|v vs Hv _ IH]; [done|].
    rewrite fmap_cons. unfold total_of in *. cbn [foldr].
    pose proof (kind_score_of_nonneg v (occ v dice) Hv). unfold kind_score at 1. lia. }
  apply H, Forall_forall. intros v. apply faces_is_face.
Qed.

(** On every selection in which no face occurs more than six times the
    code computes the priority algorithm. *)
Lemma scoreSelection_refines dice :
  Forall (λ v, occ v dice ≤ 6) faces →
  scoreSelection dice = scoreSelection_spec dice.
Proof.
  intros Hsix. rewrite Forall_forall in Hsix.
  unfold scoreSelection, scoreSelection_spec.
  destruct (decide (length dice = 0%nat)) as [Hlen|Hlen].
  { apply nil_length_inv in Hlen. by rewrite decide_True. }
  rewrite decide_False by (intros ->; done).
  rewrite straight_check, three_pairs_check, two_triplets_check.
  case_bool_decide; [by rewrite decide_True|rewrite decide_False by done].
  case_bool_decide; [by rewrite decide_True|rewrite decide_False by done].
  case_bool_decide; [by rewrite decide_True|rewrite decide_False by done].
  destruct (extract_multiple_loop faces NoDup_faces 0 (countFrequency dice))
    as (rem' & -> & Hin & _).
  { intros v Hv. rewrite countFrequency_or0. split; [by apply faces_is_face|auto]. }
  set (k := total_of _).
  assert (k = total_of ((λ v, kind_score v dice) <$> faces)) as Hk.
  { unfold k. f_equal. apply Forall_fmap_ext, Forall_forall. intros v _.
    by rewrite countFrequency_or0. }
  assert (∀ v, v ∈ faces → or0 (rem' !! v) = leftover v dice) as Hleft.
  { intros v Hv. rewrite Hin by done. by rewrite countFrequency_or0. }
  rewrite bind_fst, (score_single_loop faces NoDup_faces).
  2:{ intros v Hv. rewrite Hleft by done. apply leftover_of_nonneg, occ_nonneg. }
  assert (Exists (λ v, v ≠ 1 ∧ v ≠ 5 ∧ 0 < or0 (rem' !! v)) faces
          ↔ bad_leftover dice) as Hbad.
  { unfold bad_leftover. rewrite !Exists_exists. split.
    - intros (v & Hv & Hp). exists v. by rewrite <- Hleft.
    - intros (v & Hv & Hp). exists v. by rewrite Hleft. }
  destruct (decide (bad_leftover dice)) as [Hb|Hb].
  { rewrite decide_True by (by apply Hbad). done. }
  rewrite decide_False by (by rewrite Hbad).
  assert ((λ v, single_points v * or0 (rem' !! v)) <$> faces
          = (λ v, single_points v * leftover v dice) <$> faces) as ->.
  { apply Forall_fmap_ext, Forall_forall. intros v Hv. by rewrite Hleft. }
  rewrite (single_total (λ v, leftover v dice)), Hk. cbn [mbind option_bind].
  pose proof (kind_total_nonneg dice) as Hk0.
  pose proof (leftover_of_nonneg _ (occ_nonneg 1 dice)) as H1'.
  pose proof (leftover_of_nonneg _ (occ_nonneg 5 dice)) as H5'.
  fold (leftover 1 dice) in H1'. fold (leftover 5 dice) in H5'.
  repeat case_decide; try lia; try done. f_equal. lia.
Qed.

End scoreSelection_refinement.

(** C1 (amended to selections in which no face occurs more than six times,
    which covers every selection from the six dice of the game).  For every
    list of die faces in which no face occurs more than six times,
    [scoreSelection] follows the priority algorithm: with exactly 6 dice a
    full straight scores 1000, three pairs 1500 and two triplets 2500, each
    short-circuiting; otherwise each face [v] occurring [count >= 3] times
    contributes [base v * 2^(count-3)] with [base 1 = 1000] and
    [base v = v * 100], leftover dice score 100 per one and 50 per five, and
    any other leftover face, an empty input or a zero total yields [null].
    The seven sample values of the claim hold as well. *)
Theorem C1_scoreSelection_priority :
  (∀ dice : list Z,
     Forall is_face dice →
     Forall (λ v, occ v dice ≤ 6) faces →
     scoreSelection dice = scoreSelection_spec dice)
  ∧ scoreSelection [1; 1; 1] = Some 1000
  ∧ scoreSelection [2; 2; 2] = Some 200
  ∧ scoreSelection [1; 2; 3; 4; 5; 6] = Some 1000
  ∧ scoreSelection [2; 2; 3; 3; 5; 5] = Some 1500
  ∧ scoreSelection [4; 4; 4; 2; 2; 2] = Some 2500
  ∧ scoreSelection [1; 1; 1; 1] = Some 2000
  ∧ scoreSelection [2; 3; 4] = None.
Proof.
  split; [intros dice _ Hsix; by apply scoreSelection_refines|].
  repeat split; vm_compute; reflexivity.
Qed.

(** The general part of C1 applied to the selection 2,2,2,2,5,1. *)
Lemma C1_scoreSelection_priority_witness :
  scoreSelection [2; 2; 2; 2; 5; 1] = scoreSelection_spec [2; 2; 2; 2; 5; 1]
  ∧ scoreSelection_spec [2; 2; 2; 2; 5; 1] = Some 550.
Proof.
  split; [|vm_compute; reflexivity].
  apply (proj1 C1_scoreSelection_priority [2; 2; 2; 2; 5; 1]).
  - repeat constructor; unfold is_face; lia.
  - repeat constructor; vm_compute; intros H; discriminate H.
Defined.

(** C1 as stated fails on seven ones: the code takes a six-of-a-kind (8000)
    and scores the seventh die as a single one (100), where the formula
    [base * 2^(count-3)] gives 16000. *)
Lemma C1_counterexample_seven_ones :
  Forall is_face [1; 1; 1; 1; 1; 1; 1]
  ∧ scoreSelection [1; 1; 1; 1; 1; 1; 1] = Some 8100
  ∧ scoreSelection_spec [1; 1; 1; 1; 1; 1; 1] = Some 16000
  ∧ scoreSelection [1; 1; 1; 1; 1; 1; 1] ≠ scoreSelection_spec [1; 1; 1; 1; 1; 1; 1].
Proof.
  split; [repeat constructor; unfold is_face; lia|].
  split; [vm_compute; reflexivity|].
  split; [vm_compute; reflexivity|].
  vm_compute. intros H; discriminate H.
Qed.

(** ** [isFarkle] *)

Section isFarkle_characterisation.
Implicit Types (dice : list Z).

Lemma isFarkle_spec dice :
  dice ≠ [] → isFarkle dice = true ↔ ¬ scoring_opportunity dice.
Proof.
  intros Hne. unfold isFarkle, scoring_opportunity.
  rewrite decide_False by (intros Hl; by apply nil_length_inv in Hl).
  rewrite straight_check, three_pairs_check.
  destruct (bool_decide (1 ∈ dice)) eqn:E1; simpl.
  { apply bool_decide_eq_true in E1. split; [done|]. intros H; exfalso; auto. }
  destruct (bool_decide (5 ∈ dice)) eqn:E5; simpl.
  { apply bool_decide_eq_true in E5. split; [done|]. intros H; exfalso; auto. }
  apply bool_decide_eq_false in E1, E5.
  destruct (existsb _ _) eqn:E3.
  { apply (existsb_values_countFrequency (λ c, 3 ≤ c)) in E3; [|lia].
    split; [done|]. intros H; exfalso; auto. }
  assert (¬ ∃ v, 3 ≤ occ v dice) as H3.
  { intros Hex. apply (existsb_values_countFrequency (λ c, 3 ≤ c)) in Hex; [|lia].
    congruence. }
  case_bool_decide as Hs; [split; [done|]; tauto|].
  case_bool_decide as Hp; [split; [done|]; tauto|].
  split; [|done]. tauto.
Qed.

End isFarkle_characterisation.

(** ** [detectStraightAttempt] *)

Section straight_attempt.
Implicit Types (dice ks : list Z) (v m : Z).

Lemma total_of_indicator v ks :
  NoDup ks →
  total_of ((λ k, if decide (v = k) then 1 else 0) <$> ks)
  = if decide (v ∈ ks) then 1 else 0.
Proof.
  induction 1 as [|k ks Hk Hnd IH]; [done|].
  rewrite fmap_cons. unfold total_of in *. cbn [foldr]. rewrite IH.
  destruct (decide (v = k)) as [->|Hne].
  - rewrite decide_False by done. rewrite decide_True by left. lia.
  - destruct (decide (v ∈ ks)) as [Hin|Hin].
    + rewrite decide_True by (by right). lia.
    + rewrite decide_False; [lia|]. intros [?|?]%elem_of_cons; done.
Qed.

Lemma total_of_add (f g : Z → Z) ks :
  total_of ((λ k, f k + g k) <$> ks) = total_of (f <$> ks) + total_of (g <$> ks).
Proof.
  induction ks as [|k ks IH]; [done|].
  rewrite !fmap_cons. unfold total_of in *. cbn [foldr]. lia.
Qed.

(** The occurrences of the distinct values add up to the number of dice. *)
Lemma total_occ ks dice :
  NoDup ks → (∀ x, x ∈ dice → x ∈ ks) →
  total_of ((λ k, occ k dice) <$> ks) = Z.of_nat (length dice).
Proof.
  intros Hnd. induction dice as [|x dice IH]; intros Hsub.
  - unfold occ. simpl. induction ks as [|k ks IHk]; [done|].
    rewrite fmap_cons. unfold total_of in *. cbn [foldr].
    rewrite IHk; [lia| by inversion Hnd | intros ? Hx; by inversion Hx].
  - assert ((λ k, occ k (x :: dice)) <$> ks
            = (λ k, occ k dice + (if decide (x = k) then 1 else 0)) <$> ks) as ->.
    { apply Forall_fmap_ext, Forall_forall. intros k _. apply occ_cons. }
    rewrite total_of_add, total_of_indicator by done.
    rewrite IH by (intros y Hy; apply Hsub; by right).
    rewrite decide_True by (apply Hsub; by left).
    cbn [length]. lia.
Qed.

Lemma missing_check dice v :
  negb (truthy (countFrequency dice !! v)) = true ↔ v ∉ dice.
Proof.
  rewrite countFrequency_lookup. case_decide as Hin; simpl.
  - apply occ_pos in Hin. rewrite bool_decide_eq_false_2 by lia. simpl.
    split; [done|]. intros Hn. exfalso. apply Hn. apply occ_pos. done.
  - done.
Qed.

(** Five distinct values cannot cover the six faces. *)
Lemma some_face_missing dice :
  length (remove_dups dice) = 5%nat → ∃ m, m ∈ faces ∧ m ∉ dice.
Proof.
  intros Hfive.
  destruct (find (λ v, bool_decide (v ∉ dice)) faces) as [m|] eqn:E.
  - apply find_some in E as [Hin Hm]. exists m.
    split; [by apply list_elem_of_In|]. by apply bool_decide_eq_true in Hm.
  - exfalso.
    assert (faces ⊆+ remove_dups dice) as Hsub.
    { apply NoDup_submseteq; [apply NoDup_faces|]. intros v Hv.
      rewrite elem_of_remove_dups.
      apply list_elem_of_In in Hv. pose proof (find_none _ _ E v Hv) as Hf.
      apply bool_decide_eq_false in Hf. by apply dec_stable. }
    apply submseteq_length in Hsub. rewrite Hfive in Hsub. simpl in Hsub. lia.
Qed.

(** Five distinct faces among the dice leave exactly one face out. *)
Lemma missing_face_unique dice m m' :
  length (remove_dups dice) = 5%nat → Forall is_face dice →
  missing_face dice m → missing_face dice m' → m' = m.
Proof.
  intros Hfive Hrange [Hm Hnm] [Hm' Hnm'].
  destruct (decide (m' = m)) as [|Hne]; [done|exfalso].
  assert (m :: m' :: remove_dups dice ⊆+ faces) as Hsub.
  { apply NoDup_submseteq.
    - apply NoDup_cons. split.
      + rewrite elem_of_cons, elem_of_remove_dups. intros [?|?]; [congruence|done].
      + apply NoDup_cons. split; [by rewrite elem_of_remove_dups|].
        apply NoDup_remove_dups.
    - intros v. rewrite !elem_of_cons, elem_of_remove_dups.
      intros [->|[->|Hv]]; apply faces_is_face; [done|done|].
      rewrite Forall_forall in Hrange. by apply Hrange. }
  apply submseteq_length in Hsub. cbn [length] in Hsub. rewrite Hfive in Hsub.
  simpl in Hsub. lia.
Qed.

(** Six dice with five distinct values: one value shows twice and the
    others once. *)
Lemma six_dice_five_values dice d :
  length dice = 6%nat → length (remove_dups dice) = 5%nat →
  occ d dice = 2 → ∀ v, v ≠ d → occ v dice ≤ 1.
Proof.
  intros Hsix Hfive Hd v Hv.
  destruct (decide (v ∈ dice)) as [Hin|Hin]; [|rewrite occ_zero by done; lia].
  assert (d ∈ dice) as Hdin by (apply occ_pos; lia).
  pose proof (total_occ (remove_dups dice) dice (NoDup_remove_dups dice)) as Hsum.
  rewrite Hsix in Hsum.
  specialize (Hsum ltac:(intros x Hx; by rewrite elem_of_remove_dups)).
  assert (∀ x, x ∈ remove_dups dice → 1 ≤ occ x dice) as Hpos.
  { intros x Hx. rewrite elem_of_remove_dups in Hx. apply occ_pos in Hx. lia. }
  rewrite <- elem_of_remove_dups in Hin, Hdin.
  destruct (remove_dups dice) as [|a [|b [|c [|e [|f [|]]]]]]; try discriminate Hfive.
  unfold total_of in Hsum. simpl in Hsum.
  assert (1 ≤ occ a dice) by (apply Hpos; rewrite !elem_of_cons; auto 10).
  assert (1 ≤ occ b dice) by (apply Hpos; rewrite !elem_of_cons; auto 10).
  assert (1 ≤ occ c dice) by (apply Hpos; rewrite !elem_of_cons; auto 10).
  assert (1 ≤ occ e dice) by (apply Hpos; rewrite !elem_of_cons; auto 10).
  assert (1 ≤ occ f dice) by (apply Hpos; rewrite !elem_of_cons; auto 10).
  rewrite !elem_of_cons, elem_of_nil in Hin, Hdin.
  destruct Hin as [->|[->|[->|[->|[->|[]]]]]];
    destruct Hdin as [->|[->|[->|[->|[->|[]]]]]]; try done; lia.
Qed.

Lemma keys_length dice :
  length (Object_keys (countFrequency dice)) = length (remove_dups dice).
Proof. by rewrite Object_keys_countFrequency. Qed.

Lemma keys_in_range dice :
  forallb (λ v, bool_decide (1 ≤ v ∧ v ≤ 6)) (Object_keys (countFrequency dice)) = true
  ↔ Forall is_face dice.
Proof.
  rewrite forallb_forall, Forall_forall. split.
  - intros H v Hv. apply (bool_decide_eq_true (1 ≤ v ∧ v ≤ 6)), H, list_elem_of_In.
    rewrite Object_keys_countFrequency. by rewrite elem_of_remove_dups.
  - intros H v Hv. apply bool_decide_eq_true, H.
    apply list_elem_of_In in Hv. rewrite Object_keys_countFrequency in Hv.
    by rewrite elem_of_remove_dups in Hv.
Qed.

Lemma detect_yes dice :
  length dice = 6%nat → five_of_six dice →
  ∃ m, missing_face dice m
       ∧ (∀ m', missing_face dice m' → m' = m)
       ∧ detectStraightAttempt dice = {| possible := true; missingValue := Some m |}.
Proof.
  intros Hsix (Hfive & Hrange & d & Hd & Hothers).
  unfold detectStraightAttempt.
  rewrite decide_False by (intros H; by apply H).
  rewrite decide_False by (rewrite keys_length; intros H; by apply H).
  rewrite (proj2 (keys_in_range dice) Hrange). cbn [negb].
  assert (existsb (λ c, bool_decide (c = 2)) (Object_values (countFrequency dice))
          = true) as ->.
  { apply (existsb_values_countFrequency (λ c, c = 2)); [lia|eauto]. }
  destruct (find _ faces) as [m|] eqn:E.
  - apply find_some in E as [Hin Hm]. apply missing_check in Hm.
    apply list_elem_of_In, faces_is_face in Hin.
    exists m. split; [done|]. split; [|done].
    intros m' Hm'. by apply (missing_face_unique dice).
  - exfalso. destruct (some_face_missing dice Hfive) as (m & Hin & Hm).
    apply list_elem_of_In in Hin. pose proof (find_none _ _ E m Hin) as Hf.
    apply missing_check in Hm. congruence.
Qed.

Lemma detect_cases dice :
  detectStraightAttempt dice = no_attempt
  ∨ (length dice = 6%nat ∧ five_of_six dice).
Proof.
  unfold detectStraightAttempt.
  destruct (decide (length dice ≠ 6%nat)) as [|Hsix]; [by left|].
  apply dec_stable in Hsix.
  destruct (decide (length (Object_keys (countFrequency dice)) ≠ 5%nat))
    as [|Hfive]; [by left|].
  apply dec_stable in Hfive. rewrite keys_length in Hfive.
  destruct (forallb _ _) eqn:Hrange; [|by left]. apply keys_in_range in Hrange.
  cbn [negb].
  destruct (find _ faces) as [m|]; [|by left].
  destruct (existsb _ _) eqn:Hdup; [|by left].
  right. split; [done|]. split; [done|]. split; [done|].
  apply (existsb_values_countFrequency (λ c, c = 2)) in Hdup as [d Hd]; [|lia].
  exists d. split; [done|]. by apply six_dice_five_values.
Qed.

Lemma detect_no dice :
  ¬ (length dice = 6%nat ∧ five_of_six dice) →
  detectStraightAttempt dice = no_attempt.
Proof. intros Hnot. by destruct (detect_cases dice). Qed.

End straight_attempt.

(** C5.  [detectStraightAttempt] answers [possible = true] with the unique
    missing face exactly when the input has 6 dice showing exactly 5
    distinct face values, all within 1..6, with exactly one face value
    duplicated; in every other case, inputs of another length included, it
    answers [possible = false] with [missingValue = null].  The three sample
    values of the claim hold as well. *)
Theorem C5_detectStraightAttempt_five_of_six :
  (∀ dice : list Z,
     length dice = 6%nat → five_of_six dice →
     ∃ m, missing_face dice m
          ∧ (∀ m', missing_face dice m' → m' = m)
          ∧ detectStraightAttempt dice
            = {| possible := true; missingValue := Some m |})
  ∧ (∀ dice : list Z,
       ¬ (length dice = 6%nat ∧ five_of_six dice) →
       detectStraightAttempt dice = {| possible := false; missingValue := None |})
  ∧ (∀ dice : list Z,
       possible (detectStraightAttempt dice) = true
       ↔ length dice = 6%nat ∧ five_of_six dice)
  ∧ detectStraightAttempt [1; 2; 3; 4; 5; 5]
    = {| possible := true; missingValue := Some 6 |}
  ∧ detectStraightAttempt [1; 1; 2; 3; 4; 5]
    = {| possible := true; missingValue := Some 6 |}
  ∧ possible (detectStraightAttempt [1; 1; 1; 2; 3; 4]) = false.
Proof.
  split; [exact detect_yes|].
  split; [exact detect_no|].
  split; [|repeat split; vm_compute; reflexivity].
  intros dice. split.
  - intros Hp. destruct (detect_cases dice) as [Hn|]; [|done].
    rewrite Hn in Hp. discriminate Hp.
  - intros [Hsix Hfive]. destruct (detect_yes dice Hsix Hfive) as (m & _ & _ & ->).
    done.
Qed.

(** C5 on the roll 1,2,3,4,5,5. *)
Lemma C5_detectStraightAttempt_five_of_six_witness :
  ∃ m, missing_face [1; 2; 3; 4; 5; 5] m
       ∧ (∀ m', missing_face [1; 2; 3; 4; 5; 5] m' → m' = m)
       ∧ detectStraightAttempt [1; 2; 3; 4; 5; 5]
         = {| possible := true; missingValue := Some m |}.
Proof.
  apply (proj1 C5_detectStraightAttempt_five_of_six [1; 2; 3; 4; 5; 5]).
  - reflexivity.
  - split; [crunch|]. split; [repeat constructor; unfold is_face; lia|].
    exists 5. split; [crunch|]. intros v Hv. rewrite !occ_cons.
    change (occ v []) with 0. repeat case_decide; lia.
Defined.

(** * The dice source *)

Section dice_engine.
Import DiceEngine.
Implicit Types (e : DiceEngine.t) (s : DiceEngine.State).

Lemma restoreState_getState s e :
  getState (restoreState (Some s) e) = s.
Proof. by destruct s. Qed.

Lemma restoreState_isRolling s e :
  isRolling (restoreState (Some s) e) = false.
Proof. reflexivity. Qed.

Lemma roll_refused rnd e :
  rollsLeft e ≤ 0 ∨ isRolling e = true → roll rnd e = (e, false).
Proof.
  intros [Hr|Hi]; unfold roll.
  - by rewrite bool_decide_eq_true_2.
  - rewrite Hi. by rewrite orb_true_r.
Qed.

Lemma toggleHold_out_of_range index e :
  index < 0 ∨ Z.of_nat (count e) ≤ index → toggleHold index e = (e, false).
Proof.
  intros H. unfold toggleHold. destruct (_ || _ || _); [done|].
  destruct H as [H|H].
  - by rewrite (bool_decide_eq_true_2 _ H).
  - rewrite (bool_decide_eq_true_2 _ H). by rewrite orb_true_r.
Qed.

Lemma toggleHold_refused index e :
  hasRolled e = false ∨ isRolling e = true ∨ rollsLeft e = 0 →
  toggleHold index e = (e, false).
Proof.
  intros [Hh|[Hi|Hr]]; unfold toggleHold.
  - by rewrite Hh.
  - rewrite Hi. by rewrite orb_true_r.
  - rewrite (bool_decide_eq_true_2 _ Hr). by rewrite orb_true_r.
Qed.

End dice_engine.

(** After [DiceEngine.restoreState(s)] the flag [isRolling] is false
    whatever the snapshot holds, so [canRoll] and [roll] of the engine
    depend on the restored rolls left only; the engine of a Farkle game
    constructed from a saved state is not rolling either.  This is the
    engine alone: the turn state of the controller is another matter, see
    the theorem after this one. *)
Lemma restoreState_clears_isRolling :
  ∀ (s : DiceEngine.State) (e : DiceEngine.t) (rnd : nat → Z),
    DiceEngine.isRolling (DiceEngine.restoreState (Some s) e) = false
    ∧ DiceEngine.canRoll (DiceEngine.restoreState (Some s) e)
      = bool_decide (0 < DiceEngine.s_rollsLeft s)
    ∧ (DiceEngine.roll rnd (DiceEngine.restoreState (Some s) e)).2
      = bool_decide (0 < DiceEngine.s_rollsLeft s)
    ∧ ∀ ps (st : FarkleGame.Saved),
        DiceEngine.isRolling (FarkleGame.diceEngine (FarkleGame.new ps (Some st)))
        = false.
Proof.
  intros s e rnd. split; [reflexivity|]. split.
  { unfold DiceEngine.canRoll. simpl. by rewrite andb_true_r. }
  split.
  { unfold DiceEngine.roll. simpl. rewrite orb_false_r.
    case_bool_decide as H1; case_bool_decide as H2; simpl; try done; lia. }
  intros ps st. unfold FarkleGame.new, FarkleGame._restoreState. simpl.
  by destruct (FarkleGame.sv_dice st).
Qed.

Section resume.
Import FarkleGame.

(** A Farkle game constructed from a record saved in state [rolling],
    [straightAttempt] or [farkle] comes back in that state with the engine
    at rest, no timer pending and no straight handler registered: nothing
    is left that would end the state, and every button, click and timer is
    ignored.  Only the renderer's [finishRoll] would move the game on, and
    the renderer calls it at the end of an animation started by
    [roll-start] only. *)
Lemma resumed_game_waits_forever (ps : list Player) (st : Saved) :
  sv_turnState st = rolling ∨ sv_turnState st = straightAttempt
  ∨ sv_turnState st = farkle →
  let g := new ps (Some st) in
  turnState g = sv_turnState st
  ∧ DiceEngine.isRolling (diceEngine g) = false
  ∧ timers g = [] ∧ straightHandler g = None
  ∧ (∀ rnd, _rollDice rnd g = g)
  ∧ ∀ ev, ev = RollFinished ∨ handle g ev = g.
Proof.
  intros Hst g.
  assert (DiceEngine.isRolling (diceEngine g) = false
          ∧ straightAttemptData g = None ∧ timers g = []
          ∧ straightHandler g = None) as (Hr & Hsa & Ht & Hh).
  { subst g. unfold new, _restoreState. by destruct (sv_dice st). }
  assert (turnState g = sv_turnState st) as Hts.
  { subst g. unfold new, _restoreState. by destruct (sv_dice st). }
  split; [done|]. split; [done|]. split; [done|]. split; [done|].
  assert (∀ rnd, _rollDice rnd g = g) as Hroll.
  { intros rnd. unfold _rollDice. rewrite Hr, Hts.
    destruct Hst as [ -> |[ -> | -> ]]; reflexivity. }
  split; [exact Hroll|].
  intros [rnd| |index| | |rnd|x]; [right|by left|right ..]; cbn [handle].
  - apply Hroll.
  - unfold _onDiceClick. rewrite Hts.
    destruct Hst as [ -> |[ -> | -> ]]; reflexivity.
  - unfold _confirmSelection. rewrite Hts.
    destruct Hst as [ -> |[ -> | -> ]]; reflexivity.
  - unfold _bank. rewrite Hts.
    destruct Hst as [ -> |[ -> | -> ]]; reflexivity.
  - unfold _attemptStraight. by rewrite Hsa.
  - unfold fire. rewrite Ht. reflexivity.
Qed.

End resume.

(** C10 (the code does not do what the claim says).  The engine half
    holds: after [DiceEngine.restoreState(s)] the flag [isRolling] is false
    whatever the snapshot holds.  The game half fails in Farkle.  The roll
    button is pressed on a fresh game and, while the animation runs, the
    menu's "home" action saves the game: the record holds
    [turnState = rolling].  The game resumed from it has an engine at rest
    and the turn state [rolling], with no timer and no handler pending:
    [_rollDice] returns at its turn-state guard for every draw, and every
    other button, click and timer leaves the game as it is.  The roll is
    pending for ever. *)
Theorem C10_farkle_resumed_mid_roll_is_stuck :
  let g := FarkleGame._rollDice Samples.mixed Samples.fresh in
  let g' := Samples.resumed_mid_roll in
  (∀ (s : DiceEngine.State) (e : DiceEngine.t),
     DiceEngine.isRolling (DiceEngine.restoreState (Some s) e) = false)
  ∧ (FarkleGame.turnState g = FarkleGame.rolling
     ∧ DiceEngine.isRolling (FarkleGame.diceEngine g) = true
     ∧ FarkleGame.sv_turnState Samples.saved_mid_roll = FarkleGame.rolling)
  ∧ (FarkleGame.turnState g' = FarkleGame.rolling
     ∧ DiceEngine.isRolling (FarkleGame.diceEngine g') = false
     ∧ FarkleGame.timers g' = []
     ∧ FarkleGame.straightHandler g' = None)
  ∧ (∀ rnd, FarkleGame._rollDice rnd g' = g')
  ∧ (∀ ev, ev = FarkleGame.RollFinished ∨ FarkleGame.handle g' ev = g').
Proof.
  intros g g'. subst g'. unfold Samples.resumed_mid_roll.
  assert (FarkleGame.sv_turnState Samples.saved_mid_roll = FarkleGame.rolling) as Hsv
    by (vm_compute; reflexivity).
  pose proof (resumed_game_waits_forever [Samples.alice; Samples.bob]
                Samples.saved_mid_roll (or_introl Hsv)) as H.
  cbv zeta in H. rewrite Hsv in H. destruct H as (Hts & Hr & Ht & Hh & Hroll & Hev).
  split; [intros s e; reflexivity|].
  split; [split; [vm_compute; reflexivity|split; [vm_compute; reflexivity|exact Hsv]]|].
  split; [split; [exact Hts|split; [exact Hr|split; [exact Ht|exact Hh]]]|].
  split; [exact Hroll|exact Hev].
Qed.

(** * The Farkle turn machine *)

Section js_sets.
Implicit Types (s l : list nat) (i j : nat).

Lemma JsSet_has_true i s : JsSet.has i s = true ↔ i ∈ s.
Proof. apply bool_decide_eq_true. Qed.

Lemma JsSet_elem_of_add i j s : j ∈ JsSet.add i s ↔ j = i ∨ j ∈ s.
Proof.
  unfold JsSet.add. destruct (JsSet.has i s) eqn:E.
  - apply JsSet_has_true in E. split; [by right|]. by intros [->|?].
  - rewrite elem_of_app, list_elem_of_singleton. tauto.
Qed.

Lemma JsSet_NoDup_add i s : NoDup s → NoDup (JsSet.add i s).
Proof.
  intros Hnd. unfold JsSet.add. destruct (JsSet.has i s) eqn:E; [done|].
  apply NoDup_app. split; [done|]. split; [|apply NoDup_singleton].
  intros x Hx ->%list_elem_of_singleton.
  apply JsSet_has_true in Hx. congruence.
Qed.

Lemma JsSet_add_fresh i s : i ∉ s → JsSet.add i s = s ++ [i].
Proof.
  intros Hn. unfold JsSet.add, JsSet.has. by rewrite bool_decide_eq_false_2.
Qed.

(** [new Set([...s])] is [s] again. *)
Lemma JsSet_of_list_to_list s : NoDup s → JsSet.of_list (JsSet.to_list s) = s.
Proof.
  unfold JsSet.of_list, JsSet.to_list, JsSet.empty.
  assert (∀ l acc, NoDup (acc ++ l) → foldl (λ s i, JsSet.add i s) acc l = acc ++ l) as H.
  { induction l as [|x l IH]; intros acc Hnd; simpl; [by rewrite app_nil_r|].
    apply NoDup_app in Hnd as (Hacc & Hdisj & Hl).
    rewrite JsSet_add_fresh by (intros Hx; apply (Hdisj x Hx); by left).
    rewrite IH; [by rewrite <- app_assoc|].
    rewrite <- app_assoc. simpl. apply NoDup_app. done. }
  intros Hnd. by apply (H s []).
Qed.

End js_sets.

Section turn_machine.
Import FarkleGame.
Implicit Types (g : FarkleGame.t).

Lemma confirm_valid g score :
  turnState g = selecting → selectedDice g ≠ [] →
  scoreSelection (selectedValues g) = Some score →
  _confirmSelection g =
    let g1 := set_selectedDice JsSet.empty
                (set_setAsideDice (aside_after g)
                   (set_turnScore (turnScore g + score) g)) in
    if bool_decide (6 ≤ JsSet.size (aside_after g)) then _handleHotDice g1
    else if bool_decide (3 ≤ rollCount g)
            && bool_decide (turnScore g + score < MIN_SCORE_3RD_ROLL)
    then _handleForcedFarkle g1
    else _autoSave (set_turnState confirmed g1).
Proof.
  intros Hst Hsel Hscore. unfold _confirmSelection.
  rewrite Hst. rewrite bool_decide_eq_true_2 by done. cbn [negb].
  rewrite bool_decide_eq_false_2.
  2:{ unfold JsSet.size. destruct (selectedDice g); [done|]. simpl. lia. }
  rewrite Hscore. reflexivity.
Qed.

Lemma confirm_invalid g :
  turnState g ≠ selecting ∨ selectedDice g = []
  ∨ scoreSelection (selectedValues g) = None →
  _confirmSelection g = g.
Proof.
  intros H. unfold _confirmSelection.
  destruct (bool_decide (turnState g = selecting)) eqn:Hst; [|done].
  cbn [negb]. apply bool_decide_eq_true in Hst.
  destruct (bool_decide (JsSet.size (selectedDice g) = 0)) eqn:Hsz; [done|].
  apply bool_decide_eq_false in Hsz.
  destruct H as [H|[H|H]]; [done| |by rewrite H].
  exfalso. apply Hsz. by rewrite H.
Qed.

Lemma bank_refused g : turnState g ≠ confirmed → _bank g = g.
Proof. intros H. unfold _bank. by rewrite bool_decide_eq_false_2. Qed.

Lemma rollDice_refused rnd g :
  DiceEngine.isRolling (diceEngine g) = true
  ∨ (turnState g ≠ idle ∧ turnState g ≠ confirmed) →
  _rollDice rnd g = g.
Proof.
  intros [H|[H1 H2]]; unfold _rollDice.
  - by rewrite H.
  - destruct (DiceEngine.isRolling _); [done|].
    by rewrite !bool_decide_eq_false_2.
Qed.

Lemma rollDice_accepted rnd g :
  DiceEngine.isRolling (diceEngine g) = false →
  turnState g = idle ∨ turnState g = confirmed →
  _rollDice rnd g =
    let e := DiceEngine.set_rollsLeft 1 (diceEngine g) in
    let e := DiceEngine.set_held
               (hold_set_aside (setAsideDice g) (DiceEngine.held e)) e in
    let g := set_turnState rolling
               (set_rollCount (rollCount g + 1)
                  (set_selectedDice JsSet.empty (set_diceEngine e g))) in
    set_diceEngine (DiceEngine.roll rnd (diceEngine g)).1 g.
Proof.
  intros Hr Hst. unfold _rollDice. rewrite Hr.
  destruct Hst as [-> | ->]; reflexivity.
Qed.

Lemma attemptStraight_refused rnd g :
  straightAttemptData g = None ∨ turnState g ≠ selecting →
  _attemptStraight rnd g = g.
Proof.
  intros H. unfold _attemptStraight.
  destruct (straightAttemptData g); [|done].
  destruct H as [?|H]; [done|]. by rewrite bool_decide_eq_false_2.
Qed.

Lemma diceClick_refused index g :
  turnState g ≠ selecting ∨ JsSet.has index (setAsideDice g) = true →
  _onDiceClick index g = g.
Proof.
  intros H. unfold _onDiceClick.
  destruct (bool_decide (turnState g = selecting)) eqn:Hst; [|done].
  apply bool_decide_eq_true in Hst. cbn [negb].
  destruct H as [?|H]; [done|]. by rewrite H.
Qed.

End turn_machine.

(** C7.  Every invalid command is a silent no-op: confirming outside
    [selecting], with an empty selection or with a selection that does not
    score returns the game unchanged (turn state, turn score, set-aside dice
    and player totals included); [roll] while a roll is in progress or with
    no rolls left, and [toggleHold] before the first roll, during a roll,
    with the rolls exhausted or on an index that is not a die, return the
    engine unchanged together with [false]; banking outside [confirmed], the
    roll button outside [idle] / [confirmed] or during a roll, the straight
    button without an offered straight or outside [selecting], and a click
    on a die outside [selecting] or on a set-aside die return the game
    unchanged. *)
Theorem C7_invalid_commands_are_noops :
  ∀ (g : FarkleGame.t) (e : DiceEngine.t) (rnd : nat → Z) (index : Z) (die : nat),
    (FarkleGame.turnState g = FarkleGame.selecting →
     FarkleGame.selectedDice g = []
     ∨ scoreSelection (FarkleGame.selectedValues g) = None →
     FarkleGame._confirmSelection g = g)
    ∧ (FarkleGame.turnState g ≠ FarkleGame.selecting →
       FarkleGame._confirmSelection g = g)
    ∧ (DiceEngine.rollsLeft e ≤ 0 ∨ DiceEngine.isRolling e = true →
       DiceEngine.roll rnd e = (e, false))
    ∧ (DiceEngine.hasRolled e = false ∨ DiceEngine.isRolling e = true
       ∨ DiceEngine.rollsLeft e = 0 →
       DiceEngine.toggleHold index e = (e, false))
    ∧ (index < 0 ∨ Z.of_nat (DiceEngine.count e) ≤ index →
       DiceEngine.toggleHold index e = (e, false))
    ∧ (FarkleGame.turnState g ≠ FarkleGame.confirmed → FarkleGame._bank g = g)
    ∧ (DiceEngine.isRolling (FarkleGame.diceEngine g) = true
       ∨ (FarkleGame.turnState g ≠ FarkleGame.idle
          ∧ FarkleGame.turnState g ≠ FarkleGame.confirmed) →
       FarkleGame._rollDice rnd g = g)
    ∧ (FarkleGame.straightAttemptData g = None
       ∨ FarkleGame.turnState g ≠ FarkleGame.selecting →
       FarkleGame._attemptStraight rnd g = g)
    ∧ (FarkleGame.turnState g ≠ FarkleGame.selecting
       ∨ JsSet.has die (FarkleGame.setAsideDice g) = true →
       FarkleGame._onDiceClick die g = g).
Proof.
  intros g e rnd index die.
  split; [intros _ H; apply confirm_invalid; tauto|].
  split; [intros H; apply confirm_invalid; tauto|].
  split; [apply roll_refused|].
  split; [apply toggleHold_refused|].
  split; [apply toggleHold_out_of_range|].
  split; [apply bank_refused|].
  split; [apply rollDice_refused|].
  split; [apply attemptStraight_refused|apply diceClick_refused].
Qed.

(** C7 on a running game: after the roll 2,3,4,6,2,5 the player selects a
    two; confirming, banking, rolling and toggling a hold leave the state
    as it was, and so does the straight button on a fresh game. *)
Lemma C7_invalid_commands_are_noops_witness :
  let g := Samples.selected_a_two in
  let e := FarkleGame.diceEngine g in
  FarkleGame.turnState g = FarkleGame.selecting
  ∧ FarkleGame._confirmSelection g = g
  ∧ DiceEngine.roll Samples.fives e = (e, false)
  ∧ DiceEngine.toggleHold 0 e = (e, false)
  ∧ DiceEngine.toggleHold 6 e = (e, false)
  ∧ FarkleGame._bank g = g
  ∧ FarkleGame._rollDice Samples.fives g = g
  ∧ FarkleGame._attemptStraight Samples.fives Samples.fresh = Samples.fresh.
Proof.
  intros g e.
  destruct (C7_invalid_commands_are_noops g e Samples.fives 0 0%nat)
    as (Hc & _ & Hr & Hh & _ & Hb & Hd & _).
  destruct (C7_invalid_commands_are_noops g e Samples.fives 6 0%nat)
    as (_ & _ & _ & _ & Ho & _).
  destruct (C7_invalid_commands_are_noops Samples.fresh e Samples.fives 0 0%nat)
    as (_ & _ & _ & _ & _ & _ & _ & Hs & _).
  split; [vm_compute; reflexivity|].
  split; [apply Hc; [vm_compute; reflexivity | right; vm_compute; reflexivity]|].
  split; [apply Hr; left; vm_compute; intros H; discriminate H|].
  split; [apply Hh; right; right; vm_compute; reflexivity|].
  split; [apply Ho; right; vm_compute; intros H; discriminate H|].
  split; [apply Hb; vm_compute; intros H; discriminate H|].
  split; [apply Hd; right; split; vm_compute; intros H; discriminate H|].
  apply Hs. left. vm_compute. reflexivity.
Defined.

(** X28.  Hot dice when the player waits for the banner.  Confirming a
    valid selection that brings the set-aside dice to all six empties the
    set-aside set at once and adds the selection's score to the turn score,
    while the turn state stays [selecting] and the 1800 ms callback is
    pending.  If that callback is the next thing to happen, the turn is
    [confirmed] with the set-aside set still empty, no die held, one roll
    granted and the turn score intact, and the next roll throws all six
    dice. *)
Theorem hot_dice_after_callback :
  ∀ (g : FarkleGame.t) (score : Z) (rnd : nat → Z),
    FarkleGame.turnState g = FarkleGame.selecting →
    FarkleGame.selectedDice g ≠ [] →
    scoreSelection (FarkleGame.selectedValues g) = Some score →
    6 ≤ JsSet.size (FarkleGame.aside_after g) →
    DiceEngine.isRolling (FarkleGame.diceEngine g) = false →
    DiceEngine.count (FarkleGame.diceEngine g) = 6%nat →
    let g1 := FarkleGame._confirmSelection g in
    let g2 := FarkleGame.fire FarkleGame.HotDiceTimer g1 in
    let g3 := FarkleGame._rollDice rnd g2 in
    FarkleGame.setAsideDice g1 = []
    ∧ FarkleGame.turnState g1 = FarkleGame.selecting
    ∧ FarkleGame.turnScore g1 = FarkleGame.turnScore g + score
    ∧ FarkleGame.HotDiceTimer ∈ FarkleGame.timers g1
    ∧ FarkleGame.turnState g2 = FarkleGame.confirmed
    ∧ FarkleGame.setAsideDice g2 = []
    ∧ FarkleGame.selectedDice g2 = []
    ∧ FarkleGame.turnScore g2 = FarkleGame.turnScore g + score
    ∧ DiceEngine.held (FarkleGame.diceEngine g2) = replicate 6 false
    ∧ DiceEngine.rollsLeft (FarkleGame.diceEngine g2) = 1
    ∧ FarkleGame.availableIndices g2 = [0; 1; 2; 3; 4; 5]%nat
    ∧ FarkleGame.turnState g3 = FarkleGame.rolling
    ∧ DiceEngine.values (FarkleGame.diceEngine g3) = rnd <$> [0; 1; 2; 3; 4; 5]%nat
    ∧ FarkleGame.turnScore g3 = FarkleGame.turnScore g + score.
Proof.
  intros g score rnd Hst Hsel Hscore Hsix Hroll Hcount g1 g2 g3.
  assert (g1 = FarkleGame._handleHotDice
                 (FarkleGame.set_selectedDice JsSet.empty
                    (FarkleGame.set_setAsideDice (FarkleGame.aside_after g)
                       (FarkleGame.set_turnScore (FarkleGame.turnScore g + score) g))))
    as Hg1.
  { unfold g1. rewrite (confirm_valid g score) by done. cbv zeta.
    by rewrite bool_decide_eq_true_2. }
  assert (FarkleGame.HotDiceTimer ∈ FarkleGame.timers g1) as Htimer.
  { rewrite Hg1. simpl. apply elem_of_app. right. by left. }
  assert (g2 = FarkleGame.hotDice_callback
                 (FarkleGame.set_timers
                    (FarkleGame.remove_first FarkleGame.HotDiceTimer (FarkleGame.timers g1))
                    g1)) as Hg2.
  { unfold g2, FarkleGame.fire. by rewrite bool_decide_eq_true_2. }
  split; [by rewrite Hg1|]. split; [by rewrite Hg1|].
  split; [by rewrite Hg1|]. split; [done|].
  split; [by rewrite Hg2|]. split; [by rewrite Hg2, Hg1|].
  split; [by rewrite Hg2, Hg1|]. split; [by rewrite Hg2, Hg1|].
  split; [by rewrite Hg2|]. split; [by rewrite Hg2|].
  split; [by rewrite Hg2, Hg1|].
  assert (DiceEngine.isRolling (FarkleGame.diceEngine g2) = false) as Hr2.
  { rewrite Hg2, Hg1. simpl. done. }
  assert (FarkleGame.turnState g2 = FarkleGame.confirmed) as Hs2 by (by rewrite Hg2).
  assert (g3 = _) as Hg3 by (apply (rollDice_accepted rnd g2 Hr2); by right).
  cbv zeta in Hg3.
  split; [by rewrite Hg3|].
  split; [|by rewrite Hg3, Hg2, Hg1].
  rewrite Hg3, Hg2, Hg1. clear -Hroll Hcount.
  destruct g as [? ? ? ? ? ? ? ? ? ? ? e ? ? ? ?]. destruct e. simpl in *.
  subst. reflexivity.
Qed.

(** X28 on the sample turn: two fives kept after each of three rolls. *)
Lemma hot_dice_after_callback_witness :
  let g := Samples.third_roll_last_two in
  let g2 := FarkleGame.fire FarkleGame.HotDiceTimer (FarkleGame._confirmSelection g) in
  FarkleGame.turnScore g = 200
  ∧ FarkleGame.turnState g2 = FarkleGame.confirmed
  ∧ FarkleGame.setAsideDice g2 = []
  ∧ FarkleGame.turnScore g2 = FarkleGame.turnScore g + 100.
Proof.
  intros g g2.
  destruct (hot_dice_after_callback g 100 Samples.fives)
    as (_ & _ & _ & _ & Hst & Hsa & _ & Hts & _); [crunch ..|].
  split; [crunch|]. split; [exact Hst|]. split; [exact Hsa|exact Hts].
Defined.

(** C3 (the code does not do what the claim says).  The first roll shows
    1,1,1,5,5,5 and the player confirms all six dice, two triplets for 2500
    points.  [_handleHotDice] empties the set-aside set but leaves the turn
    in state [selecting] until its callback runs 1800 ms later, with the
    dice still showing the faces just scored.  If the callback comes next
    the turn is [confirmed] with nothing set aside and 2500 points.  If
    instead the player selects and confirms the same six dice again, they
    are scored a second time: 5000 points after one roll, which the player
    banks once the two callbacks have run.  If the player confirms the
    first die alone, the turn is [confirmed] at once; the callback leaves
    that die set aside, five dice remain and the next roll throws five
    dice, not six. *)
Theorem C3_hot_dice_window_accepts_commands :
  let g1 := Samples.hot_dice_shown in
  let hot := FarkleGame.TimerFires FarkleGame.HotDiceTimer in
  let g2 := FarkleGame.run g1 Samples.select_all_six in
  let g3 := FarkleGame.run g2 [hot; hot; FarkleGame.BankButton] in
  let g4 := FarkleGame.run g1 [FarkleGame.DiceClick 0; FarkleGame.ConfirmButton; hot] in
  let g5 := FarkleGame._rollDice Samples.fives g4 in
  (FarkleGame.turnState g1 = FarkleGame.selecting
   ∧ FarkleGame.setAsideDice g1 = []
   ∧ FarkleGame.turnScore g1 = 2500
   ∧ FarkleGame.timers g1 = [FarkleGame.HotDiceTimer]
   ∧ DiceEngine.values (FarkleGame.diceEngine g1) = [1; 1; 1; 5; 5; 5])
  ∧ (FarkleGame.turnState (FarkleGame.handle g1 hot) = FarkleGame.confirmed
     ∧ FarkleGame.setAsideDice (FarkleGame.handle g1 hot) = []
     ∧ FarkleGame.turnScore (FarkleGame.handle g1 hot) = 2500)
  ∧ (FarkleGame.turnState g2 = FarkleGame.selecting
     ∧ FarkleGame.turnScore g2 = 5000
     ∧ FarkleGame.rollCount g2 = 1
     ∧ FarkleGame.timers g2 = [FarkleGame.HotDiceTimer; FarkleGame.HotDiceTimer]
     ∧ FarkleGame.totalScore <$> FarkleGame.players g3 = [5000; 0])
  ∧ (FarkleGame.turnState g4 = FarkleGame.confirmed
     ∧ FarkleGame.setAsideDice g4 = [0%nat]
     ∧ FarkleGame.turnScore g4 = 2600
     ∧ FarkleGame.remaining g4 = 5
     ∧ DiceEngine.held (FarkleGame.diceEngine g5)
       = [true; false; false; false; false; false]
     ∧ DiceEngine.values (FarkleGame.diceEngine g5) = [1; 5; 5; 5; 5; 5]).
Proof. repeat split; vm_compute; reflexivity. Qed.

(** C2 (amended: the selection must leave fewer than six dice set aside).
    Confirming a valid selection that leaves fewer than six dice set aside,
    with [rollCount >= 3] and a resulting turn score below 350, is a forced
    bust: the turn state becomes [farkle], the turn score is reset to 0, the
    player totals are untouched and the timer that ends the turn is
    scheduled. *)
Theorem C2_forced_bust_below_350 :
  ∀ (g : FarkleGame.t) (score : Z),
    FarkleGame.turnState g = FarkleGame.selecting →
    FarkleGame.selectedDice g ≠ [] →
    scoreSelection (FarkleGame.selectedValues g) = Some score →
    JsSet.size (FarkleGame.aside_after g) < 6 →
    3 ≤ FarkleGame.rollCount g →
    FarkleGame.turnScore g + score < 350 →
    let g1 := FarkleGame._confirmSelection g in
    FarkleGame.turnState g1 = FarkleGame.farkle
    ∧ FarkleGame.turnScore g1 = 0
    ∧ FarkleGame.players g1 = FarkleGame.players g
    ∧ FarkleGame.timers g1 = FarkleGame.timers g ++ [FarkleGame.NextPlayerTimer].
Proof.
  intros g score Hst Hsel Hscore Hsix Hroll Hlow g1. unfold g1.
  rewrite (confirm_valid g score) by done. cbv zeta.
  rewrite bool_decide_eq_false_2 by lia.
  rewrite !bool_decide_eq_true_2 by done. done.
Qed.

(** C2 on the sample turn: one five kept after each of three rolls. *)
Lemma C2_forced_bust_below_350_witness :
  let g := Samples.third_roll_one_five in
  FarkleGame.rollCount g = 3
  ∧ FarkleGame.turnScore g = 100
  ∧ FarkleGame.turnState (FarkleGame._confirmSelection g) = FarkleGame.farkle
  ∧ FarkleGame.turnScore (FarkleGame._confirmSelection g) = 0.
Proof.
  intros g.
  destruct (C2_forced_bust_below_350 g 50) as (Hst & Hts & _); [crunch ..|].
  split; [crunch|]. split; [crunch|]. split; [exact Hst|exact Hts].
Defined.

(** C2 as stated fails when the confirmed selection uses the last dice: two
    fives kept after each of three rolls give [rollCount = 3] and a turn
    score of 300, yet the turn is not a bust; it becomes hot dice and ends
    up [confirmed] with the 300 points kept. *)
Lemma C2_counterexample_hot_dice_at_300 :
  let g := Samples.third_roll_last_two in
  let g1 := FarkleGame._confirmSelection g in
  let g2 := FarkleGame.fire FarkleGame.HotDiceTimer g1 in
  FarkleGame.turnState g = FarkleGame.selecting
  ∧ scoreSelection (FarkleGame.selectedValues g) = Some 100
  ∧ FarkleGame.rollCount g1 = 3
  ∧ FarkleGame.turnScore g1 = 300
  ∧ FarkleGame.turnState g1 ≠ FarkleGame.farkle
  ∧ FarkleGame.timers g1 = [FarkleGame.HotDiceTimer]
  ∧ FarkleGame.turnState g2 = FarkleGame.confirmed
  ∧ FarkleGame.turnScore g2 = 300.
Proof. repeat split; crunch. Qed.

Section roll_end.
Import FarkleGame.
Implicit Types (g : FarkleGame.t).

Lemma onRollEnd_bust g :
  turnState (_onRollEnd g) = farkle ↔ isFarkle (availableDice g) = true.
Proof.
  unfold _onRollEnd.
  change (availableDice (set_diceEngine _ g)) with (availableDice g).
  destruct (isFarkle (availableDice g)); [done|].
  split; [|done]. simpl. done.
Qed.

(** The values under set-aside dice are not read. *)
Lemma availableDice_ignores_set_aside g (vs : list Z) :
  (∀ i, JsSet.has i (setAsideDice g) = false →
        vs !! i = DiceEngine.values (diceEngine g) !! i) →
  availableDice (set_diceEngine (DiceEngine.set_values vs (diceEngine g)) g)
  = availableDice g.
Proof.
  intros Hsame. unfold availableDice, availableIndices. simpl.
  apply Forall_fmap_ext, Forall_forall. intros i Hi.
  apply list_elem_of_filter in Hi as [Hi _].
  unfold array_get. by rewrite Hsame.
Qed.

End roll_end.

(** C4.  For every non-empty list of die faces [isFarkle] is true exactly
    when none of these holds: a 1 or a 5 is present, some face occurs three
    or more times, the six dice form the full straight, the six dice form
    three pairs.  When a roll completes, [_onRollEnd] busts exactly when
    [isFarkle] holds of the dice that are not set aside, whatever the
    set-aside dice show.  The three sample values of the claim hold as
    well. *)
Theorem C4_isFarkle_on_available_dice :
  (∀ dice : list Z, dice ≠ [] → isFarkle dice = true ↔ ¬ scoring_opportunity dice)
  ∧ (∀ g : FarkleGame.t,
       FarkleGame.availableDice g
       = array_get (DiceEngine.values (FarkleGame.diceEngine g))
           <$> filter (λ i, i ∉ FarkleGame.setAsideDice g) (seq 0 6)
       ∧ (FarkleGame.turnState (FarkleGame._onRollEnd g) = FarkleGame.farkle
          ↔ isFarkle (FarkleGame.availableDice g) = true))
  ∧ (∀ (g : FarkleGame.t) (vs : list Z),
       (∀ i, i ∉ FarkleGame.setAsideDice g →
             vs !! i = DiceEngine.values (FarkleGame.diceEngine g) !! i) →
       FarkleGame.turnState
         (FarkleGame._onRollEnd
            (FarkleGame.set_diceEngine
               (DiceEngine.set_values vs (FarkleGame.diceEngine g)) g))
       = FarkleGame.turnState (FarkleGame._onRollEnd g))
  ∧ isFarkle [2; 3; 4; 6] = true
  ∧ isFarkle [2; 3; 4; 5] = false
  ∧ isFarkle [1; 2; 3; 4; 5; 6] = false.
Proof.
  split; [exact isFarkle_spec|].
  split.
  { intros g. split; [|apply onRollEnd_bust].
    unfold FarkleGame.availableDice, FarkleGame.availableIndices, FarkleGame.six.
    f_equal. apply list_filter_iff. intros i. unfold JsSet.has.
    rewrite bool_decide_eq_false. done. }
  split; [|repeat split; crunch].
  intros g vs Hsame.
  set (g' := FarkleGame.set_diceEngine _ g).
  assert (FarkleGame.availableDice g' = FarkleGame.availableDice g) as Hav.
  { apply availableDice_ignores_set_aside. intros i Hi. apply Hsame.
    unfold JsSet.has in Hi. by apply bool_decide_eq_false in Hi. }
  pose proof (onRollEnd_bust g) as Hg. pose proof (onRollEnd_bust g') as Hg'.
  rewrite Hav in Hg'.
  destruct (isFarkle (FarkleGame.availableDice g)) eqn:E.
  - rewrite (proj2 Hg eq_refl), (proj2 Hg' eq_refl). done.
  - unfold FarkleGame._onRollEnd.
    change (FarkleGame.availableDice (FarkleGame.set_diceEngine _ g'))
      with (FarkleGame.availableDice g').
    change (FarkleGame.availableDice (FarkleGame.set_diceEngine _ g))
      with (FarkleGame.availableDice g).
    rewrite Hav, E. done.
Qed.

(** C4 on the roll 2,3,4,6. *)
Lemma C4_isFarkle_on_available_dice_witness :
  isFarkle [2; 3; 4; 6] = true ↔ ¬ scoring_opportunity [2; 3; 4; 6].
Proof.
  apply (proj1 C4_isFarkle_on_available_dice [2; 3; 4; 6]). intros H; discriminate H.
Defined.

(** A failed straight attempt whose re-rolled die is neither the missing
    face nor a one or a five is reported twice, by [_onRollEnd] and by the
    straight handler: two turn-ending timers are pending, and when both have
    expired the turn has passed on twice (in the two-player sample game it
    is back with the player who failed). *)
Lemma failed_straight_ends_two_turns :
  let g := Samples.straight_failed in
  let next := FarkleGame.TimerFires FarkleGame.NextPlayerTimer in
  FarkleGame.turnState g = FarkleGame.farkle
  ∧ FarkleGame.timers g = [FarkleGame.NextPlayerTimer; FarkleGame.NextPlayerTimer]
  ∧ FarkleGame.currentPlayerIndex g = 0%nat
  ∧ FarkleGame.turn_ends g [next; next] = 2%nat
  ∧ FarkleGame.currentPlayerIndex (FarkleGame.run g [next]) = 1%nat
  ∧ FarkleGame.currentPlayerIndex (FarkleGame.run g [next; next]) = 0%nat.
Proof. repeat split; crunch. Qed.

(** ** The sets of the controller stay well formed *)

Section sets_invariant.
Import FarkleGame.
Implicit Types (g : FarkleGame.t).

Lemma JsSet_NoDup_delete i (s : list nat) : NoDup s → NoDup (JsSet.delete i s).
Proof. apply NoDup_filter. Qed.

Lemma JsSet_NoDup_add_all (l s : list nat) :
  NoDup s → NoDup (foldl (λ s idx, JsSet.add idx s) s l).
Proof.
  revert s. induction l as [|x l IH]; intros s Hs; simpl; [done|].
  by apply IH, JsSet_NoDup_add.
Qed.

Lemma JsSet_NoDup_of_list (l : list nat) : NoDup (JsSet.of_list l).
Proof. apply JsSet_NoDup_add_all. constructor. Qed.

Lemma startTurn_wf g : sets_wf g → sets_wf (_startTurn g).
Proof.
  intros (_ & _ & Hh & Hf). unfold sets_wf. simpl.
  split; [constructor|]. split; [constructor|]. done.
Qed.

Lemma autoSave_wf g : sets_wf g → sets_wf (_autoSave g).
Proof. intros H. exact H. Qed.

Lemma nextPlayer_wf g : sets_wf g → sets_wf (_nextPlayer g).
Proof.
  intros (Ha & Hs & Hh & Hf).
  destruct (finalRound g) eqn:Hfr.
  - set (g1 := set_playersHadFinalTurn
                 (JsSet.add (currentPlayerIndex g) (playersHadFinalTurn g)) g).
    assert (sets_wf g1) as Hg1.
    { unfold sets_wf. simpl. rewrite Hfr.
      split; [done|]. split; [done|]. split; [by apply JsSet_NoDup_add|done]. }
    set (g2 := set_currentPlayerIndex (next_index g1) g1).
    set (g3 := set_currentPlayerIndex
                 (next_index
                    (set_playersHadFinalTurn
                       (JsSet.add (currentPlayerIndex g2) (playersHadFinalTurn g2)) g2))
                 (set_playersHadFinalTurn
                    (JsSet.add (currentPlayerIndex g2) (playersHadFinalTurn g2)) g2)).
    assert (sets_wf g3) as Hg3.
    { destruct Hg1 as (? & ? & ? & ?). unfold sets_wf. simpl. rewrite Hfr.
      split; [done|]. split; [done|]. split; [by apply JsSet_NoDup_add|done]. }
    assert (_nextPlayer g =
              if allDone g1 then _endGame g1
              else if bool_decide (Z.of_nat (currentPlayerIndex g2)
                                   = finalRoundTriggerPlayer g2)
                   then if allDone g3 then _endGame g3 else _autoSave (_startTurn g3)
                   else _autoSave (_startTurn g2)) as ->.
    { unfold _nextPlayer. rewrite Hfr. fold g1. cbn [andb].
      change (finalRound g1) with (finalRound g). rewrite Hfr. cbn [andb].
      destruct (allDone g1); [done|]. fold g2.
      change (finalRound g2) with (finalRound g). rewrite Hfr. cbn [andb]. done. }
    destruct (allDone g1); [exact (autoSave_wf g1 Hg1)|].
    destruct (bool_decide _).
    + destruct (allDone g3); [exact (autoSave_wf g3 Hg3)|].
      exact (autoSave_wf _ (startTurn_wf g3 Hg3)).
    + exact (autoSave_wf _ (startTurn_wf g2 Hg1)).
  - assert (_nextPlayer g
            = _autoSave (_startTurn (set_currentPlayerIndex (next_index g) g))) as ->.
    { unfold _nextPlayer. rewrite Hfr. cbn [andb].
      change (finalRound (set_currentPlayerIndex _ g)) with (finalRound g).
      rewrite Hfr. reflexivity. }
    apply autoSave_wf, startTurn_wf.
    split; [exact Ha|]. split; [exact Hs|]. split; [exact Hh|].
    intros _. exact (Hf eq_refl).
Qed.

Lemma bank_wf g : sets_wf g → sets_wf (_bank g).
Proof.
  intros (Ha & Hs & Hh & Hf). unfold _bank.
  destruct (negb _); [done|].
  destruct (players g !! currentPlayerIndex g) as [p|]; [|done].
  apply nextPlayer_wf.
  destruct (bool_decide _ && negb _) eqn:Hb; unfold sets_wf; simpl; [|done].
  split; [done|]. split; [done|]. split; [done|]. done.
Qed.

Lemma handleHotDice_wf g : sets_wf g → sets_wf (_handleHotDice g).
Proof.
  intros (Ha & Hs & Hh & Hf). unfold sets_wf. simpl. split; [constructor|done].
Qed.

Lemma onRollEnd_wf g : sets_wf g → sets_wf (_onRollEnd g).
Proof.
  intros Hwf. unfold _onRollEnd.
  destruct (isFarkle _); [exact Hwf|].
  destruct (decide _); [destruct (possible _)|]; exact Hwf.
Qed.

Lemma keep_one_duplicate_wf values dupVal (l : list nat) : ∀ st,
  NoDup st.2 → NoDup (foldl (keep_one_duplicate values dupVal) st l).2.
Proof.
  induction l as [|i l IH]; intros [kept sa] Hsa; [done|].
  cbn [foldl]. apply IH. unfold keep_one_duplicate.
  destruct (_ && _); [done|]. simpl. by apply JsSet_NoDup_add.
Qed.

(** Every event keeps the sets well formed. *)
Lemma handle_wf g ev : sets_wf g → sets_wf (handle g ev).
Proof.
  intros Hwf. pose proof Hwf as (Ha & Hs & Hh & Hf).
  destruct ev as [rnd| |index| | |rnd|x]; simpl.
  - unfold _rollDice. destruct (DiceEngine.isRolling _); [done|].
    destruct (_ && _); [done|]. unfold sets_wf. simpl.
    split; [done|]. split; [constructor|done].
  - unfold finishRoll.
    set (g1 := set_diceEngine _ g).
    assert (sets_wf (_onRollEnd g1)) as Hwf1 by (by apply onRollEnd_wf).
    destruct (straightHandler g) as [[kept missing]|]; [|done].
    unfold run_straightHandler. destruct (bool_decide _).
    + apply handleHotDice_wf. destruct Hwf1 as (? & ? & ? & ?).
      unfold sets_wf. simpl. split; [apply JsSet_NoDup_of_list|done].
    + exact Hwf1.
  - unfold _onDiceClick. destruct (negb _); [done|].
    destruct (JsSet.has index (setAsideDice g)); [done|].
    destruct (JsSet.has index (selectedDice g)); unfold sets_wf; simpl.
    + split; [done|]. split; [by apply JsSet_NoDup_delete|done].
    + split; [done|]. split; [by apply JsSet_NoDup_add|done].
  - unfold _confirmSelection. destruct (negb _); [done|].
    destruct (bool_decide _); [done|].
    destruct (scoreSelection _) as [score|]; [|done].
    assert (NoDup (aside_after g)) as Haside by (by apply JsSet_NoDup_add_all).
    destruct (bool_decide (6 ≤ _)); [|destruct (_ && _)]; unfold sets_wf; simpl.
    + split; [constructor|]. split; [constructor|done].
    + split; [done|]. split; [constructor|done].
    + split; [done|]. split; [constructor|done].
  - by apply bank_wf.
  - unfold _attemptStraight. destruct (straightAttemptData g) as [sa|]; [|done].
    destruct (negb _); [done|]. cbv zeta.
    match goal with
    | |- context [foldl (keep_one_duplicate ?v ?d) ?st six] =>
        pose proof (keep_one_duplicate_wf v d six st Ha) as Hk;
        destruct (foldl (keep_one_duplicate v d) st six) as [kept aside]
    end.
    unfold sets_wf. cbn -[hold_set_aside DiceEngine.roll] in *.
    split; [done|]. split; [constructor|done].
  - unfold fire. destruct (bool_decide _); [|done].
    destruct x.
    + by apply nextPlayer_wf.
    + exact Hwf.
Qed.

(** Every game reached from a new one has well-formed sets. *)
Lemma run_wf evs : ∀ g, sets_wf g → sets_wf (run g evs).
Proof.
  induction evs as [|ev evs IH]; intros g Hwf; [done|].
  apply IH. by apply handle_wf.
Qed.

Lemma new_wf ps savedState :
  (∀ st, savedState = Some st →
         sv_finalRound st = false → sv_playersHadFinalTurn st = []) →
  sets_wf (new ps savedState).
Proof.
  intros Hsaved. destruct savedState as [st|]; simpl.
  - unfold sets_wf, _restoreState. destruct (sv_dice st); simpl.
    all: split; [apply JsSet_NoDup_of_list|].
    all: split; [apply JsSet_NoDup_of_list|].
    all: split; [apply JsSet_NoDup_of_list|].
    all: intros Hfr; by rewrite (Hsaved st eq_refl Hfr).
  - unfold sets_wf. simpl. split; [constructor|]. split; [constructor|].
    split; [constructor|done].
Qed.

End sets_invariant.

(** * Save and restore *)

Section save_restore.
Import FarkleGame.
Implicit Types (g h : FarkleGame.t).

Lemma restore_snapshot_turn g h :
  NoDup (setAsideDice g) → NoDup (selectedDice g) → NoDup (playersHadFinalTurn g) →
  let r := _restoreState (snapshot g) h in
  players r = players g
  ∧ currentPlayerIndex r = currentPlayerIndex g
  ∧ turnScore r = turnScore g
  ∧ rollCount r = rollCount g
  ∧ setAsideDice r = setAsideDice g
  ∧ selectedDice r = selectedDice g
  ∧ turnState r = turnState g
  ∧ finalRound r = finalRound g
  ∧ finalRoundTriggerPlayer r = finalRoundTriggerPlayer g
  ∧ playersHadFinalTurn r = playersHadFinalTurn g.
Proof.
  intros Ha Hs Hh r. unfold r, _restoreState, snapshot. simpl.
  rewrite !JsSet_of_list_to_list by done. done.
Qed.

Lemma restore_snapshot_dice g h :
  let r := _restoreState (snapshot g) h in
  DiceEngine.values (diceEngine r) = DiceEngine.values (diceEngine g)
  ∧ DiceEngine.held (diceEngine r) = DiceEngine.held (diceEngine g)
  ∧ DiceEngine.hasRolled (diceEngine r) = DiceEngine.hasRolled (diceEngine g)
  ∧ DiceEngine.rollsLeft (diceEngine r) = 0
  ∧ DiceEngine.isRolling (diceEngine r) = false.
Proof. done. Qed.

End save_restore.

(** C8 (amended: the Farkle restore does not reproduce the rolls remaining).
    For the dice source, [restoreState(getState())] reproduces the values,
    the held flags, the rolls remaining and the has-rolled flag.  [_autoSave]
    stores the snapshot of the game, and restoring that snapshot reproduces
    the players, the turn index, the turn score, the roll count, the
    set-aside set, the selection, the turn state, the final-round fields and
    the dice values, held flags and has-rolled flag; the engine's rolls
    remaining are forced to 0 and its rolling flag to false.  The sets of
    the saved game are taken without repeated indices, which holds of every
    game reached from a new one ([new_wf], [run_wf]). *)
Theorem C8_restore_reproduces_snapshot :
  (∀ e e0 : DiceEngine.t,
     let r := DiceEngine.restoreState (Some (DiceEngine.getState e)) e0 in
     DiceEngine.getState r = DiceEngine.getState e
     ∧ DiceEngine.values r = DiceEngine.values e
     ∧ DiceEngine.held r = DiceEngine.held e
     ∧ DiceEngine.rollsLeft r = DiceEngine.rollsLeft e
     ∧ DiceEngine.hasRolled r = DiceEngine.hasRolled e)
  ∧ (∀ g : FarkleGame.t,
       FarkleGame.saved (FarkleGame._autoSave g) = Some (FarkleGame.snapshot g))
  ∧ (∀ g g0 : FarkleGame.t,
       NoDup (FarkleGame.setAsideDice g) →
       NoDup (FarkleGame.selectedDice g) →
       NoDup (FarkleGame.playersHadFinalTurn g) →
       let r := FarkleGame._restoreState (FarkleGame.snapshot g) g0 in
       FarkleGame.players r = FarkleGame.players g
       ∧ FarkleGame.currentPlayerIndex r = FarkleGame.currentPlayerIndex g
       ∧ FarkleGame.turnScore r = FarkleGame.turnScore g
       ∧ FarkleGame.rollCount r = FarkleGame.rollCount g
       ∧ FarkleGame.setAsideDice r = FarkleGame.setAsideDice g
       ∧ FarkleGame.selectedDice r = FarkleGame.selectedDice g
       ∧ FarkleGame.turnState r = FarkleGame.turnState g
       ∧ FarkleGame.finalRound r = FarkleGame.finalRound g
       ∧ FarkleGame.finalRoundTriggerPlayer r = FarkleGame.finalRoundTriggerPlayer g
       ∧ FarkleGame.playersHadFinalTurn r = FarkleGame.playersHadFinalTurn g
       ∧ DiceEngine.values (FarkleGame.diceEngine r)
         = DiceEngine.values (FarkleGame.diceEngine g)
       ∧ DiceEngine.held (FarkleGame.diceEngine r)
         = DiceEngine.held (FarkleGame.diceEngine g)
       ∧ DiceEngine.hasRolled (FarkleGame.diceEngine r)
         = DiceEngine.hasRolled (FarkleGame.diceEngine g)
       ∧ DiceEngine.rollsLeft (FarkleGame.diceEngine r) = 0
       ∧ DiceEngine.isRolling (FarkleGame.diceEngine r) = false).
Proof.
  split; [intros e e0 r; by destruct e|]. split; [done|].
  intros g g0 Ha Hs Hh r.
  destruct (restore_snapshot_turn g g0 Ha Hs Hh)
    as (H1 & H2 & H3 & H4 & H5 & H6 & H7 & H8 & H9 & H10).
  destruct (restore_snapshot_dice g g0) as (D1 & D2 & D3 & D4 & D5).
  repeat split; assumption.
Qed.

(** C8 on a turn in progress: the game saved after the third roll of the
    sample turn and restored into a newly constructed game. *)
Lemma C8_restore_reproduces_snapshot_witness :
  let g := Samples.third_roll_last_two in
  let r := FarkleGame._restoreState (FarkleGame.snapshot g)
             (FarkleGame.blank (FarkleGame.players g)) in
  FarkleGame.turnScore r = 200
  ∧ FarkleGame.setAsideDice r = [0; 1; 2; 3]%nat
  ∧ FarkleGame.selectedDice r = FarkleGame.selectedDice g
  ∧ DiceEngine.values (FarkleGame.diceEngine r)
    = DiceEngine.values (FarkleGame.diceEngine g).
Proof.
  intros g r.
  destruct (proj2 (proj2 C8_restore_reproduces_snapshot) g
              (FarkleGame.blank (FarkleGame.players g)))
    as (_ & _ & H3 & _ & H5 & H6 & _ & _ & _ & _ & D1 & _).
  - compute_done.
  - compute_done.
  - compute_done.
  - split; [etrans; [exact H3|crunch]|]. split; [etrans; [exact H5|crunch]|].
    split; [exact H6|exact D1].
Defined.

(** C8 as stated fails on the rolls remaining: a fresh game has one roll
    left in its engine; saved and restored, the engine has none. *)
Lemma C8_counterexample_rolls_left :
  let g := Samples.fresh in
  let r := FarkleGame.new (FarkleGame.players g)
             (FarkleGame.saved (FarkleGame._autoSave g)) in
  DiceEngine.rollsLeft (FarkleGame.diceEngine g) = 1
  ∧ DiceEngine.rollsLeft (FarkleGame.diceEngine r) = 0
  ∧ DiceEngine.getState (FarkleGame.diceEngine r)
    ≠ DiceEngine.getState (FarkleGame.diceEngine g).
Proof. repeat split; crunch. Qed.

(** * Yahtzee: the Yahtzee counter *)

Section yahtzee_counter.
Import Yahtzee.
Implicit Types (g : Yahtzee.t) (p : Yahtzee.Player).

Lemma startTurn_players fuel g : players (_startTurn fuel g) = players g.
Proof.
  revert g. induction fuel as [|fuel IH]; intros g; simpl.
  - destruct (players g !! currentPlayerIndex g) as [p|]; [|done].
    by destruct (_isPlayerFinished p).
  - destruct (players g !! currentPlayerIndex g) as [p|]; [|done].
    destruct (_isPlayerFinished p); [|done]. simpl. by rewrite IH.
Qed.

Lemma nextPlayer_players g : players (_nextPlayer g) = players g.
Proof. unfold _nextPlayer. simpl. by rewrite startTurn_players. Qed.

(** A filled Yahtzee category cannot be selected again. *)
Lemma selectCategory_filled catId g p :
  players g !! currentPlayerIndex g = Some p →
  is_Some (scores p !! catId) →
  _selectCategory catId g = g.
Proof.
  intros Hp Hfilled. unfold _selectCategory. rewrite Hp.
  destruct (negb _ || _); [done|].
  destruct (find _ categories); [|done].
  by rewrite bool_decide_eq_true_2.
Qed.

Lemma selectCategory_players catId g :
  players (_selectCategory catId g) = players g
  ∨ ∃ p cat, players g !! currentPlayerIndex g = Some p
      ∧ scores p !! catId = None
      ∧ players (_selectCategory catId g)
        = <[currentPlayerIndex g :=
             let score := calc cat (DiceEngine.values (diceEngine g)) in
             if bool_decide (catId = "yahtzee") && bool_decide (score = 50)
             then set_score catId (if bool_decide (1 < yahtzees p + 1) then 100 else score)
                    (set_yahtzees (yahtzees p + 1) p)
             else set_score catId score p]> (players g).
Proof.
  unfold _selectCategory.
  destruct (negb _ || _); [by left|].
  destruct (players g !! currentPlayerIndex g) as [p|] eqn:Hp; [|by left].
  destruct (find _ categories) as [cat|]; [|by left].
  destruct (bool_decide (is_Some (scores p !! catId))) eqn:Hs; [by left|].
  apply bool_decide_eq_false in Hs.
  right. exists p, cat. split; [done|].
  split; [by destruct (scores p !! catId); [exfalso; eauto|]|].
  cbv zeta.
  destruct (bool_decide (catId = "yahtzee") && bool_decide (_ = 50)).
  - simpl. destruct (bool_decide (1 < yahtzees p + 1)); simpl;
      destruct (forallb _ _); simpl; by rewrite ?startTurn_players.
  - simpl. destruct (forallb _ _); simpl; by rewrite ?startTurn_players.
Qed.

(** Selecting a category keeps every Yahtzee counter at 0 or 1. *)
Lemma selectCategory_counted_once catId g :
  Forall counted_once (players g) →
  Forall counted_once (players (_selectCategory catId g)).
Proof.
  intros Hall.
  destruct (selectCategory_players catId g) as [->|(p & cat & Hp & Hfree & ->)]; [done|].
  apply Forall_insert; [done|].
  assert (counted_once p) as Hc.
  { rewrite Forall_forall in Hall. apply Hall. by eapply list_elem_of_lookup_2. }
  cbv zeta.
  destruct (bool_decide (catId = "yahtzee")) eqn:Hy; simpl.
  - apply bool_decide_eq_true in Hy. subst catId.
    assert (yahtzees p = 0) as Hzero.
    { destruct Hc as [?|[_ Hs]]; [done|]. rewrite Hfree in Hs. by destruct Hs. }
    destruct (bool_decide (_ = 50)).
    + right. simpl. split; [lia|]. rewrite Hzero. simpl. by rewrite lookup_insert_eq.
    + left. done.
  - apply bool_decide_eq_false in Hy. destruct Hc as [?|[H1 Hs]]; [by left|].
    right. simpl. split; [done|]. by rewrite lookup_insert_ne.
Qed.

Lemma new_counted_once names : Forall counted_once (players (new names)).
Proof.
  unfold new. rewrite startTurn_players. simpl.
  apply Forall_fmap, Forall_forall. intros nc _. by left.
Qed.

(** The game of [Samples.second_yahtzee_rolled]: whatever category is
    selected for the second five-of-a-kind, the counter stays at 1 and the
    total stays below 50 + 100. *)
Lemma second_yahtzee_any_category catId :
  Forall (λ p, yahtzees p = 1 ∧ calculateTotal p categories < 50 + 100)
         (players (_selectCategory catId Samples.second_yahtzee_rolled)).
Proof.
  destruct (find (λ c, bool_decide (id c = catId)) categories) as [cat|] eqn:E.
  - apply find_some in E as [Hin Heq]. apply bool_decide_eq_true in Heq. subst catId.
    unfold categories in Hin. simpl in Hin.
    repeat (destruct Hin as [<-|Hin]; [compute_done|]). done.
  - unfold _selectCategory. rewrite E. compute_done.
Qed.

End yahtzee_counter.

(** C9 (the code does not do what the claim says).  The Yahtzee category
    can be filled once, and the counter [yahtzees] is only incremented when
    that category is filled.  So every counter stays at 0 or 1 through any
    sequence of category selections, selecting the filled Yahtzee category
    again changes nothing, and the branches that award 100 ([score = 100] in
    [_selectCategory], [(yahtzees - 1) * 100] in [calculateTotal]) never run.
    In the sample game the player has a Yahtzee scored (total 50) and rolls
    3,3,3,3,3 again: whichever category is chosen, the counter stays 1 and
    the total stays below 150. *)
Theorem C9_second_yahtzee_earns_no_bonus :
  (∀ names, Forall Yahtzee.counted_once (Yahtzee.players (Yahtzee.new names)))
  ∧ (∀ catId g,
       Forall Yahtzee.counted_once (Yahtzee.players g) →
       Forall Yahtzee.counted_once (Yahtzee.players (Yahtzee._selectCategory catId g)))
  ∧ (∀ p, Yahtzee.counted_once p → Yahtzee.yahtzees p ≤ 1)
  ∧ (∀ g p,
       Yahtzee.players g !! Yahtzee.currentPlayerIndex g = Some p →
       is_Some (Yahtzee.scores p !! "yahtzee") →
       Yahtzee._selectCategory "yahtzee" g = g)
  ∧ DiceEngine.values (Yahtzee.diceEngine Samples.second_yahtzee_rolled)
    = [3; 3; 3; 3; 3]
  ∧ Forall (λ p, Yahtzee.yahtzees p = 1
                 ∧ Yahtzee.scores p !! "yahtzee" = Some 50
                 ∧ Yahtzee.calculateTotal p Yahtzee.categories = 50)
           (Yahtzee.players Samples.second_yahtzee_rolled)
  ∧ ∀ catId,
      Forall (λ p, Yahtzee.yahtzees p = 1
                   ∧ Yahtzee.calculateTotal p Yahtzee.categories < 50 + 100)
             (Yahtzee.players
                (Yahtzee._selectCategory catId Samples.second_yahtzee_rolled)).
Proof.
  split; [exact new_counted_once|].
  split; [exact selectCategory_counted_once|].
  split; [intros p [?|[? _]]; lia|].
  split; [intros g p; apply selectCategory_filled|].
  split; [crunch|]. split; [compute_done|].
  exact second_yahtzee_any_category.
Qed.

(** C9's invariant on the sample game: the counters are 0 or 1 after the
    first five-of-a-kind is scored as Yahtzee. *)
Lemma C9_second_yahtzee_earns_no_bonus_witness :
  Forall Yahtzee.counted_once (Yahtzee.players Samples.yahtzee_scored).
Proof.
  apply (proj1 (proj2 C9_second_yahtzee_earns_no_bonus) "yahtzee"
           (Yahtzee.finishRoll
              (Yahtzee._rollDice Samples.threes (Yahtzee.new [("Alice", "#e74c3c")])))).
  vm_compute. repeat constructor.
Defined.

(** * The match controller: the final round *)

Section turn_order.
Implicit Types (n trig i j : nat).
Local Open Scope nat_scope.

Lemma mod_wrap a n : 0 < n → a < 2 * n → a mod n = if decide (a < n) then a else a - n.
Proof.
  intros Hn Ha. case_decide as Hlt; [by apply Nat.mod_small|].
  replace a with ((a - n) + 1 * n) at 1 by lia.
  rewrite Nat.Div0.mod_add. apply Nat.mod_small. lia.
Qed.

Lemma turns_after_current n trig j :
  trig < n → j < n → FarkleGame.turns_after n trig ((trig + j) mod n) = j.
Proof.
  intros Ht Hj. unfold FarkleGame.turns_after.
  rewrite (mod_wrap (trig + j)) by lia.
  case_decide; rewrite mod_wrap by lia; case_decide; lia.
Qed.

Lemma turns_after_inj n trig i j :
  trig < n → i < n → FarkleGame.turns_after n trig i = j → i = (trig + j) mod n.
Proof.
  intros Ht Hi. unfold FarkleGame.turns_after.
  rewrite (mod_wrap (i + n - trig)) by lia.
  case_decide; intros <-; rewrite mod_wrap by lia; case_decide; lia.
Qed.

Lemma turns_after_bound n trig i : 0 < n → FarkleGame.turns_after n trig i < n.
Proof. intros Hn. unfold FarkleGame.turns_after. apply Nat.mod_upper_bound. lia. Qed.

Lemma next_in_order n trig j :
  trig < n → j < n → ((trig + j) mod n + 1) mod n = (trig + S j) mod n.
Proof.
  intros Ht Hj. rewrite (mod_wrap (trig + j)) by lia.
  case_decide; rewrite !mod_wrap by lia; repeat case_decide; lia.
Qed.

Lemma back_at_trigger n trig j :
  trig < n → j < n → (trig + S j) mod n = trig ↔ S j = n.
Proof.
  intros Ht Hj. rewrite mod_wrap by lia. case_decide; lia.
Qed.

End turn_order.

Section final_round.
Import FarkleGame.
Implicit Types (g : FarkleGame.t) (trig j : nat).

Lemma allDone_spec g :
  allDone g = true
  ↔ ∀ i, (i < length (players g))%nat →
         Z.of_nat i = finalRoundTriggerPlayer g ∨ i ∈ playersHadFinalTurn g.
Proof.
  unfold allDone. rewrite forallb_forall. split.
  - intros H i Hi. specialize (H i). rewrite orb_true_iff in H.
    rewrite bool_decide_eq_true, JsSet_has_true in H. apply H.
    apply in_seq. lia.
  - intros H i Hi. apply in_seq in Hi. rewrite orb_true_iff.
    rewrite bool_decide_eq_true, JsSet_has_true. apply H. lia.
Qed.

(** Recording the current player extends the finished players by one. *)
Lemma had_after_turn trig j g i :
  final_round_at trig j g → (j < length (players g))%nat →
  (i < length (players g))%nat →
  i ∈ JsSet.add (currentPlayerIndex g) (playersHadFinalTurn g)
  ↔ (turns_after (length (players g)) trig i < S j)%nat.
Proof.
  intros (_ & _ & Ht & _ & Hc & Hhad) Hj Hi.
  rewrite JsSet_elem_of_add, (Hhad i Hi), Hc. split.
  - intros [->|?]; [|lia]. rewrite turns_after_current by done. lia.
  - intros Hlt.
    destruct (decide (turns_after (length (players g)) trig i = j)) as [He|Hne].
    + left. by apply turns_after_inj.
    + right. lia.
Qed.

(** One call of [_nextPlayer] in the final round: the game ends when the
    last player has finished, and otherwise the next player in turn order,
    who is not the trigger player, starts a turn. *)
Lemma nextPlayer_final_round trig j g :
  final_round_at trig j g → (j < length (players g))%nat →
  finalRound (_nextPlayer g) = true
  ∧ finalRoundTriggerPlayer (_nextPlayer g) = Z.of_nat trig
  ∧ players (_nextPlayer g) = players g
  ∧ (S j = length (players g) →
     winners (_nextPlayer g) = Some (find_winners (players g)).2)
  ∧ (S j ≠ length (players g) →
     final_round_at trig (S j) (_nextPlayer g) ∧ turnState (_nextPlayer g) = idle).
Proof.
  intros Hinv Hj.
  pose proof Hinv as (Hfr & Htrig & Ht & Hw & Hc & Hhad).
  set (n := length (players g)) in *.
  set (g1 := set_playersHadFinalTurn
               (JsSet.add (currentPlayerIndex g) (playersHadFinalTurn g)) g).
  assert (allDone g1 = true ↔ S j = n) as Hdone.
  { rewrite allDone_spec. simpl. fold n. rewrite Htrig. split.
    - intros Hall. destruct (decide (S j = n)) as [|Hne]; [done|exfalso].
      assert (((trig + S j) mod n < n)%nat) as Hlt by (apply Nat.mod_upper_bound; lia).
      destruct (Hall _ Hlt) as [Heq|Hin].
      + apply Nat2Z.inj in Heq. apply back_at_trigger in Heq; [done|done|done].
      + apply (had_after_turn trig j g) in Hin; [|done|done|done]. fold n in Hin.
        rewrite turns_after_current in Hin by lia. lia.
    - intros Hlast i Hi. right. apply (had_after_turn trig j g); [done|done|done|].
      fold n. pose proof (turns_after_bound n trig i ltac:(lia)). lia. }
  assert (_nextPlayer g =
            if allDone g1 then _endGame g1
            else _autoSave (_startTurn (set_currentPlayerIndex (next_index g1) g1)))
    as Hstep.
  { unfold _nextPlayer. rewrite Hfr. fold g1. cbn [andb].
    change (finalRound g1) with (finalRound g). rewrite Hfr. cbn [andb].
    destruct (allDone g1) eqn:Hd; [done|].
    change (finalRound (set_currentPlayerIndex (next_index g1) g1)) with (finalRound g).
    rewrite Hfr. cbn [andb].
    rewrite bool_decide_eq_false_2; [done|].
    simpl. rewrite Htrig. unfold next_index. simpl. fold n. rewrite Hc.
    rewrite next_in_order by done. intros Heq%Nat2Z.inj.
    apply back_at_trigger in Heq; [|done|done].
    apply Hdone in Heq. congruence. }
  rewrite Hstep. destruct (allDone g1) eqn:Hd.
  - split; [done|]. split; [done|].
    split; [done|]. split; [done|]. intros Hne. exfalso. by apply Hne, Hdone.
  - split; [done|]. split; [done|].
    split; [done|]. split; [intros Hlast; apply Hdone in Hlast; congruence|].
    intros Hne. split; [|done].
    split; [done|]. split; [done|]. split; [done|]. split; [done|].
    split.
    + simpl. unfold next_index. simpl. fold n. rewrite Hc. by apply next_in_order.
    + intros i Hi. simpl in *. by apply had_after_turn.
Qed.

End final_round.

Section final_round_play.
Import FarkleGame.
Implicit Types (g : FarkleGame.t) (trig j : nat) (ev : Event) (evs : list Event).

(** The final-round invariant reads the match controller's fields only. *)
Lemma final_round_at_ext trig j g h :
  match_state h = match_state g → final_round_at trig j g → final_round_at trig j h.
Proof.
  unfold match_state, final_round_at. intros Heq.
  injection Heq as -> -> -> -> -> ->. done.
Qed.

Lemma rollDice_match rnd g : match_state (_rollDice rnd g) = match_state g.
Proof.
  unfold _rollDice. destruct (DiceEngine.isRolling _); [done|].
  by destruct (_ && _).
Qed.

Lemma onRollEnd_match g : match_state (_onRollEnd g) = match_state g.
Proof.
  unfold _onRollEnd. destruct (isFarkle _); [done|].
  destruct (decide _); [by destruct (possible _)|done].
Qed.

Lemma straightHandler_match kept missing g :
  match_state (run_straightHandler kept missing g) = match_state g.
Proof. unfold run_straightHandler. by destruct (bool_decide _). Qed.

Lemma finishRoll_match g : match_state (finishRoll g) = match_state g.
Proof.
  unfold finishRoll. destruct (straightHandler g) as [[kept missing]|].
  - by rewrite straightHandler_match, onRollEnd_match.
  - by rewrite onRollEnd_match.
Qed.

Lemma diceClick_match index g : match_state (_onDiceClick index g) = match_state g.
Proof.
  unfold _onDiceClick. destruct (negb _); [done|].
  destruct (JsSet.has index (setAsideDice g)); [done|].
  by destruct (JsSet.has index (selectedDice g)).
Qed.

Lemma confirm_match g : match_state (_confirmSelection g) = match_state g.
Proof.
  unfold _confirmSelection. destruct (negb _); [done|].
  destruct (bool_decide _); [done|].
  destruct (scoreSelection _); [|done].
  destruct (bool_decide (6 ≤ _)); [done|]. by destruct (_ && _).
Qed.

Lemma attemptStraight_match rnd g : match_state (_attemptStraight rnd g) = match_state g.
Proof.
  unfold _attemptStraight. destruct (straightAttemptData g); [|done].
  destruct (negb _); [done|]. cbv zeta.
  by destruct (foldl _ _ six).
Qed.

(** An event that does not end the turn leaves the match controller's
    fields alone. *)
Lemma handle_in_turn g ev :
  ends_turn g ev = false → match_state (handle g ev) = match_state g.
Proof.
  destruct ev as [rnd| |index| | |rnd|x]; simpl; intros Hend.
  - apply rollDice_match.
  - apply finishRoll_match.
  - apply diceClick_match.
  - apply confirm_match.
  - apply bool_decide_eq_false in Hend. by rewrite bank_refused.
  - apply attemptStraight_match.
  - unfold fire. destruct x.
    + by rewrite Hend.
    + by destruct (bool_decide _).
Qed.

(** An event that ends the turn calls [_nextPlayer] on a game with the same
    final-round position (a bank adds the turn score to the current player
    first). *)
Lemma handle_turn_end trig j g ev :
  final_round_at trig j g → (j < length (players g))%nat →
  ends_turn g ev = true →
  ∃ g1, handle g ev = _nextPlayer g1
        ∧ final_round_at trig j g1
        ∧ length (players g1) = length (players g).
Proof.
  intros Hinv Hj Hend.
  pose proof Hinv as (Hfr & Htrig & Ht & Hw & Hc & Hhad).
  destruct ev as [rnd| |index| | |rnd|x]; simpl in *; try done.
  - apply bool_decide_eq_true in Hend.
    unfold _bank. rewrite Hend. rewrite bool_decide_eq_true_2 by done. cbn [negb].
    destruct (players g !! currentPlayerIndex g) as [p|] eqn:Hp.
    2:{ exfalso. apply lookup_ge_None in Hp. rewrite Hc in Hp.
        pose proof (Nat.mod_upper_bound (trig + j) (length (players g))). lia. }
    change (finalRound (set_players _ g)) with (finalRound g).
    rewrite Hfr. rewrite andb_false_r.
    eexists. split; [reflexivity|]. split; [|simpl; by rewrite length_insert].
    unfold final_round_at. simpl. rewrite length_insert. done.
  - destruct x; [|done]. unfold fire. rewrite Hend.
    eexists. split; [reflexivity|]. split; [exact Hinv|done].
Qed.

(** One event in the final round. *)
Lemma handle_final_round trig j g ev :
  final_round_at trig j g → (j < length (players g))%nat →
  length (players (handle g ev)) = length (players g)
  ∧ (ends_turn g ev = false → final_round_at trig j (handle g ev))
  ∧ (ends_turn g ev = true → S j = length (players g) →
     winners (handle g ev) = Some (find_winners (players (handle g ev))).2)
  ∧ (ends_turn g ev = true → S j ≠ length (players g) →
     final_round_at trig (S j) (handle g ev) ∧ turnState (handle g ev) = idle).
Proof.
  intros Hinv Hj. destruct (ends_turn g ev) eqn:Hend.
  - destruct (handle_turn_end trig j g ev Hinv Hj Hend) as (g1 & -> & Hinv1 & Hlen).
    rewrite <- Hlen in Hj.
    destruct (nextPlayer_final_round trig j g1 Hinv1 Hj)
      as (_ & _ & Hp & Hlast & Hnext).
    rewrite Hp, <- Hlen. split; [done|]. split; [done|]. split; [auto|auto].
  - pose proof (handle_in_turn g ev Hend) as Hm.
    split; [|split; [|done]].
    + unfold match_state in Hm. injection Hm as -> _ _ _ _ _. done.
    + intros _. by apply (final_round_at_ext trig j g).
Qed.

(** Event after event in the final round, as long as a player is left. *)
Lemma run_final_round trig evs : ∀ j g,
  final_round_at trig j g → (j + turn_ends g evs < length (players g))%nat →
  final_round_at trig (j + turn_ends g evs) (run g evs)
  ∧ length (players (run g evs)) = length (players g).
Proof.
  induction evs as [|ev evs IH]; intros j g Hinv Hlen; cbn [turn_ends] in *.
  - rewrite Nat.add_0_r. done.
  - destruct (handle_final_round trig j g ev Hinv) as (Hl & Hin & _ & Hnext); [lia|].
    cbn [run foldl]. fold (run (handle g ev) evs).
    destruct (ends_turn g ev) eqn:Hend.
    + destruct Hnext as [Hinv1 _]; [done|lia|].
      destruct (IH (S j) (handle g ev) Hinv1) as [Hinv2 Hl2]; [rewrite Hl; lia|].
      replace (j + (1 + turn_ends (handle g ev) evs))%nat
        with (S j + turn_ends (handle g ev) evs)%nat by lia.
      split; [done|]. by rewrite Hl2.
    + destruct (IH j (handle g ev) (Hin eq_refl)) as [Hinv2 Hl2]; [rewrite Hl; lia|].
      split; [done|]. by rewrite Hl2.
Qed.

(** The bank that opens the final round: the total is added, the trigger
    player is recorded, and the turn passes on. *)
Lemma bank_opens_final_round g p :
  turnState g = confirmed → finalRound g = false →
  playersHadFinalTurn g = [] → winners g = None →
  players g !! currentPlayerIndex g = Some p →
  TARGET_SCORE ≤ totalScore p + turnScore g →
  ∃ g1, _bank g = _nextPlayer g1
        ∧ final_round_at (currentPlayerIndex g) 0 g1
        ∧ length (players g1) = length (players g)
        ∧ players g1 !! currentPlayerIndex g
          = Some (set_totalScore (totalScore p + turnScore g) p).
Proof.
  intros Hst Hfr Hhad Hw Hp Htarget.
  assert (currentPlayerIndex g < length (players g))%nat as Hlt.
  { by eapply lookup_lt_Some. }
  unfold _bank. rewrite Hst, Hp.
  change (finalRound (set_players _ g)) with (finalRound g). rewrite Hfr.
  rewrite bool_decide_eq_true_2 by done. cbn [negb].
  rewrite bool_decide_eq_true_2 by (simpl; lia). cbn [andb].
  eexists. split; [reflexivity|]. split; [|split].
  - unfold final_round_at. simpl. rewrite length_insert, Hhad.
    split; [done|]. split; [done|]. split; [done|]. split; [done|].
    split; [rewrite Nat.add_0_r; by rewrite Nat.mod_small|].
    intros i Hi. rewrite elem_of_nil. lia.
  - simpl. by rewrite length_insert.
  - simpl. by rewrite list_lookup_insert_eq.
Qed.

(** The loop of [_endGame] keeps the highest total and the indices of the
    players who have it. *)
Lemma find_winners_invariant ps :
  (∀ q, q ∈ ps → totalScore q ≤ (find_winners ps).1)
  ∧ (∀ i, i ∈ (find_winners ps).2
          ↔ ∃ p, ps !! i = Some p ∧ totalScore p = (find_winners ps).1)
  ∧ ((find_winners ps).1 = -1 ∨ ∃ p, p ∈ ps ∧ totalScore p = (find_winners ps).1).
Proof.
  induction ps as [|x ps IH] using rev_ind.
  - simpl. split; [intros q Hq; by inversion Hq|].
    split; [|by left]. intros i. rewrite elem_of_nil. split; [done|].
    intros (p & Hp & _). by rewrite lookup_nil in Hp.
  - unfold find_winners in *. rewrite imap_app, foldl_app. simpl.
    rewrite Nat.add_0_r.
    destruct (foldl winner_step (-1, []) (imap pair ps)) as [m ws].
    simpl in IH. destruct IH as (Hmax & Hws & Hatt).
    unfold winner_step.
    destruct (bool_decide (m < totalScore x)) eqn:Hgt;
      [apply bool_decide_eq_true in Hgt | apply bool_decide_eq_false in Hgt].
    + simpl. split; [|split].
      * intros q [Hq|Hq%list_elem_of_singleton]%elem_of_app; [|by subst].
        specialize (Hmax q Hq). lia.
      * intros i. rewrite list_elem_of_singleton. split.
        -- intros ->. exists x. split; [|done]. by rewrite lookup_app_r, Nat.sub_diag.
        -- intros (p & Hp & Heq).
           destruct (decide (i < length ps)%nat) as [Hlt|Hge].
           ++ rewrite lookup_app_l in Hp by done.
              apply list_elem_of_lookup_2 in Hp. specialize (Hmax p Hp). lia.
           ++ apply lookup_lt_Some in Hp. rewrite length_app in Hp. simpl in Hp. lia.
      * right. exists x. split; [|done]. apply elem_of_app. right. by left.
    + destruct (bool_decide (totalScore x = m)) eqn:Heq;
        [apply bool_decide_eq_true in Heq | apply bool_decide_eq_false in Heq].
      * simpl. split; [|split].
        -- intros q [Hq|Hq%list_elem_of_singleton]%elem_of_app; [by apply Hmax|].
           subst. lia.
        -- intros i. rewrite elem_of_app, list_elem_of_singleton, Hws. split.
           ++ intros [(p & Hp & Hpm)| ->].
              ** exists p. split; [|done]. rewrite lookup_app_l; [done|].
                 by eapply lookup_lt_Some.
              ** exists x. split; [|done]. by rewrite lookup_app_r, Nat.sub_diag.
           ++ intros (p & Hp & Hpm).
              destruct (decide (i < length ps)%nat) as [Hlt|Hge].
              ** left. exists p. split; [|done]. by rewrite lookup_app_l in Hp.
              ** right. apply lookup_lt_Some in Hp. rewrite length_app in Hp.
                 simpl in Hp. lia.
        -- right. exists x. split; [|done]. apply elem_of_app. right. by left.
      * simpl. split; [|split].
        -- intros q [Hq|Hq%list_elem_of_singleton]%elem_of_app; [by apply Hmax|].
           subst. lia.
        -- intros i. rewrite Hws. split.
           ++ intros (p & Hp & Hpm). exists p. split; [|done].
              rewrite lookup_app_l; [done|]. by eapply lookup_lt_Some.
           ++ intros (p & Hp & Hpm). exists p. split; [|done].
              destruct (decide (i < length ps)%nat) as [Hlt|Hge].
              ** by rewrite lookup_app_l in Hp.
              ** exfalso. assert (i = length ps) as ->.
                 { apply lookup_lt_Some in Hp. rewrite length_app in Hp.
                   simpl in Hp. lia. }
                 rewrite lookup_app_r, Nat.sub_diag in Hp by done.
                 simpl in Hp. assert (p = x) as -> by congruence. lia.
        -- destruct Hatt as [?|(p & Hp & Hpm)]; [by left|].
           right. exists p. split; [|done]. apply elem_of_app. by left.
Qed.

(** The winners are exactly the players with the maximal total. *)
Lemma find_winners_max ps i :
  ps ≠ [] → Forall (λ p, 0 ≤ totalScore p) ps →
  i ∈ (find_winners ps).2
  ↔ ∃ p, ps !! i = Some p ∧ ∀ q, q ∈ ps → totalScore q ≤ totalScore p.
Proof.
  intros Hne Hpos. rewrite Forall_forall in Hpos.
  destruct (find_winners_invariant ps) as (Hmax & Hws & Hatt).
  rewrite Hws.
  assert (∃ p, p ∈ ps ∧ totalScore p = (find_winners ps).1) as (top & Htop & Heq).
  { destruct Hatt as [Hm|?]; [|done]. exfalso.
    destruct ps as [|q ps]; [done|].
    pose proof (Hmax q ltac:(by left)). pose proof (Hpos q ltac:(by left)). lia. }
  split.
  - intros (p & Hp & Hpm). exists p. split; [done|]. intros q Hq.
    rewrite Hpm. by apply Hmax.
  - intros (p & Hp & Hall). exists p. split; [done|].
    pose proof (Hall top Htop). apply list_elem_of_lookup_2 in Hp.
    pose proof (Hmax p Hp). lia.
Qed.

End final_round_play.

(** X23.  The final round as the match controller runs it.  When a player banks
    in state [confirmed] and the total reaches 10000 while no final round is
    active, [finalRound] becomes true with that player as trigger.  From
    then on, whatever events follow, as long as fewer than [n - 1] calls of
    [_nextPlayer] have been made (by a bank or by the timer of a bust) the
    game is not over and the player to move is the next one in turn order
    for each call, never the trigger player; these positions enumerate every
    other player exactly once.  The event that makes the [n - 1]-th such
    call ends the game (with a single player the triggering bank itself
    does), and the winners fixed by [_endGame] are exactly the players whose
    total is maximal (several on a tie).  Before the final round
    [playersHadFinalTurn] is empty in every game reached from a new one
    ([new_wf], [run_wf]).  Whether each call of [_nextPlayer] closes a turn
    that was played is another matter: see [failed_straight_ends_two_turns]
    and the theorem after this one. *)
Theorem final_round_turn_order :
  (∀ (g : FarkleGame.t) (p : FarkleGame.Player),
     FarkleGame.turnState g = FarkleGame.confirmed →
     FarkleGame.finalRound g = false →
     FarkleGame.playersHadFinalTurn g = [] →
     FarkleGame.winners g = None →
     FarkleGame.players g !! FarkleGame.currentPlayerIndex g = Some p →
     FarkleGame.TARGET_SCORE ≤ FarkleGame.totalScore p + FarkleGame.turnScore g →
     let trig := FarkleGame.currentPlayerIndex g in
     let n := length (FarkleGame.players g) in
     let g0 := FarkleGame._bank g in
     FarkleGame.finalRound g0 = true
     ∧ FarkleGame.finalRoundTriggerPlayer g0 = Z.of_nat trig
     ∧ (∀ evs : list FarkleGame.Event,
          (FarkleGame.turn_ends g0 evs < n - 1)%nat →
          let g' := FarkleGame.run g0 evs in
          FarkleGame.winners g' = None
          ∧ FarkleGame.finalRound g' = true
          ∧ FarkleGame.finalRoundTriggerPlayer g' = Z.of_nat trig
          ∧ FarkleGame.currentPlayerIndex g'
            = ((trig + 1 + FarkleGame.turn_ends g0 evs) mod n)%nat
          ∧ FarkleGame.currentPlayerIndex g' ≠ trig)
     ∧ (∀ i, (i < n)%nat → i ≠ trig →
          ∃ k, (k < n - 1)%nat ∧ i = ((trig + 1 + k) mod n)%nat
               ∧ ∀ k', (k' < n - 1)%nat → i = ((trig + 1 + k') mod n)%nat → k' = k)
     ∧ (n = 1%nat →
        FarkleGame.winners g0
        = Some (FarkleGame.find_winners (FarkleGame.players g0)).2)
     ∧ (∀ (evs : list FarkleGame.Event) (ev : FarkleGame.Event),
          (FarkleGame.turn_ends g0 evs + 2 = n)%nat →
          FarkleGame.ends_turn (FarkleGame.run g0 evs) ev = true →
          let g' := FarkleGame.handle (FarkleGame.run g0 evs) ev in
          FarkleGame.winners g'
          = Some (FarkleGame.find_winners (FarkleGame.players g')).2))
  ∧ (∀ (ps : list FarkleGame.Player) (i : nat),
       ps ≠ [] → Forall (λ p, 0 ≤ FarkleGame.totalScore p) ps →
       i ∈ (FarkleGame.find_winners ps).2
       ↔ ∃ p, ps !! i = Some p
              ∧ ∀ q, q ∈ ps → FarkleGame.totalScore q ≤ FarkleGame.totalScore p).
Proof.
  split; [|exact find_winners_max].
  intros g p Hst Hfr Hhad Hw Hp Htarget trig n g0.
  assert (trig < n)%nat as Hlt by (by eapply lookup_lt_Some).
  destruct (bank_opens_final_round g p Hst Hfr Hhad Hw Hp Htarget)
    as (g1 & Hbank & Hinv0 & Hlen0 & _).
  fold trig in Hinv0. fold n in Hlen0. fold g0 in Hbank.
  destruct (nextPlayer_final_round trig 0 g1 Hinv0)
    as (Hfr1 & Htrig1 & Hps1 & Hend1 & Hnext1); [lia|].
  rewrite <- Hbank in Hfr1, Htrig1, Hps1, Hend1, Hnext1. rewrite Hlen0 in Hend1, Hnext1.
  assert (length (FarkleGame.players g0) = n) as Hlen by (by rewrite Hps1).
  split; [done|]. split; [done|]. split; [|split; [|split]].
  - intros evs Hevs g'.
    destruct Hnext1 as [Hinv _]; [lia|].
    destruct (run_final_round trig evs 1 g0 Hinv) as [Hinv' Hlen'].
    { rewrite Hlen. lia. }
    fold g' in Hinv', Hlen'. rewrite Hlen in Hlen'.
    destruct Hinv' as (Hfr' & Htrig' & _ & Hw' & Hc' & _). rewrite Hlen' in Hc'.
    set (k := FarkleGame.turn_ends g0 evs) in *.
    replace (trig + (1 + k))%nat with (trig + 1 + k)%nat in Hc' by lia.
    split; [done|]. split; [done|]. split; [done|]. split; [done|].
    rewrite Hc'. replace (trig + 1 + k)%nat with (trig + S k)%nat by lia.
    intros Heq. apply back_at_trigger in Heq; lia.
  - intros i Hi Hne.
    pose proof (turns_after_bound n trig i ltac:(lia)) as Hb.
    pose proof (turns_after_inj n trig i _ Hlt Hi eq_refl) as Hpos.
    set (d := FarkleGame.turns_after n trig i) in *.
    assert (d ≠ 0)%nat as Hd.
    { intros Hz. rewrite Hz, Nat.add_0_r, Nat.mod_small in Hpos by done. done. }
    exists (d - 1)%nat. split; [lia|]. split.
    + rewrite Hpos. f_equal. lia.
    + intros k' Hk' Hik'.
      pose proof (turns_after_current n trig (1 + k') Hlt ltac:(lia)) as Hcur.
      rewrite Nat.add_assoc, <- Hik' in Hcur. fold d in Hcur. lia.
  - intros Hone. rewrite Hps1. apply Hend1. lia.
  - intros evs ev Hevs Hend g'.
    destruct Hnext1 as [Hinv _]; [lia|].
    destruct (run_final_round trig evs 1 g0 Hinv) as [Hinv' Hlen'].
    { rewrite Hlen. lia. }
    rewrite Hlen in Hlen'.
    destruct (handle_final_round trig _ _ ev Hinv') as (_ & _ & Hlast & _).
    { rewrite Hlen'. lia. }
    apply Hlast; [done|]. rewrite Hlen'. lia.
Qed.

(** X23 on the sample match of two: Alice banks 100 on top of 9900 while Bob has
    9950; the final round opens with the game still running; Bob rolls
    2,3,4,6,2,3, a bust, and when its timer expires the game is over and
    Alice alone wins. *)
Lemma final_round_of_two_sample :
  let g0 := FarkleGame._bank Samples.about_to_trigger in
  let evs := [FarkleGame.RollButton Samples.barren; FarkleGame.RollFinished] in
  FarkleGame.finalRound g0 = true
  ∧ FarkleGame.finalRoundTriggerPlayer g0 = 0
  ∧ FarkleGame.winners (FarkleGame.run g0 evs) = None
  ∧ FarkleGame.winners
      (FarkleGame.handle (FarkleGame.run g0 evs)
         (FarkleGame.TimerFires FarkleGame.NextPlayerTimer))
    = Some [0%nat].
Proof.
  intros g0 evs.
  destruct (proj1 final_round_turn_order Samples.about_to_trigger
              (FarkleGame.set_totalScore 9900 Samples.alice))
    as (Hfr & Htrig & Hmid & _ & _ & Hend); [crunch ..|].
  destruct (Hmid evs) as (Hrun & _); [vm_compute; lia|].
  split; [exact Hfr|]. split; [exact Htrig|]. split; [exact Hrun|].
  etrans; [apply (Hend evs (FarkleGame.TimerFires FarkleGame.NextPlayerTimer));
           vm_compute; reflexivity|].
  crunch.
Defined.

(** C6 (the code does not do what the claim says).  In a match of three
    Alice opens the final round, so Bob and Carol are each due one more
    turn.  Bob rolls 2,3,4,6,2,5, takes the offered straight and the
    re-rolled die shows a three: the completed roll is reported to both
    listeners of [roll-end], [_onRollEnd] and the straight handler, each
    calls [_handleFarkle], and two turn-ending timers are pending.  The
    first expiry ends Bob's turn and starts Carol's (state [idle], no roll
    made, no roll in progress); the second expiry, with no command of Carol
    in between, records Carol as having had her final turn and ends the
    game: Alice wins with 10000 points and Carol's 9990 were never played
    for. *)
Theorem C6_failed_straight_skips_final_turn :
  let g0 := Samples.final_round_of_three in
  let next := FarkleGame.TimerFires FarkleGame.NextPlayerTimer in
  let g1 := FarkleGame.run g0 Samples.bob_fails_straight in
  let g2 := FarkleGame.handle g1 next in
  let g3 := FarkleGame.handle g2 next in
  (FarkleGame.finalRound g0 = true
   ∧ FarkleGame.finalRoundTriggerPlayer g0 = 0
   ∧ FarkleGame.currentPlayerIndex g0 = 1%nat
   ∧ FarkleGame.playersHadFinalTurn g0 = [0%nat]
   ∧ FarkleGame.winners g0 = None)
  ∧ (FarkleGame.turnState g1 = FarkleGame.farkle
     ∧ FarkleGame.currentPlayerIndex g1 = 1%nat
     ∧ FarkleGame.timers g1
       = [FarkleGame.NextPlayerTimer; FarkleGame.NextPlayerTimer])
  ∧ (FarkleGame.currentPlayerIndex g2 = 2%nat
     ∧ FarkleGame.turnState g2 = FarkleGame.idle
     ∧ FarkleGame.rollCount g2 = 0
     ∧ DiceEngine.hasRolled (FarkleGame.diceEngine g2) = false
     ∧ FarkleGame.playersHadFinalTurn g2 = [0%nat; 1%nat]
     ∧ FarkleGame.winners g2 = None
     ∧ FarkleGame.timers g2 = [FarkleGame.NextPlayerTimer])
  ∧ (FarkleGame.playersHadFinalTurn g3 = [0%nat; 1%nat; 2%nat]
     ∧ FarkleGame.winners g3 = Some [0%nat]
     ∧ FarkleGame.totalScore <$> FarkleGame.players g3 = [10000; 9950; 9990]).
Proof. repeat split; crunch. Qed.

(** * Scoring: selections, hints and the breakdown *)

Section selections.
Implicit Types (dice s : list Z) (v : Z).

Lemma occ_app v s1 s2 : occ v (s1 ++ s2) = occ v s1 + occ v s2.
Proof. unfold occ. rewrite filter_app, length_app. lia. Qed.

Lemma occ_Permutation v s1 s2 : s1 ≡ₚ s2 → occ v s1 = occ v s2.
Proof. intros H. unfold occ. by rewrite H. Qed.

Lemma occ_submseteq v s dice : s ⊆+ dice → occ v s ≤ occ v dice.
Proof.
  intros [k Hk]%submseteq_Permutation.
  rewrite (occ_Permutation v _ _ Hk), occ_app. pose proof (occ_nonneg v k). lia.
Qed.

Lemma occ_le_length v dice : occ v dice ≤ Z.of_nat (length dice).
Proof. unfold occ. pose proof (length_filter (λ x, x = v) dice). lia. Qed.

Lemma filter_eq_replicate v dice :
  filter (λ x, x = v) dice = replicate (Z.to_nat (occ v dice)) v.
Proof.
  unfold occ. rewrite Nat2Z.id.
  induction dice as [|x dice IH]; [done|].
  rewrite filter_cons. case_decide; subst; [|done].
  cbn [length replicate]. by f_equal.
Qed.

Lemma replicate_submseteq (k : nat) v dice :
  Z.of_nat k ≤ occ v dice → replicate k v ⊆+ dice.
Proof.
  intros Hk. trans (filter (λ x, x = v) dice).
  - rewrite filter_eq_replicate.
    replace (Z.to_nat (occ v dice)) with (k + (Z.to_nat (occ v dice) - k))%nat by lia.
    rewrite replicate_add. apply submseteq_inserts_r. done.
  - apply sublist_submseteq, sublist_filter.
Qed.

Lemma occ_replicate (k : nat) v w :
  occ w (replicate k v) = if decide (w = v) then Z.of_nat k else 0.
Proof.
  induction k as [|k IH]; [by case_decide|].
  cbn [replicate]. rewrite occ_cons, IH. repeat case_decide; subst; try done; lia.
Qed.

Lemma remove_dups_Permutation s1 s2 : s1 ≡ₚ s2 → remove_dups s1 ≡ₚ remove_dups s2.
Proof.
  intros H. apply NoDup_Permutation; [apply NoDup_remove_dups ..|].
  intros x. by rewrite !elem_of_remove_dups, H.
Qed.

Lemma count_occ_Permutation (c : Z) s1 s2 :
  s1 ≡ₚ s2 →
  length (filter (λ v, occ v s1 = c) (remove_dups s1))
  = length (filter (λ v, occ v s2 = c) (remove_dups s2)).
Proof.
  intros H. rewrite (remove_dups_Permutation _ _ H).
  f_equal. apply list_filter_iff. intros v. by rewrite (occ_Permutation v _ _ H).
Qed.

Lemma three_pairs_Permutation s1 s2 : s1 ≡ₚ s2 → three_pairs s1 → three_pairs s2.
Proof.
  intros H [Hl Hp]. split; [by rewrite <- H|].
  by rewrite <- (count_occ_Permutation 2 _ _ H).
Qed.

(** Three equal faces, or more, score. *)
Lemma scoreSelection_replicate (k : nat) v :
  is_face v → (3 ≤ k ≤ 6)%nat → is_Some (scoreSelection (replicate k v)).
Proof.
  intros Hv Hk.
  assert (v ∈ faces) as Hin by (by apply faces_is_face).
  assert (k ∈ [3; 4; 5; 6]%nat) as Hk'.
  { rewrite !elem_of_cons. lia. }
  revert Hin Hk'. unfold faces. rewrite !elem_of_cons, !elem_of_nil.
  intros [->|[->|[->|[->|[->|[->|[]]]]]]] [->|[->|[->|[->|[]]]]]; vm_compute; eauto.
Qed.

Lemma scoreSelection_special dice :
  (length dice ≤ 6)%nat → full_straight dice ∨ three_pairs dice →
  is_Some (scoreSelection dice).
Proof.
  intros Hlen H. rewrite scoreSelection_refines.
  - unfold scoreSelection_spec.
    assert (dice ≠ []) by (destruct H as [[? _]|[? _]]; by intros ->).
    rewrite decide_False by done.
    destruct (decide (full_straight dice)); [eauto|].
    rewrite decide_True by tauto. eauto.
  - apply Forall_forall. intros v _. pose proof (occ_le_length v dice). lia.
Qed.

(** A selection scores only with dice that count: every face in it is a
    one, a five, occurs at least three times in it, or the selection is one
    of the three six-dice combinations. *)
Lemma scoring_selection_faces s v :
  Forall is_face s → Forall (λ w, occ w s ≤ 6) faces →
  is_Some (scoreSelection s) → v ∈ s →
  v = 1 ∨ v = 5 ∨ 3 ≤ occ v s ∨ full_straight s ∨ three_pairs s ∨ two_triplets s.
Proof.
  intros Hf Hsix Hs Hv. rewrite scoreSelection_refines in Hs by done.
  unfold scoreSelection_spec in Hs.
  destruct (decide (s = [])); [by destruct Hs|].
  destruct (decide (full_straight s)); [tauto|].
  destruct (decide (three_pairs s)); [tauto|].
  destruct (decide (two_triplets s)); [tauto|].
  destruct (decide (bad_leftover s)) as [|Hb]; [by destruct Hs|].
  destruct (decide (v = 1)); [tauto|]. destruct (decide (v = 5)); [tauto|].
  destruct (decide (3 ≤ occ v s)); [tauto|]. exfalso. apply Hb.
  apply Exists_exists. exists v. split.
  - apply faces_is_face. by eapply Forall_forall in Hf.
  - split; [done|]. split; [done|]. unfold leftover, leftover_of.
    rewrite decide_False by done. by apply occ_pos.
Qed.

End selections.

Section bust.
Implicit Types (dice s : list Z) (v : Z).

Lemma isFarkle_no_selection dice s :
  Forall is_face dice → (length dice ≤ 6)%nat →
  isFarkle dice = true → s ⊆+ dice → scoreSelection s = None.
Proof.
  intros Hf Hlen Hbust Hsub.
  destruct (decide (dice = [])) as [->|Hne].
  { apply submseteq_nil_r in Hsub as ->. done. }
  apply isFarkle_spec in Hbust; [|done].
  destruct (scoreSelection s) as [x|] eqn:E; [exfalso|done].
  destruct s as [|v s']; [done|]. set (s := v :: s') in *.
  assert (Forall is_face s) as Hfs.
  { apply Forall_forall. intros w Hw. rewrite Forall_forall in Hf.
    apply Hf. by eapply elem_of_submseteq. }
  assert (∀ w, occ w s ≤ 6) as Hsix.
  { intros w. pose proof (occ_le_length w s). apply submseteq_length in Hsub. lia. }
  destruct (scoring_selection_faces s v Hfs) as [->|[->|[H3|[Hs|[Hp|Ht]]]]].
  - apply Forall_forall. auto.
  - by rewrite E.
  - by left.
  - apply Hbust. left. eapply elem_of_submseteq; [|done]. by left.
  - apply Hbust. right. left. eapply elem_of_submseteq; [|done]. by left.
  - apply Hbust. do 2 right. left. exists v.
    pose proof (occ_submseteq v _ _ Hsub). lia.
  - apply Hbust. left. eapply elem_of_submseteq; [|done].
    destruct Hs as [_ Hs]. rewrite Forall_forall in Hs.
    apply occ_pos. rewrite (Hs 1); [lia|]. unfold faces. by left.
  - apply Hbust. do 4 right. apply (three_pairs_Permutation s); [|done].
    apply submseteq_length_Permutation; [done|]. destruct Hp as [-> _]. done.
  - destruct Ht as [_ Ht].
    destruct (filter (λ w, occ w s = 3) (remove_dups s)) as [|w l] eqn:Ef; [done|].
    assert (w ∈ filter (λ w, occ w s = 3) (remove_dups s)) as Hw by (rewrite Ef; by left).
    apply list_elem_of_filter in Hw as [Hw _].
    apply Hbust. do 2 right. left. exists w.
    pose proof (occ_submseteq w _ _ Hsub). lia.
Qed.

Lemma selection_of_opportunity dice :
  Forall is_face dice → (length dice ≤ 6)%nat → scoring_opportunity dice →
  ∃ s, s ⊆+ dice ∧ is_Some (scoreSelection s).
Proof.
  intros Hf Hlen [H1|[H5|[[v H3]|H]]].
  - exists [1]. split; [by apply singleton_submseteq_l|]. vm_compute. eauto.
  - exists [5]. split; [by apply singleton_submseteq_l|]. vm_compute. eauto.
  - exists (replicate 3 v). split; [apply replicate_submseteq; lia|].
    apply scoreSelection_replicate; [|lia].
    rewrite Forall_forall in Hf. apply Hf, occ_pos. lia.
  - exists dice. split; [done|]. by apply scoreSelection_special.
Qed.

End bust.

(** X1.  A roll is a bust exactly when nothing in it can be kept: for at
    most six dice showing faces 1-6, [isFarkle] holds if and only if
    [scoreSelection] rejects every selection of dice from the roll. *)
Theorem isFarkle_iff_no_selection_scores (dice : list Z) :
  Forall is_face dice → (length dice ≤ 6)%nat →
  isFarkle dice = true ↔ ∀ s, s ⊆+ dice → scoreSelection s = None.
Proof.
  intros Hf Hlen. split.
  - intros Hbust s Hs. by apply (isFarkle_no_selection dice).
  - intros Hnone. destruct (decide (dice = [])) as [->|Hne]; [done|].
    apply isFarkle_spec; [done|]. intros Hop.
    destruct (selection_of_opportunity dice Hf Hlen Hop) as (s & Hsub & Hs).
    rewrite (Hnone s Hsub) in Hs. by destruct Hs.
Qed.

(** X1 on the roll 2,3,4,6,2,3. *)
Lemma isFarkle_iff_no_selection_scores_witness :
  isFarkle [2; 3; 4; 6; 2; 3] = true
  ↔ ∀ s, s ⊆+ [2; 3; 4; 6; 2; 3] → scoreSelection s = None.
Proof.
  apply (isFarkle_iff_no_selection_scores [2; 3; 4; 6; 2; 3]).
  - repeat constructor; unfold is_face; lia.
  - simpl. lia.
Defined.

Section breakdown.
Implicit Types (vs : list Z) (rem : gmap Z Z) (b : list Entry.t).

(** Sum of the scores of a breakdown. *)
Lemma total_of_app (l1 l2 : list Z) : total_of (l1 ++ l2) = total_of l1 + total_of l2.
Proof. unfold total_of. induction l1 as [|x l1 IH]; simpl; lia. Qed.

Lemma total_of_replicate (n : nat) (x : Z) : total_of (replicate n x) = Z.of_nat n * x.
Proof. unfold total_of. induction n as [|n IH]; [done|]. cbn [replicate foldr]. lia. Qed.

Lemma describe_multiple_loop vs : ∀ s b rem,
  total_of (Entry.score <$> b) = s →
  ∃ b', foldl describe_multiple (b, rem) vs
        = (b', (foldl extract_multiple (s, rem) vs).2)
        ∧ total_of (Entry.score <$> b') = (foldl extract_multiple (s, rem) vs).1.
Proof.
  induction vs as [|v vs IH]; intros s b rem Hb; [by exists b|].
  cbn [foldl]. unfold describe_multiple at 2, extract_multiple at 2 4.
  repeat case_decide; apply IH; rewrite ?fmap_app, ?total_of_app, ?Hb; simpl; lia.
Qed.

Lemma describe_single_loop vs : ∀ s b rem st,
  total_of (Entry.score <$> b) = s →
  foldl score_single (Some (s, rem)) vs = Some st →
  total_of (Entry.score <$> (foldl describe_single (b, rem) vs).1) = st.1.
Proof.
  induction vs as [|v vs IH]; intros s b rem st Hb Hst.
  { simpl in *. by simplify_eq. }
  cbn [foldl] in *. unfold describe_single at 2. unfold score_single at 2 in Hst.
  cbn [mbind option_bind] in Hst.
  case_decide as Hc; [|by eapply IH].
  destruct (SINGLE_SCORES !! v) as [x|] eqn:E.
  - eapply IH; [|done]. rewrite fmap_app, total_of_app, fmap_replicate.
    simpl. rewrite total_of_replicate. lia.
  - by rewrite score_single_None in Hst.
Qed.

End breakdown.

(** X2.  The breakdown shown for a selection adds up to its score:
    whenever [scoreSelection] accepts a selection, the scores of the entries
    of [describeSelection] sum to the value [scoreSelection] returns. *)
Theorem describeSelection_adds_up (dice : list Z) (score : Z) :
  scoreSelection dice = Some score →
  total_of (Entry.score <$> describeSelection dice) = score.
Proof.
  unfold scoreSelection, describeSelection. intros H.
  case_decide; [done|].
  destruct (_ && is_straight _); [by simplify_eq|].
  destruct (_ && bool_decide (count_values 2 _ = _)); [by simplify_eq|].
  destruct (_ && bool_decide (count_values 3 _ = _)); [by simplify_eq|].
  destruct (describe_multiple_loop faces 0 [] (countFrequency dice) eq_refl)
    as (b' & Hb' & Htot).
  rewrite Hb'.
  destruct (foldl extract_multiple (0, countFrequency dice) faces) as [s rem] eqn:E.
  cbn [fst snd] in *.
  destruct (foldl score_single (Some (s, rem)) faces) as [[s' rem']|] eqn:E2;
    cbn [mbind option_bind] in H; [|done].
  case_decide; [|done]. injection H as <-.
  by rewrite (describe_single_loop faces s b' rem (s', rem') Htot E2).
Qed.

(** X2 on the selection 1,1,1,5,1: four ones and a five. *)
Lemma describeSelection_adds_up_witness :
  total_of (Entry.score <$> describeSelection [1; 1; 1; 5; 1]) = 2050.
Proof. apply (describeSelection_adds_up [1; 1; 1; 5; 1]). vm_compute. reflexivity. Defined.

Section scorable.
Implicit Types (dice : list Z) (indices : list nat) (v : Z) (idx : nat).

Lemma full_straight_Permutation s1 s2 : s1 ≡ₚ s2 → full_straight s1 → full_straight s2.
Proof.
  intros H [Hl Hp]. split; [by rewrite <- H|].
  eapply Forall_impl; [done|]. intros v Hv. by rewrite <- (occ_Permutation v _ _ H).
Qed.

Lemma two_triplets_Permutation s1 s2 : s1 ≡ₚ s2 → two_triplets s1 → two_triplets s2.
Proof.
  intros H [Hl Hp]. split; [by rewrite <- H|].
  by rewrite <- (count_occ_Permutation 3 _ _ H).
Qed.

Lemma scoreSelection_combination dice :
  (length dice ≤ 6)%nat →
  full_straight dice ∨ three_pairs dice ∨ two_triplets dice →
  is_Some (scoreSelection dice).
Proof.
  intros Hlen H. rewrite scoreSelection_refines.
  - unfold scoreSelection_spec.
    assert (dice ≠ []) by (destruct H as [[? _]|[[? _]|[? _]]]; by intros ->).
    rewrite decide_False by done.
    destruct (decide (full_straight dice)); [eauto|].
    destruct (decide (three_pairs dice)); [eauto|].
    rewrite decide_True by tauto. eauto.
  - apply Forall_forall. intros v _. pose proof (occ_le_length v dice). lia.
Qed.

Lemma elem_of_add_all idx indices (s0 : JsSet.t) :
  idx ∈ add_all indices s0 ↔ idx ∈ s0 ∨ idx ∈ indices.
Proof.
  unfold add_all. revert s0. induction indices as [|i l IH]; intros s0; simpl.
  - rewrite elem_of_nil. tauto.
  - rewrite IH, JsSet_elem_of_add, elem_of_cons. tauto.
Qed.

Lemma elem_of_add_matching (p : Z → bool) dice indices (s0 : JsSet.t) idx :
  idx ∈ add_matching p dice indices s0
  ↔ idx ∈ s0 ∨ ∃ k d, dice !! k = Some d ∧ p d = true ∧ indices !! k = Some idx.
Proof.
  unfold add_matching.
  assert (∀ (l : list (nat * Z)) (s0 : JsSet.t),
            idx ∈ foldl (λ s id,
                           if p id.2 then
                             match indices !! id.1 with
                             | Some i => JsSet.add i s
                             | None => s
                             end
                           else s) s0 l
            ↔ idx ∈ s0 ∨ ∃ k d, (k, d) ∈ l ∧ p d = true ∧ indices !! k = Some idx) as H.
  { induction l as [|[k d] l IH]; intros s1; cbn [foldl].
    - split; [auto|]. intros [?|(k & d & Hin & _)]; [done|]. by apply elem_of_nil in Hin.
    - rewrite IH. cbn [fst snd]. split.
      + intros [Hin|(k' & d' & Hin & Hp & Hi)].
        * destruct (p d) eqn:Ep; [|by left].
          destruct (indices !! k) as [i|] eqn:Ei; [|by left].
          apply JsSet_elem_of_add in Hin as [->|Hin]; [|by left].
          right. exists k, d. split; [by left|done].
        * right. exists k', d'. split; [by right|done].
      + intros [Hin|(k' & d' & Hin & Hp & Hi)].
        * left. destruct (p d); [|done]. destruct (indices !! k); [|done].
          apply JsSet_elem_of_add. by right.
        * apply elem_of_cons in Hin as [[= -> ->]|Hin].
          -- left. rewrite Hp, Hi. apply JsSet_elem_of_add. by left.
          -- right. by exists k', d'. }
  rewrite H. split; intros [?|(k & d & Hin & ?)]; auto; right; exists k, d.
  - apply elem_of_lookup_imap in Hin as (i & y & [= -> ->] & Hy). done.
  - split; [|done]. apply elem_of_lookup_imap. by exists k, d.
Qed.

Lemma elem_of_multiples dice indices (vals : list Z) (s0 : JsSet.t) idx :
  idx ∈ foldl (λ s val,
                 if bool_decide (3 ≤ or0 (countFrequency dice !! val))
                 then add_matching (λ d, bool_decide (d = val)) dice indices s
                 else s) s0 vals
  ↔ idx ∈ s0 ∨ ∃ k d, d ∈ vals ∧ 3 ≤ occ d dice
                       ∧ dice !! k = Some d ∧ indices !! k = Some idx.
Proof.
  revert s0. induction vals as [|val vals IH]; intros s0; cbn [foldl].
  - split; [auto|]. intros [?|(k & d & Hin & _)]; [done|]. by apply elem_of_nil in Hin.
  - rewrite IH, countFrequency_or0. split.
    + intros [Hin|(k & d & Hin & ?)].
      * case_bool_decide as H3; [|by left].
        apply elem_of_add_matching in Hin as [?|(k & d & Hk & Hd & Hi)]; [by left|].
        apply bool_decide_eq_true in Hd as ->.
        right. exists k, val. split; [by left|done].
      * right. exists k, d. split; [by right|done].
    + intros [Hin|(k & d & Hin & H3 & Hk & Hi)].
      * left. case_bool_decide; [|done]. apply elem_of_add_matching. by left.
      * apply elem_of_cons in Hin as [->|Hin].
        -- left. rewrite bool_decide_eq_true_2 by done.
           apply elem_of_add_matching. right. exists k, val.
           split; [done|]. split; [by apply bool_decide_eq_true|done].
        -- right. by exists k, d.
Qed.

(** The dice that [findScorableDiceIndices] marks. *)
Lemma elem_of_findScorableDiceIndices dice indices idx :
  idx ∈ findScorableDiceIndices dice indices
  ↔ (∃ k d, dice !! k = Some d ∧ indices !! k = Some idx
             ∧ (d = 1 ∨ d = 5 ∨ (is_face d ∧ 3 ≤ occ d dice)))
    ∨ (idx ∈ indices
       ∧ (full_straight dice ∨ three_pairs dice ∨ two_triplets dice)).
Proof.
  unfold findScorableDiceIndices.
  set (s1 := foldl _ _ faces).
  assert (idx ∈ s1
          ↔ ∃ k d, dice !! k = Some d ∧ indices !! k = Some idx
                   ∧ (d = 1 ∨ d = 5 ∨ (is_face d ∧ 3 ≤ occ d dice))) as H1.
  { unfold s1. rewrite elem_of_multiples, elem_of_add_matching.
    unfold JsSet.empty. rewrite elem_of_nil. split.
    - intros [[[]|(k & d & Hk & Hp & Hi)]|(k & d & Hd & H3 & Hk & Hi)].
      + exists k, d. split; [done|]. split; [done|].
        apply orb_true_iff in Hp as [->%bool_decide_eq_true| ->%bool_decide_eq_true]; auto.
      + exists k, d. split; [done|]. split; [done|]. right. right.
        split; [by apply faces_is_face|done].
    - intros (k & d & Hk & Hi & [->|[->|[Hf H3]]]).
      + left. right. by exists k, 1.
      + left. right. by exists k, 5.
      + right. exists k, d. split; [by apply faces_is_face|done]. }
  unfold full_straight, three_pairs, two_triplets.
  rewrite <- is_straight_countFrequency, <- !count_values_countFrequency.
  case_bool_decide as Hlen; [|rewrite H1; split; [auto|]; intros [?|[_ H]]; [done|]; tauto].
  destruct (is_straight (countFrequency dice)) eqn:Es;
    repeat case_bool_decide; rewrite ?elem_of_add_all, H1;
    split; try tauto;
    intros [?|[? [[_ ?]|[[_ ?]|[_ ?]]]]]; try tauto; try done; try congruence.
Qed.

End scorable.

(** X4.  [findScorableDiceIndices] marks exactly the dice that can be kept:
    for at most six dice showing faces 1-6, with one distinct index per
    die, every marked index is one of the given indices, and the index of a
    die is marked if and only if some selection from the roll that contains
    the face of that die is accepted by [scoreSelection]. *)
Theorem findScorableDiceIndices_marks_scoring_dice
    (dice : list Z) (indices : list nat) :
  Forall is_face dice → (length dice ≤ 6)%nat →
  length indices = length dice → NoDup indices →
  (∀ idx, idx ∈ findScorableDiceIndices dice indices → idx ∈ indices)
  ∧ (∀ k v idx,
       dice !! k = Some v → indices !! k = Some idx →
       idx ∈ findScorableDiceIndices dice indices
       ↔ ∃ s, s ⊆+ dice ∧ v ∈ s ∧ is_Some (scoreSelection s)).
Proof.
  intros Hf Hlen Hl Hnd. split.
  { intros idx [(k & d & _ & Hi & _)|[Hin _]]%elem_of_findScorableDiceIndices; [|done].
    by eapply list_elem_of_lookup_2. }
  intros k v idx Hk Hi. rewrite elem_of_findScorableDiceIndices. split.
  - intros [(k' & d & Hk' & Hi' & Hd)|[_ Hc]].
    + assert (k' = k) as -> by (by eapply NoDup_lookup).
      assert (d = v) as -> by congruence.
      destruct Hd as [->|[->|[Hv H3]]].
      * exists [1]. split; [apply singleton_submseteq_l; by eapply list_elem_of_lookup_2|].
        split; [by left|]. vm_compute. eauto.
      * exists [5]. split; [apply singleton_submseteq_l; by eapply list_elem_of_lookup_2|].
        split; [by left|]. vm_compute. eauto.
      * exists (replicate 3 v). split; [apply replicate_submseteq; lia|].
        split; [by left|]. apply scoreSelection_replicate; [done|lia].
    + exists dice. split; [done|]. split; [by eapply list_elem_of_lookup_2|].
      by apply scoreSelection_combination.
  - intros (s & Hsub & Hv & Hs).
    assert (Forall is_face s) as Hfs.
    { apply Forall_forall. intros w Hw. rewrite Forall_forall in Hf.
      apply Hf. by eapply elem_of_submseteq. }
    assert (Forall (λ w, occ w s ≤ 6) faces) as Hsix.
    { apply Forall_forall. intros w _. pose proof (occ_le_length w s).
      apply submseteq_length in Hsub. lia. }
    assert (∀ P : list Z → Prop,
              (∀ s1 s2, s1 ≡ₚ s2 → P s1 → P s2) → length s = 6%nat → P s → P dice) as Hall.
    { intros P HP Hsl HPs. apply (HP s); [|done].
      apply submseteq_length_Permutation; [done|]. lia. }
    destruct (scoring_selection_faces s v Hfs Hsix Hs Hv) as [->|[->|[H3|[Hc|[Hc|Hc]]]]].
    + left. exists k, 1. auto.
    + left. exists k, 5. auto.
    + left. exists k, v. split; [done|]. split; [done|]. right. right. split.
      * rewrite Forall_forall in Hfs. by apply Hfs.
      * pose proof (occ_submseteq v _ _ Hsub). lia.
    + right. split; [by eapply list_elem_of_lookup_2|]. left.
      apply (Hall full_straight full_straight_Permutation); [by destruct Hc|done].
    + right. split; [by eapply list_elem_of_lookup_2|]. right. left.
      apply (Hall three_pairs three_pairs_Permutation); [by destruct Hc|done].
    + right. split; [by eapply list_elem_of_lookup_2|]. right. right.
      apply (Hall two_triplets two_triplets_Permutation); [by destruct Hc|done].
Qed.

(** X4 on the dice 2,3,3,3,5 at the indices 0,2,3,4,5: the first three and
    the two. *)
Lemma findScorableDiceIndices_marks_scoring_dice_witness :
  (2%nat ∈ findScorableDiceIndices [2; 3; 3; 3; 5] [0; 2; 3; 4; 5]%nat
   ↔ ∃ s, s ⊆+ [2; 3; 3; 3; 5] ∧ 3 ∈ s ∧ is_Some (scoreSelection s))
  ∧ (0%nat ∈ findScorableDiceIndices [2; 3; 3; 3; 5] [0; 2; 3; 4; 5]%nat
     ↔ ∃ s, s ⊆+ [2; 3; 3; 3; 5] ∧ 2 ∈ s ∧ is_Some (scoreSelection s)).
Proof.
  destruct (findScorableDiceIndices_marks_scoring_dice
              [2; 3; 3; 3; 5] [0; 2; 3; 4; 5]%nat) as [_ H].
  - repeat constructor; unfold is_face; lia.
  - simpl. lia.
  - reflexivity.
  - compute_done.
  - split; [apply (H 1%nat 3 2%nat) | apply (H 0%nat 2 0%nat)]; reflexivity.
Defined.

Section combinations.
Implicit Types (dice : list Z) (v : Z) (c : Combo.t).

Lemma truthy_countFrequency dice v : truthy (countFrequency dice !! v) = true ↔ v ∈ dice.
Proof.
  rewrite countFrequency_lookup. case_decide as Hin; simpl; [|by split].
  pose proof (proj2 (occ_pos v dice) Hin).
  rewrite bool_decide_eq_false_2 by lia. by split.
Qed.

(** Two triplets use all six dice, so they leave no room for three pairs. *)
Lemma two_triplets_not_three_pairs dice :
  two_triplets dice → ¬ three_pairs dice.
Proof.
  intros [Hlen Ht] [_ Hp].
  pose proof (total_occ (remove_dups dice) dice (NoDup_remove_dups dice)) as Hsum.
  specialize (Hsum ltac:(intros x Hx; by rewrite elem_of_remove_dups)).
  rewrite Hlen in Hsum.
  assert (∀ l : list Z,
            (∀ x, x ∈ l → 0 ≤ occ x dice) →
            3 * Z.of_nat (length (filter (λ v, occ v dice = 3) l))
            + 2 * Z.of_nat (length (filter (λ v, occ v dice = 2) l))
            ≤ total_of ((λ k, occ k dice) <$> l)) as H.
  { induction l as [|x l IH]; intros Hpos; [done|].
    rewrite fmap_cons, !filter_cons. unfold total_of in *. cbn [foldr].
    specialize (IH ltac:(intros y Hy; apply Hpos; by right)).
    pose proof (Hpos x ltac:(by left)).
    repeat case_decide; cbn [length]; lia. }
  specialize (H (remove_dups dice) ltac:(intros; apply occ_nonneg)). lia.
Qed.

Lemma scoreSelection_kind (k : nat) v :
  v ∈ faces → (3 ≤ k ≤ 6)%nat →
  scoreSelection (replicate k v)
  = Some (or0 (TRIPLE_BASE !! v) * 2 ^ (Z.of_nat k - 3)).
Proof.
  intros Hin Hk.
  assert (k ∈ [3; 4; 5; 6]%nat) as Hk'.
  { rewrite !elem_of_cons. lia. }
  revert Hin Hk'. unfold faces. rewrite !elem_of_cons, !elem_of_nil.
  intros [->|[->|[->|[->|[->|[->|[]]]]]]] [->|[->|[->|[->|[]]]]]; vm_compute; done.
Qed.

(** Every combination listed can be taken: some selection of [diceCount]
    dice from the roll scores what the entry says. *)
Lemma combination_selectable dice c :
  Forall is_face dice → (length dice ≤ 6)%nat →
  c ∈ getAvailableCombinations dice →
  ∃ s, s ⊆+ dice ∧ Z.of_nat (length s) = Combo.diceCount c
       ∧ scoreSelection s = Some (Combo.score c).
Proof.
  intros Hf Hlen. unfold getAvailableCombinations.
  case_decide as Hne; [by intros ?%elem_of_nil|].
  assert (Forall (λ w, occ w dice ≤ 6) faces) as Hsix.
  { apply Forall_forall. intros w _. pose proof (occ_le_length w dice). lia. }
  rewrite !elem_of_app. intros [Hc|[Hc|[Hc|Hc]]].
  - case_bool_decide as H6; [|by apply elem_of_nil in Hc].
    exists dice. split; [done|].
    rewrite scoreSelection_refines by done. unfold scoreSelection_spec.
    rewrite decide_False by (by intros ->).
    rewrite !elem_of_app in Hc. destruct Hc as [Hc|[Hc|Hc]].
    + destruct (is_straight _) eqn:Es; [|by apply elem_of_nil in Hc].
      apply list_elem_of_singleton in Hc as ->. cbn. split; [lia|].
      rewrite decide_True; [done|]. split; [done|]. by apply is_straight_countFrequency.
    + case_bool_decide as Hp; [|by apply elem_of_nil in Hc].
      apply list_elem_of_singleton in Hc as ->. cbn. split; [lia|].
      rewrite count_values_countFrequency in Hp.
      assert (three_pairs dice) as Htp by done.
      destruct (decide (full_straight dice)) as [[_ Hs]|].
      { exfalso. destruct (filter _ _) as [|w l] eqn:Ef; [done|].
        assert (w ∈ filter (λ v, occ v dice = 2) (remove_dups dice)) as Hw
          by (rewrite Ef; by left).
        apply list_elem_of_filter in Hw as [Hw2 Hw]. rewrite elem_of_remove_dups in Hw.
        rewrite Forall_forall in Hs, Hf.
        rewrite (Hs w) in Hw2; [lia|]. by apply faces_is_face, Hf. }
      by rewrite decide_True.
    + case_bool_decide as Ht; [|by apply elem_of_nil in Hc].
      apply list_elem_of_singleton in Hc as ->. cbn. split; [lia|].
      rewrite count_values_countFrequency in Ht.
      assert (two_triplets dice) as Htt by done.
      destruct (decide (full_straight dice)) as [[_ Hs]|].
      { exfalso. destruct (filter _ _) as [|w l] eqn:Ef; [done|].
        assert (w ∈ filter (λ v, occ v dice = 3) (remove_dups dice)) as Hw
          by (rewrite Ef; by left).
        apply list_elem_of_filter in Hw as [Hw3 Hw]. rewrite elem_of_remove_dups in Hw.
        rewrite Forall_forall in Hs, Hf.
        rewrite (Hs w) in Hw3; [lia|]. by apply faces_is_face, Hf. }
      rewrite decide_False by (by apply two_triplets_not_three_pairs).
      by rewrite decide_True.
  - apply list_elem_of_bind in Hc as (val & Hc & Hval).
    unfold multiples_of in Hc. rewrite countFrequency_or0 in Hc.
    rewrite !elem_of_app in Hc.
    assert (∀ (k : nat) (c' : Combo.t),
              (3 ≤ k ≤ 6)%nat → Z.of_nat k ≤ occ val dice →
              Combo.diceCount c' = Z.of_nat k →
              Combo.score c' = or0 (TRIPLE_BASE !! val) * 2 ^ (Z.of_nat k - 3) →
              ∃ s, s ⊆+ dice ∧ Z.of_nat (length s) = Combo.diceCount c'
                   ∧ scoreSelection s = Some (Combo.score c')) as Hk.
    { intros k c' Hk Hocc Hd Hs. exists (replicate k val).
      split; [by apply replicate_submseteq|].
      rewrite length_replicate, Hd, Hs. split; [done|]. by apply scoreSelection_kind. }
    destruct Hc as [Hc|[Hc|[Hc|Hc]]];
      (case_decide; [|by apply elem_of_nil in Hc]);
      apply list_elem_of_singleton in Hc as ->.
    + apply (Hk 6%nat); [lia|lia|done|cbn; lia].
    + apply (Hk 5%nat); [lia|lia|done|cbn; lia].
    + apply (Hk 4%nat); [lia|lia|done|cbn; lia].
    + apply (Hk 3%nat); [lia|lia|done|cbn; lia].
  - destruct (truthy _) eqn:E; [|by apply elem_of_nil in Hc].
    apply list_elem_of_singleton in Hc as ->. apply truthy_countFrequency in E.
    exists [1]. split; [by apply singleton_submseteq_l|]. done.
  - destruct (truthy _) eqn:E; [|by apply elem_of_nil in Hc].
    apply list_elem_of_singleton in Hc as ->. apply truthy_countFrequency in E.
    exists [5]. split; [by apply singleton_submseteq_l|]. done.
Qed.

(** A roll with a scoring opportunity lists a combination. *)
Lemma opportunity_listed dice :
  Forall is_face dice → dice ≠ [] → scoring_opportunity dice →
  getAvailableCombinations dice ≠ [].
Proof.
  intros Hf Hne Hop. unfold getAvailableCombinations.
  rewrite decide_False by (intros Hl; by apply nil_length_inv in Hl).
  intros Hnil. apply app_eq_nil in Hnil as [Hsp Hnil].
  apply app_eq_nil in Hnil as [Hmul Hnil].
  apply app_eq_nil in Hnil as [H1 H5].
  destruct Hop as [Hop|[Hop|[[v H3]|Hop]]].
  - apply truthy_countFrequency in Hop. by rewrite Hop in H1.
  - apply truthy_countFrequency in Hop. by rewrite Hop in H5.
  - assert (v ∈ faces) as Hv.
    { apply faces_is_face. rewrite Forall_forall in Hf. apply Hf, occ_pos. lia. }
    assert (multiples_of (countFrequency dice) v = []) as Hm.
    { destruct (multiples_of (countFrequency dice) v) as [|c l] eqn:Em; [done|].
      exfalso. assert (c ∈ faces ≫= multiples_of (countFrequency dice)) as Hc.
      { apply list_elem_of_bind. exists v. rewrite Em. split; [by left|done]. }
      rewrite Hmul in Hc. by apply elem_of_nil in Hc. }
    unfold multiples_of in Hm. rewrite countFrequency_or0 in Hm.
    do 3 apply app_eq_nil in Hm as [_ Hm]. by rewrite decide_True in Hm.
  - assert (length dice = 6%nat) as H6 by (destruct Hop as [[? _]|[? _]]; done).
    rewrite bool_decide_eq_true_2 in Hsp by done.
    apply app_eq_nil in Hsp as [Hs Hsp]. apply app_eq_nil in Hsp as [Hp _].
    destruct Hop as [[_ Hop]|[_ Hop]].
    + apply is_straight_countFrequency in Hop. by rewrite Hop in Hs.
    + rewrite <- count_values_countFrequency in Hop.
      by rewrite bool_decide_eq_true_2 in Hp.
Qed.

End combinations.

(** X3.  The scoring hints agree with the rules: for at most six dice
    showing faces 1-6, [getAvailableCombinations] lists nothing exactly when
    the roll is a bust, and every entry it lists can be taken, that is, some
    selection of [diceCount] dice from the roll is scored by
    [scoreSelection] with the entry's score. *)
Theorem getAvailableCombinations_sound (dice : list Z) :
  Forall is_face dice → (length dice ≤ 6)%nat →
  (getAvailableCombinations dice = [] ↔ isFarkle dice = true)
  ∧ (∀ c, c ∈ getAvailableCombinations dice →
          ∃ s, s ⊆+ dice ∧ Z.of_nat (length s) = Combo.diceCount c
               ∧ scoreSelection s = Some (Combo.score c)).
Proof.
  intros Hf Hlen. split; [|intros c; by apply combination_selectable].
  destruct (decide (dice = [])) as [->|Hne]; [done|]. split.
  - intros Hnil. apply isFarkle_spec; [done|]. intros Hop.
    by apply (opportunity_listed dice).
  - intros Hbust. destruct (getAvailableCombinations dice) as [|c l] eqn:E; [done|].
    destruct (combination_selectable dice c Hf Hlen) as (s & Hsub & _ & Hs).
    { rewrite E. by left. }
    by rewrite (isFarkle_no_selection dice s) in Hs.
Qed.

(** X3 on the roll 2,3,4,6. *)
Lemma getAvailableCombinations_sound_witness :
  getAvailableCombinations [2; 3; 4; 6] = [] ↔ isFarkle [2; 3; 4; 6] = true.
Proof.
  apply (getAvailableCombinations_sound [2; 3; 4; 6]).
  - repeat constructor; unfold is_face; lia.
  - simpl. lia.
Defined.

(** * The dice engine: rolls and holds *)

Section dice_rolls.
Import DiceEngine.
Implicit Types (e : DiceEngine.t) (rnd : nat → Z).

Lemma array_set_in_range {A} (pad x : A) (i : nat) (a : list A) :
  (i < length a)%nat → array_set pad i x a = <[i := x]> a.
Proof. intros H. unfold array_set. by rewrite decide_True. Qed.

(** The loop of [roll] over the first [n] dice. *)
Lemma roll_loop rnd (hs : list bool) (n : nat) (vs : list Z) :
  (n ≤ length vs)%nat →
  let vs' := foldl (λ vs i, if default false (hs !! i) then vs
                            else array_set 0 i (rnd i) vs) vs (seq 0 n) in
  length vs' = length vs
  ∧ ∀ i, vs' !! i = if decide (i < n)%nat
                    then (if default false (hs !! i) then vs !! i
                          else Some (rnd i))
                    else vs !! i.
Proof.
  induction n as [|n IH]; intros Hn; cbn zeta.
  { split; [done|]. intros i. by rewrite decide_False by lia. }
  rewrite seq_S, foldl_app. cbn [foldl Nat.add].
  destruct IH as [IHl IHv]; [lia|]. cbn zeta in IHl, IHv.
  set (vs1 := foldl _ vs (seq 0 n)) in *.
  destruct (default false (hs !! n)) eqn:Eh.
  - split; [done|]. intros i. rewrite IHv.
    destruct (decide (i = n)) as [->|Hne].
    + rewrite decide_False by lia. rewrite decide_True by lia. by rewrite Eh.
    + repeat case_decide; try lia; done.
  - rewrite array_set_in_range by lia. split; [by rewrite length_insert|].
    intros i. destruct (decide (i = n)) as [->|Hne].
    + rewrite list_lookup_insert_eq by lia. rewrite decide_True by lia. by rewrite Eh.
    + rewrite list_lookup_insert_ne by done. rewrite IHv.
      repeat case_decide; try lia; done.
Qed.

End dice_rolls.

(** X5.  An accepted roll re-rolls exactly the dice that are not held: on
    an engine whose array of values has [count] cells, a roll that returns
    [true] leaves the held flags and the number of dice as they were, takes
    one roll from [rollsLeft], sets [hasRolled] and [isRolling], keeps the
    value of every held die and gives every other die its draw. *)
Theorem roll_rerolls_free_dice (rnd : nat → Z) (e : DiceEngine.t) :
  length (DiceEngine.values e) = DiceEngine.count e →
  (DiceEngine.roll rnd e).2 = true →
  let e' := (DiceEngine.roll rnd e).1 in
  length (DiceEngine.values e') = DiceEngine.count e
  ∧ DiceEngine.held e' = DiceEngine.held e
  ∧ DiceEngine.rollsLeft e' = DiceEngine.rollsLeft e - 1
  ∧ DiceEngine.hasRolled e' = true
  ∧ DiceEngine.isRolling e' = true
  ∧ ∀ i, (i < DiceEngine.count e)%nat →
         DiceEngine.values e' !! i
         = if default false (DiceEngine.held e !! i)
           then DiceEngine.values e !! i else Some (rnd i).
Proof.
  intros Hlen. unfold DiceEngine.roll.
  destruct (_ || _); [done|]. intros _. cbn.
  destruct (roll_loop rnd (DiceEngine.held e) (DiceEngine.count e)
              (DiceEngine.values e)) as [Hl Hv]; [lia|].
  cbn zeta in Hl, Hv. unfold DiceEngine.roll_values. cbn.
  split; [by rewrite Hl|]. do 4 (split; [done|]).
  intros i Hi. rewrite Hv. by rewrite decide_True.
Qed.

(** X5 on five dice of which the first and the last are held. *)
Lemma roll_rerolls_free_dice_witness :
  let e := DiceEngine.set_held [true; false; false; false; true]
             (DiceEngine.new 5 6 3) in
  DiceEngine.values (DiceEngine.roll (λ i, Z.of_nat i + 2) e).1 !! 0%nat = Some 1
  ∧ DiceEngine.values (DiceEngine.roll (λ i, Z.of_nat i + 2) e).1 !! 1%nat = Some 3.
Proof.
  intros e.
  destruct (roll_rerolls_free_dice (λ i, Z.of_nat i + 2) e)
    as (_ & _ & _ & _ & _ & H); [reflexivity ..|].
  split; [apply (H 0%nat) | apply (H 1%nat)]; vm_compute; lia.
Defined.

(** X6.  Holding is undone by a second toggle: when [toggleHold] accepts an
    index on an engine whose array of flags has [count] cells, it flips the
    flag of that die only, leaves values and rolls alone, and a second
    toggle of the same index is accepted and gives the engine back. *)
Theorem toggleHold_twice (index : Z) (e e1 : DiceEngine.t) :
  length (DiceEngine.held e) = DiceEngine.count e →
  DiceEngine.toggleHold index e = (e1, true) →
  DiceEngine.toggleHold index e1 = (e, true)
  ∧ DiceEngine.values e1 = DiceEngine.values e
  ∧ DiceEngine.rollsLeft e1 = DiceEngine.rollsLeft e
  ∧ (∀ b, DiceEngine.held e !! Z.to_nat index = Some b →
          DiceEngine.held e1 !! Z.to_nat index = Some (negb b))
  ∧ ∀ i, i ≠ Z.to_nat index →
         DiceEngine.held e1 !! i = DiceEngine.held e !! i.
Proof.
  intros Hlen. unfold DiceEngine.toggleHold.
  destruct (negb (DiceEngine.hasRolled e) || DiceEngine.isRolling e
            || bool_decide (DiceEngine.rollsLeft e = 0)) eqn:E1; [done|].
  destruct (bool_decide (index < 0)
            || bool_decide (Z.of_nat (DiceEngine.count e) ≤ index)) eqn:E2; [done|].
  apply orb_false_iff in E2 as [Hlo Hhi].
  apply bool_decide_eq_false in Hlo, Hhi.
  set (i := Z.to_nat index).
  assert (i < length (DiceEngine.held e))%nat as Hi by (unfold i; lia).
  destruct (lookup_lt_is_Some_2 _ _ Hi) as [b Hb].
  rewrite array_set_in_range by done. rewrite Hb. cbn [default].
  intros [= <-]. cbn. rewrite E1.
  rewrite bool_decide_eq_false_2 by done. rewrite bool_decide_eq_false_2 by done.
  cbn. rewrite array_set_in_range by (by rewrite length_insert).
  rewrite !list_lookup_insert_eq by done. cbn [default from_option]. unfold id.
  rewrite list_insert_insert_eq, negb_involutive, list_insert_id by done.
  split; [by destruct e|]. split; [done|]. split; [done|]. split.
  - by intros b' [= ->].
  - intros j Hj. by rewrite list_lookup_insert_ne.
Qed.

(** X6 on the third die after a first roll. *)
Lemma toggleHold_twice_witness :
  let e := DiceEngine.finishRoll (DiceEngine.roll (λ _, 4) (DiceEngine.new 5 6 3)).1 in
  DiceEngine.toggleHold 2 (DiceEngine.toggleHold 2 e).1 = (e, true).
Proof.
  intros e.
  apply (toggleHold_twice 2 e (DiceEngine.toggleHold 2 e).1); reflexivity.
Defined.

Section roll_budget.
Import DiceEngine.

Lemma roll_cycle_step rnd e :
  isRolling e = false → 0 ≤ rollsLeft e →
  let e' := finishRoll (roll rnd e).1 in
  isRolling e' = false
  ∧ rollsLeft e' = Z.max 0 (rollsLeft e - 1)
  ∧ maxRolls e' = maxRolls e.
Proof.
  intros Hr Hl. unfold roll. rewrite Hr, orb_false_r.
  case_bool_decide; cbn; (split; [done|]); split; try done; lia.
Qed.

End roll_budget.

(** X7.  A turn has exactly [rollsLeft] rolls: starting from an engine
    that is not rolling, after [n] rolls, each finished by the renderer,
    [rollsLeft] has gone down by [n] but not below 0, and a further roll is
    possible exactly when [n] is below the initial [rollsLeft]; after
    [reset] that number is [maxRolls]. *)
Theorem rolls_are_counted (rnds : list (nat → Z)) (e : DiceEngine.t) :
  DiceEngine.isRolling e = false → 0 ≤ DiceEngine.rollsLeft e →
  let cycle := λ e rnd, DiceEngine.finishRoll (DiceEngine.roll rnd e).1 in
  let n := Z.of_nat (length rnds) in
  DiceEngine.rollsLeft (foldl cycle e rnds) = Z.max 0 (DiceEngine.rollsLeft e - n)
  ∧ DiceEngine.canRoll (foldl cycle e rnds)
    = bool_decide (n < DiceEngine.rollsLeft e)
  ∧ (0 ≤ DiceEngine.maxRolls e →
     DiceEngine.canRoll (foldl cycle (DiceEngine.reset e) rnds)
     = bool_decide (n < DiceEngine.maxRolls e)).
Proof.
  intros Hr Hl cycle n.
  assert (∀ rnds e,
            DiceEngine.isRolling e = false → 0 ≤ DiceEngine.rollsLeft e →
            DiceEngine.isRolling (foldl cycle e rnds) = false
            ∧ DiceEngine.rollsLeft (foldl cycle e rnds)
              = Z.max 0 (DiceEngine.rollsLeft e - Z.of_nat (length rnds))) as H.
  { clear. induction rnds as [|rnd rnds IH]; intros e Hr Hl; cbn [foldl length].
    - split; [done|]. lia.
    - destruct (roll_cycle_step rnd e Hr Hl) as (Hr' & Hl' & _).
      change (cycle e rnd) with (DiceEngine.finishRoll (DiceEngine.roll rnd e).1).
      destruct (IH _ Hr') as [IH1 IH2]; [rewrite Hl'; lia|].
      split; [done|]. rewrite IH2, Hl'. lia. }
  assert (∀ e, DiceEngine.isRolling e = false → 0 ≤ DiceEngine.rollsLeft e →
               DiceEngine.canRoll (foldl cycle e rnds)
               = bool_decide (n < DiceEngine.rollsLeft e)) as Hcan.
  { intros e0 Hr0 Hl0. destruct (H rnds e0 Hr0 Hl0) as [H1 H2].
    unfold DiceEngine.canRoll. rewrite H1, H2, andb_true_r.
    fold n. apply bool_decide_ext. lia. }
  split; [apply H; done|]. split; [by apply Hcan|].
  intros Hm. by rewrite Hcan.
Qed.

(** X7 on the engine of the Yahtzee game: after three rolls no roll is
    left. *)
Lemma rolls_are_counted_witness :
  let cycle := λ e rnd, DiceEngine.finishRoll (DiceEngine.roll rnd e).1 in
  DiceEngine.canRoll (foldl cycle (DiceEngine.new 5 6 3) [λ _, 1; λ _, 2; λ _, 3])
  = false.
Proof.
  intros cycle.
  destruct (rolls_are_counted [λ _, 1; λ _, 2; λ _, 3] (DiceEngine.new 5 6 3))
    as (_ & H & _); [reflexivity | vm_compute; discriminate |].
  exact H.
Defined.

Section engine_calls.
Import DiceEngine.
Implicit Types (e : DiceEngine.t) (c : Call).

(** What the calls keep, for an engine of [n] dice with [s] sides and [m]
    rolls. *)
Lemma call_keeps (n : nat) (s m : Z) e c :
  1 ≤ s → 0 ≤ m → draws_faces s c →
  (count e = n ∧ sides e = s ∧ maxRolls e = m
   ∧ length (values e) = n ∧ length (held e) = n
   ∧ Forall (λ v, 1 ≤ v ≤ s) (values e)
   ∧ 0 ≤ rollsLeft e ≤ m
   ∧ (hasRolled e = true ↔ rollsLeft e < m)
   ∧ (hasRolled e = false →
      held e = replicate n false ∧ values e = replicate n 1)
   ∧ (isRolling e = true → hasRolled e = true)) →
  let e' := call e c in
  count e' = n ∧ sides e' = s ∧ maxRolls e' = m
  ∧ length (values e') = n ∧ length (held e') = n
  ∧ Forall (λ v, 1 ≤ v ≤ s) (values e')
  ∧ 0 ≤ rollsLeft e' ≤ m
  ∧ (hasRolled e' = true ↔ rollsLeft e' < m)
  ∧ (hasRolled e' = false →
     held e' = replicate n false ∧ values e' = replicate n 1)
  ∧ (isRolling e' = true → hasRolled e' = true).
Proof.
  intros Hs Hm Hc (Hn & Hsd & Hmr & Hlv & Hlh & Hv & Hr & Hhr & Hfresh & Hroll).
  destruct c as [rnd| |index|]; cbn [call draws_faces] in *.
  - unfold roll. destruct (_ || _) eqn:E; cbn zeta; cbn [fst]; [done|].
    apply orb_false_iff in E as [E _]. apply bool_decide_eq_false in E.
    unfold roll_values. cbn.
    destruct (roll_loop rnd (held e) (count e) (values e)) as [Hl Hlk]; [lia|].
    cbn zeta in Hl, Hlk.
    do 3 (split; [done|]). split; [lia|]. split; [done|]. split.
    { apply Forall_lookup_2. intros i v. rewrite Hlk.
      case_decide; [destruct (default false _)|];
        try (intros Hi; by apply (Forall_lookup_1 _ _ _ _ Hv Hi)).
      intros [= <-]. apply Hc. }
    split; [lia|]. split; [split; [lia|done]|]. split; done.
  - cbn. do 8 (split; [done|]). split; done.
  - unfold toggleHold.
    destruct (negb (hasRolled e) || isRolling e
              || bool_decide (rollsLeft e = 0)) eqn:E1; cbn zeta; cbn [fst];
      [by repeat split; try tauto; try lia; try apply Hfresh|].
    destruct (bool_decide (index < 0)
              || bool_decide (Z.of_nat (count e) ≤ index)) eqn:E2;
      cbn zeta; cbn [fst];
      [by repeat split; try tauto; try lia; try apply Hfresh|].
    apply orb_false_iff in E1 as [E1 _]. apply orb_false_iff in E1 as [E1 _].
    apply negb_false_iff in E1.
    apply orb_false_iff in E2 as [Hlo Hhi].
    apply bool_decide_eq_false in Hlo, Hhi.
    cbn. rewrite array_set_in_range by lia. rewrite length_insert.
    do 8 (split; [done|]). split; [intros Hf; congruence|intros _; exact E1].
  - cbn. rewrite !length_replicate.
    do 5 (split; [done|]). split.
    { apply Forall_replicate. lia. }
    split; [lia|]. split; [split; [done|lia]|]. rewrite Hn. split; done.
Qed.

End engine_calls.

(** X24.  An engine that is only driven through its methods stays in
    order.  After any sequence of [roll], [finishRoll], [toggleHold] and
    [reset] calls on a new engine of [n] dice with [s ≥ 1] sides and
    [m ≥ 0] rolls, the draws being faces: both arrays have [n] cells, every
    value is a face, [rollsLeft] lies between 0 and [maxRolls], [hasRolled]
    holds exactly when a roll of the budget has been used, before the first
    roll no die is held and all show 1, a roll in progress implies
    [hasRolled], and [canHold()] tells whether [toggleHold] accepts the
    dice: it agrees with the result of [toggleHold] for every index from 0
    to [n - 1]. *)
Theorem engine_stays_in_order (n : nat) (s m : Z) (cs : list DiceEngine.Call) :
  1 ≤ s → 0 ≤ m → Forall (DiceEngine.draws_faces s) cs →
  let e := DiceEngine.calls (DiceEngine.new n s m) cs in
  DiceEngine.count e = n ∧ DiceEngine.sides e = s ∧ DiceEngine.maxRolls e = m
  ∧ length (DiceEngine.values e) = n ∧ length (DiceEngine.held e) = n
  ∧ Forall (λ v, 1 ≤ v ≤ s) (DiceEngine.values e)
  ∧ 0 ≤ DiceEngine.rollsLeft e ≤ m
  ∧ (DiceEngine.hasRolled e = true ↔ DiceEngine.rollsLeft e < m)
  ∧ (DiceEngine.hasRolled e = false →
     DiceEngine.held e = replicate n false
     ∧ DiceEngine.values e = replicate n 1)
  ∧ (DiceEngine.isRolling e = true → DiceEngine.hasRolled e = true)
  ∧ ∀ index, 0 ≤ index < Z.of_nat n →
             (DiceEngine.toggleHold index e).2 = DiceEngine.canHold e.
Proof.
  intros Hs Hm Hcs e.
  assert (DiceEngine.count e = n ∧ DiceEngine.sides e = s
          ∧ DiceEngine.maxRolls e = m
          ∧ length (DiceEngine.values e) = n ∧ length (DiceEngine.held e) = n
          ∧ Forall (λ v, 1 ≤ v ≤ s) (DiceEngine.values e)
          ∧ 0 ≤ DiceEngine.rollsLeft e ≤ m
          ∧ (DiceEngine.hasRolled e = true ↔ DiceEngine.rollsLeft e < m)
          ∧ (DiceEngine.hasRolled e = false →
             DiceEngine.held e = replicate n false
             ∧ DiceEngine.values e = replicate n 1)
          ∧ (DiceEngine.isRolling e = true → DiceEngine.hasRolled e = true))
    as H.
  { subst e. induction cs as [|c cs IH] using rev_ind.
    - cbn. rewrite !length_replicate. do 5 (split; [done|]).
      split; [apply Forall_replicate; lia|]. split; [lia|].
      split; [split; [done|lia]|]. split; done.
    - apply Forall_app in Hcs as [Hcs Hc]. apply Forall_cons_1 in Hc as [Hc _].
      unfold DiceEngine.calls in *. rewrite foldl_app. cbn [foldl].
      apply call_keeps; [done|done|done|by apply IH]. }
  destruct H as (Hn & Hsd & Hmr & Hlv & Hlh & Hv & Hr & Hhr & Hfresh & Hroll).
  do 10 (split; [done|]).
  intros index Hi. unfold DiceEngine.toggleHold, DiceEngine.canHold.
  destruct (DiceEngine.hasRolled e), (DiceEngine.isRolling e); cbn; try done.
  repeat case_bool_decide; cbn; try done; lia.
Qed.

(** X24 on the Yahtzee engine: a roll, its end, a hold, and a reset. *)
Lemma engine_stays_in_order_witness :
  let cs := [DiceEngine.Roll (λ i, Z.of_nat (i `mod` 6) + 1); DiceEngine.FinishRoll;
             DiceEngine.ToggleHold 2; DiceEngine.Reset] in
  Forall (DiceEngine.draws_faces 6) cs
  ∧ DiceEngine.held (DiceEngine.calls (DiceEngine.new 5 6 3) cs)
    = replicate 5 false.
Proof.
  intros cs.
  assert (Forall (DiceEngine.draws_faces 6) cs) as Hcs.
  { repeat apply Forall_cons_2; try apply Forall_nil_2; try exact I.
    intros i. pose proof (Nat.mod_upper_bound i 6). lia. }
  split; [exact Hcs|].
  destruct (engine_stays_in_order 5 6 3 cs) as (_ & _ & _ & _ & _ & _ & _ & _ & H & _);
    [lia | lia | exact Hcs |].
  apply H. reflexivity.
Defined.

(** * The Farkle turn: the table, the totals and the buttons *)

Section table.
Import FarkleGame.
Implicit Types (g : FarkleGame.t) (e : DiceEngine.t).

Lemma scoreSelection_positive (sel : list Z) (x : Z) :
  scoreSelection sel = Some x → 0 < x.
Proof.
  unfold scoreSelection. case_decide; [done|].
  destruct (_ && is_straight _); [by intros [= <-]|].
  destruct (_ && bool_decide (count_values 2 _ = _)); [by intros [= <-]|].
  destruct (_ && bool_decide (count_values 3 _ = _)); [by intros [= <-]|].
  destruct (foldl score_single _ faces) as [[s rem]|]; [|done].
  cbn [mbind option_bind]. case_decide; [|done]. by intros [= <-].
Qed.

Lemma hold_set_aside_spec (sa : JsSet.t) (held : list bool) :
  length held = 6%nat →
  length (hold_set_aside sa held) = 6%nat
  ∧ ∀ i, (i < 6)%nat → hold_set_aside sa held !! i = Some (JsSet.has i sa).
Proof.
  intros Hl.
  destruct held as [|h0 [|h1 [|h2 [|h3 [|h4 [|h5 [|]]]]]]]; try discriminate Hl.
  split; [reflexivity|].
  intros i Hi.
  destruct i as [|[|[|[|[|[|]]]]]]; try lia; reflexivity.
Qed.

(** The engine stays a table of six faces through a roll. *)
Lemma roll_table rnd e :
  DiceEngine.count e = 6%nat → length (DiceEngine.values e) = 6%nat →
  Forall (λ v, 1 ≤ v ≤ 6) (DiceEngine.values e) → fair rnd →
  let e' := (DiceEngine.roll rnd e).1 in
  DiceEngine.count e' = 6%nat
  ∧ length (DiceEngine.values e') = 6%nat
  ∧ DiceEngine.held e' = DiceEngine.held e
  ∧ Forall (λ v, 1 ≤ v ≤ 6) (DiceEngine.values e').
Proof.
  intros Hc Hl Hf Hr. unfold DiceEngine.roll.
  destruct (_ || _); [done|]. cbn. unfold DiceEngine.roll_values. cbn. rewrite Hc.
  destruct (roll_loop rnd (DiceEngine.held e) 6 (DiceEngine.values e)) as [Hl' Hv];
    [lia|]. cbn zeta in Hl', Hv.
  split; [done|]. split; [by rewrite Hl'|]. split; [done|].
  apply Forall_lookup. intros i x Hx. rewrite Hv in Hx.
  case_decide; [destruct (default false _)|].
  - by eapply Forall_lookup_1 in Hf.
  - injection Hx as <-. apply Hr.
  - by eapply Forall_lookup_1 in Hf.
Qed.

Lemma Forall_JsSet_add (P : nat → Prop) i (s : JsSet.t) :
  P i → Forall P s → Forall P (JsSet.add i s).
Proof.
  intros Hi Hs. unfold JsSet.add. destruct (JsSet.has i s); [done|].
  apply Forall_app. split; [done|]. by constructor.
Qed.

Lemma Forall_JsSet_add_all (P : nat → Prop) (l : list nat) : ∀ s : JsSet.t,
  Forall P l → Forall P s → Forall P (foldl (λ s idx, JsSet.add idx s) s l).
Proof.
  induction l as [|x l IH]; intros s Hl Hs; [done|]. cbn [foldl].
  inversion Hl; subst. apply IH; [done|]. by apply Forall_JsSet_add.
Qed.

Lemma keep_one_duplicate_bound values dupVal (l : list nat) : ∀ st,
  Forall (λ i, (i < 6)%nat) l → Forall (λ i, (i < 6)%nat) st.2 →
  Forall (λ i, (i < 6)%nat) (foldl (keep_one_duplicate values dupVal) st l).2.
Proof.
  induction l as [|i l IH]; intros [kept sa] Hl Hsa; [done|].
  cbn [foldl]. inversion Hl; subst. apply IH; [done|]. unfold keep_one_duplicate.
  destruct (_ && _); [done|]. cbn [snd]. by apply Forall_JsSet_add.
Qed.

Lemma six_bound : Forall (λ i, (i < 6)%nat) six.
Proof. unfold six. apply Forall_seq. lia. Qed.

Lemma startTurn_table g :
  DiceEngine.count (diceEngine g) = 6%nat → table_ok (_startTurn g).
Proof.
  intros Hc. unfold table_ok, _startTurn. cbn. split; [done|].
  split; [done|]. split; [done|]. split; [repeat constructor; lia|].
  split; [constructor|]. split; [constructor|]. split; [|done].
  intros i Hi. by apply elem_of_nil in Hi.
Qed.

(** [_nextPlayer] either ends the game or starts a turn, on a game that
    differs from the given one in the turn index and the final-round record
    only. *)
Lemma nextPlayer_cases g :
  ∃ g', (_nextPlayer g = _endGame g' ∨ _nextPlayer g = _autoSave (_startTurn g'))
        ∧ diceEngine g' = diceEngine g
        ∧ setAsideDice g' = setAsideDice g
        ∧ selectedDice g' = selectedDice g
        ∧ turnScore g' = turnScore g
        ∧ players g' = players g.
Proof.
  destruct (finalRound g) eqn:Hfr.
  - set (g1 := set_playersHadFinalTurn
                 (JsSet.add (currentPlayerIndex g) (playersHadFinalTurn g)) g).
    set (g2 := set_currentPlayerIndex (next_index g1) g1).
    set (g3 := set_currentPlayerIndex
                 (next_index
                    (set_playersHadFinalTurn
                       (JsSet.add (currentPlayerIndex g2) (playersHadFinalTurn g2)) g2))
                 (set_playersHadFinalTurn
                    (JsSet.add (currentPlayerIndex g2) (playersHadFinalTurn g2)) g2)).
    assert (_nextPlayer g =
              if allDone g1 then _endGame g1
              else if bool_decide (Z.of_nat (currentPlayerIndex g2)
                                   = finalRoundTriggerPlayer g2)
                   then if allDone g3 then _endGame g3 else _autoSave (_startTurn g3)
                   else _autoSave (_startTurn g2)) as ->.
    { unfold _nextPlayer. rewrite Hfr. fold g1. cbn [andb].
      change (finalRound g1) with (finalRound g). rewrite Hfr. cbn [andb].
      destruct (allDone g1); [done|]. fold g2.
      change (finalRound g2) with (finalRound g). rewrite Hfr. cbn [andb]. done. }
    destruct (allDone g1); [exists g1; split; [by left|done]|].
    destruct (bool_decide _).
    + destruct (allDone g3); exists g3; (split; [auto|done]).
    + exists g2. split; [by right|done].
  - exists (set_currentPlayerIndex (next_index g) g). split; [|done]. right.
    unfold _nextPlayer. rewrite Hfr. cbn [andb].
    change (finalRound (set_currentPlayerIndex _ g)) with (finalRound g).
    rewrite Hfr. reflexivity.
Qed.

Lemma autoSave_table g : table_ok g → table_ok (_autoSave g).
Proof. intros H. exact H. Qed.

Lemma nextPlayer_table g : table_ok g → table_ok (_nextPlayer g).
Proof.
  intros Hok. pose proof Hok as (Hc & _).
  destruct (nextPlayer_cases g) as (g' & [-> | ->] & He & Ha & Hs & Ht & _).
  - unfold table_ok, _endGame. cbn. rewrite He, Ha, Hs, Ht. exact Hok.
  - apply autoSave_table, startTurn_table. by rewrite He.
Qed.

Lemma table_ok_ext g h :
  diceEngine h = diceEngine g → setAsideDice h = setAsideDice g →
  selectedDice h = selectedDice g → turnScore h = turnScore g →
  table_ok g → table_ok h.
Proof. unfold table_ok. by intros -> -> -> ->. Qed.

Lemma onRollEnd_table g : table_ok g → table_ok (_onRollEnd g).
Proof.
  intros (Hc & Hl & Hh & Hf & Ha & Hs & Hd & Ht). unfold _onRollEnd.
  destruct (isFarkle _).
  - unfold table_ok. cbn. done.
  - destruct (decide _); [destruct (possible _)|]; unfold table_ok; cbn; done.
Qed.

(** Every playable event keeps the table in order. *)
Lemma handle_table_ok g ev : playable ev → table_ok g → table_ok (handle g ev).
Proof.
  intros Hev Hok. pose proof Hok as (Hc & Hl & Hh & Hf & Ha & Hs & Hd & Ht).
  destruct ev as [rnd| |index| | |rnd|x]; cbn [handle playable] in *.
  - unfold _rollDice. destruct (DiceEngine.isRolling _); [done|].
    destruct (_ && _); [done|]. cbv zeta.
    set (e := DiceEngine.set_held _ _).
    destruct (roll_table rnd e) as (Hc' & Hl' & Hh' & Hf'); [done ..|].
    unfold table_ok. cbn -[DiceEngine.roll hold_set_aside].
    fold e. rewrite Hh'. unfold e at 2. cbn -[DiceEngine.roll hold_set_aside].
    split; [done|]. split; [done|].
    split; [by apply hold_set_aside_spec|]. split; [done|]. split; [done|].
    split; [constructor|]. split; [|done]. intros i Hi. by apply elem_of_nil in Hi.
  - unfold finishRoll.
    set (g1 := set_diceEngine _ g).
    assert (table_ok (_onRollEnd g1)) as Hok1.
    { apply onRollEnd_table. unfold table_ok, g1. cbn. done. }
    destruct (straightHandler g) as [[kept missing]|]; [|done].
    pose proof Hok1 as (Hc1 & Hl1 & Hh1 & Hf1 & Ha1 & Hs1 & Hd1 & Ht1).
    unfold run_straightHandler. destruct (bool_decide _).
    + unfold table_ok. cbn. split; [done|]. split; [done|]. split; [done|].
      split; [done|]. split; [constructor|]. split; [done|].
      split; [|unfold STRAIGHT_SCORE; lia].
      intros i _ Hi. by apply elem_of_nil in Hi.
    + unfold table_ok. cbn. done.
  - unfold _onDiceClick. destruct (negb _); [done|].
    destruct (JsSet.has index (setAsideDice g)) eqn:Ea; [done|].
    destruct (JsSet.has index (selectedDice g)); unfold table_ok; cbn.
    + split; [done|]. split; [done|]. split; [done|]. split; [done|].
      split; [done|]. split.
      { apply Forall_forall. intros i [_ Hi]%list_elem_of_filter.
        rewrite Forall_forall in Hs. by apply Hs. }
      split; [|done].
      intros i Hi. apply list_elem_of_filter in Hi as [_ Hi]. by apply Hd.
    + split; [done|]. split; [done|]. split; [done|]. split; [done|].
      split; [done|]. split; [by apply Forall_JsSet_add|]. split; [|done].
      intros i [->|Hi]%JsSet_elem_of_add; [|by apply Hd].
      intros Hin. apply JsSet_has_true in Hin. congruence.
  - unfold _confirmSelection. destruct (negb _); [done|].
    destruct (bool_decide _); [done|].
    destruct (scoreSelection _) as [score|] eqn:Es; [|done].
    apply scoreSelection_positive in Es.
    assert (Forall (λ i, (i < 6)%nat) (aside_after g)) as Haside.
    { by apply Forall_JsSet_add_all. }
    cbv zeta.
    destruct (bool_decide (6 ≤ _)); [|destruct (_ && _)]; unfold table_ok; cbn;
      (split; [done|]); (split; [done|]); (split; [done|]); (split; [done|]).
    + split; [constructor|]. split; [constructor|]. split; [|lia].
      intros i Hi. by apply elem_of_nil in Hi.
    + split; [done|]. split; [constructor|]. split; [|done].
      intros i Hi. by apply elem_of_nil in Hi.
    + split; [done|]. split; [constructor|]. split; [|lia].
      intros i Hi. by apply elem_of_nil in Hi.
  - unfold _bank. destruct (negb _); [done|].
    destruct (players g !! currentPlayerIndex g) as [p|]; [|done].
    apply nextPlayer_table.
    destruct (bool_decide _ && negb _); unfold table_ok; cbn; done.
  - unfold _attemptStraight. destruct (straightAttemptData g) as [sa|]; [|done].
    destruct (negb _); [done|]. cbv zeta.
    match goal with
    | |- context [foldl (keep_one_duplicate ?v ?d) ?st six] =>
        pose proof (keep_one_duplicate_bound v d six st six_bound Ha) as Hk;
        destruct (foldl (keep_one_duplicate v d) st six) as [kept aside]
    end.
    cbn [snd] in Hk.
    set (e := DiceEngine.set_rollsLeft 1 _).
    destruct (hold_set_aside_spec aside (replicate 6 false) eq_refl) as [Hhl _].
    destruct (roll_table rnd e) as (Hc' & Hl' & Hh' & Hf'); [done ..|].
    unfold table_ok. cbn -[hold_set_aside DiceEngine.roll].
    fold e. rewrite Hh'. unfold e at 2. cbn -[hold_set_aside DiceEngine.roll].
    split; [done|]. split; [done|]. split; [done|]. split; [done|].
    split; [done|]. split; [constructor|]. split; [|done].
    intros i Hi. by apply elem_of_nil in Hi.
  - unfold fire. destruct (bool_decide _); [|done].
    destruct x.
    + apply nextPlayer_table. unfold table_ok. cbn. done.
    + unfold table_ok, hotDice_callback. cbn.
      split; [done|]. split; [done|]. split; [done|].
      split; [repeat constructor; lia|]. done.
Qed.

Lemma run_table_ok evs : ∀ g,
  Forall playable evs → table_ok g → table_ok (run g evs).
Proof.
  induction evs as [|ev evs IH]; intros g Hevs Hok; [done|].
  inversion Hevs; subst. apply IH; [done|]. by apply handle_table_ok.
Qed.

Lemma bounded_set_size (s : list nat) :
  NoDup s → Forall (λ i, (i < 6)%nat) s → JsSet.size s ≤ 6.
Proof.
  intros Hnd Hb. unfold JsSet.size.
  assert (s ⊆+ seq 0 6) as Hsub.
  { apply NoDup_submseteq; [done|]. intros i Hi. rewrite Forall_forall in Hb.
    apply elem_of_seq. specialize (Hb i Hi). lia. }
  apply submseteq_length in Hsub. rewrite length_seq in Hsub. lia.
Qed.

End table.

(** X8.  The table stays in order.  In every game reached from a new game
    by events the page can produce (clicks on the six dice, draws that are
    faces 1-6), the engine has six dice each showing a face 1-6, the
    set-aside and the selected dice are among the six, no die is both
    selected and set aside, at most six dice are set aside, and the turn
    score is never negative. *)
Theorem table_stays_in_order (ps : list FarkleGame.Player)
    (evs : list FarkleGame.Event) :
  Forall FarkleGame.playable evs →
  let g := FarkleGame.run (FarkleGame.new ps None) evs in
  FarkleGame.table_ok g
  ∧ JsSet.size (FarkleGame.setAsideDice g) ≤ 6
  ∧ 0 ≤ FarkleGame.remaining g ≤ 6.
Proof.
  intros Hevs g.
  assert (FarkleGame.table_ok g) as Hok.
  { apply run_table_ok; [done|]. by apply startTurn_table. }
  assert (FarkleGame.sets_wf g) as (Hnd & _).
  { apply run_wf. by apply new_wf. }
  pose proof Hok as (_ & _ & _ & _ & Ha & _).
  pose proof (bounded_set_size _ Hnd Ha).
  split; [done|]. split; [done|]. unfold FarkleGame.remaining, JsSet.size in *. lia.
Qed.

(** X8 on the first selection of a two-player game. *)
Lemma table_stays_in_order_witness :
  FarkleGame.table_ok
    (FarkleGame.run (FarkleGame.new [Samples.alice; Samples.bob] None)
       [FarkleGame.RollButton Samples.mixed; FarkleGame.RollFinished;
        FarkleGame.DiceClick 5; FarkleGame.ConfirmButton]).
Proof.
  destruct (table_stays_in_order [Samples.alice; Samples.bob]
              [FarkleGame.RollButton Samples.mixed; FarkleGame.RollFinished;
               FarkleGame.DiceClick 5; FarkleGame.ConfirmButton]) as [H _];
    [|exact H].
  repeat (apply Forall_cons; split); try apply Forall_nil; try (cbn; lia); try done.
  intros i. unfold Samples.mixed.
  do 6 (destruct i as [|i]; [cbn; lia|]). destruct i; cbn; lia.
Defined.

Section totals.
Import FarkleGame.
Implicit Types (g : FarkleGame.t).

Lemma farkle_nextPlayer_players g : players (_nextPlayer g) = players g.
Proof.
  destruct (nextPlayer_cases g) as (g' & [-> | ->] & _ & _ & _ & _ & Hp); exact Hp.
Qed.

Lemma nextPlayer_turnScore g : 0 ≤ turnScore g → 0 ≤ turnScore (_nextPlayer g).
Proof.
  intros Ht.
  destruct (nextPlayer_cases g) as (g' & [-> | ->] & _ & _ & _ & Hs & _).
  - cbn. by rewrite Hs.
  - done.
Qed.

(** The turn score is never negative. *)
Lemma handle_turnScore g ev : 0 ≤ turnScore g → 0 ≤ turnScore (handle g ev).
Proof.
  intros Ht. destruct ev as [rnd| |index| | |rnd|x]; cbn [handle].
  - unfold _rollDice. destruct (DiceEngine.isRolling _); [done|].
    by destruct (_ && _).
  - unfold finishRoll. set (g1 := set_diceEngine _ g).
    assert (0 ≤ turnScore (_onRollEnd g1)) as H1.
    { unfold _onRollEnd. destruct (isFarkle _); [done|].
      destruct (decide _); [by destruct (possible _)|done]. }
    destruct (straightHandler g) as [[kept missing]|]; [|done].
    unfold run_straightHandler. destruct (bool_decide _); [|done].
    cbn. unfold STRAIGHT_SCORE. lia.
  - unfold _onDiceClick. destruct (negb _); [done|].
    destruct (JsSet.has index (setAsideDice g)); [done|].
    by destruct (JsSet.has index (selectedDice g)).
  - unfold _confirmSelection. destruct (negb _); [done|].
    destruct (bool_decide _); [done|].
    destruct (scoreSelection _) as [score|] eqn:Es; [|done].
    apply scoreSelection_positive in Es. cbv zeta.
    destruct (bool_decide (6 ≤ _)); [cbn; lia|].
    destruct (_ && _); cbn; [done|lia].
  - unfold _bank. destruct (negb _); [done|].
    destruct (players g !! currentPlayerIndex g) as [p|]; [|done].
    apply nextPlayer_turnScore. by destruct (bool_decide _ && negb _).
  - unfold _attemptStraight. destruct (straightAttemptData g); [|done].
    destruct (negb _); [done|]. cbv zeta. by destruct (foldl _ _ six).
  - unfold fire. destruct (bool_decide _); [|done]. destruct x; [|done].
    by apply nextPlayer_turnScore.
Qed.

(** Only an accepted bank changes the players, and it adds the turn score
    to the total of the player whose turn it is. *)
Lemma handle_players g ev :
  players (handle g ev) = players g
  ∨ (ev = BankButton ∧ turnState g = confirmed
     ∧ ∃ p, players g !! currentPlayerIndex g = Some p
            ∧ players (handle g ev)
              = <[currentPlayerIndex g := set_totalScore (totalScore p + turnScore g) p]>
                  (players g)).
Proof.
  destruct (ends_turn g ev) eqn:Hend.
  - destruct ev as [rnd| |index| | |rnd|x]; cbn [ends_turn] in Hend; try done.
    + apply bool_decide_eq_true in Hend. cbn [handle]. unfold _bank.
      rewrite Hend. rewrite bool_decide_eq_true_2 by done. cbn [negb].
      destruct (players g !! currentPlayerIndex g) as [p|] eqn:Hp; [|by left].
      right. split; [done|]. split; [done|]. exists p. split; [done|].
      rewrite farkle_nextPlayer_players. by destruct (bool_decide _ && negb _).
    + destruct x; [|done]. left. cbn [handle]. unfold fire. rewrite Hend.
      by rewrite farkle_nextPlayer_players.
  - left. pose proof (handle_in_turn g ev Hend) as Hm.
    unfold match_state in Hm. by injection Hm.
Qed.

Lemma totals_step g ev :
  0 ≤ turnScore g →
  Forall2 (λ p q, name q = name p ∧ color q = color p
                  ∧ totalScore p ≤ totalScore q)
          (players g) (players (handle g ev)).
Proof.
  intros Ht. destruct (handle_players g ev) as [->|(_ & _ & p & Hp & ->)].
  - apply Forall2_same_length_lookup. split; [done|].
    intros i x y Hx Hy. assert (x = y) as -> by congruence. split; [done|].
    split; [done|]. lia.
  - apply Forall2_same_length_lookup. split; [by rewrite length_insert|].
    intros i x y Hx Hy.
    destruct (decide (i = currentPlayerIndex g)) as [->|Hne].
    + rewrite list_lookup_insert_eq in Hy by (by eapply lookup_lt_Some).
      assert (x = p) as -> by congruence. injection Hy as <-. cbn.
      split; [done|]. split; [done|]. lia.
    + rewrite list_lookup_insert_ne in Hy by done.
      assert (x = y) as -> by congruence. split; [done|]. split; [done|]. lia.
Qed.

End totals.

(** X9.  Points are never lost once banked.  Through any sequence of events
    the players stay the same in number, name and colour and no total goes
    down (given a turn score that is not negative, as in every new game);
    the only event that changes a total is an accepted bank, which adds the
    turn score to the total of the player whose turn it is. *)
Theorem totals_only_grow (g : FarkleGame.t) :
  0 ≤ FarkleGame.turnScore g →
  (∀ evs,
     Forall2 (λ p q, FarkleGame.name q = FarkleGame.name p
                     ∧ FarkleGame.color q = FarkleGame.color p
                     ∧ FarkleGame.totalScore p ≤ FarkleGame.totalScore q)
             (FarkleGame.players g) (FarkleGame.players (FarkleGame.run g evs)))
  ∧ (∀ ev,
       FarkleGame.players (FarkleGame.handle g ev) = FarkleGame.players g
       ∨ (ev = FarkleGame.BankButton
          ∧ FarkleGame.turnState g = FarkleGame.confirmed
          ∧ ∃ p, FarkleGame.players g !! FarkleGame.currentPlayerIndex g = Some p
                 ∧ FarkleGame.players (FarkleGame.handle g ev)
                   = <[FarkleGame.currentPlayerIndex g :=
                         FarkleGame.set_totalScore
                           (FarkleGame.totalScore p + FarkleGame.turnScore g) p]>
                       (FarkleGame.players g))).
Proof.
  intros Ht. split; [|apply handle_players].
  intros evs. revert g Ht. induction evs as [|ev evs IH]; intros g Ht.
  - apply Forall2_same_length_lookup. split; [done|].
    intros i x y Hx Hy. assert (x = y) as -> by (cbn in Hy; congruence).
    split; [done|]. split; [done|]. lia.
  - cbn [FarkleGame.run foldl]. fold (FarkleGame.run (FarkleGame.handle g ev) evs).
    pose proof (totals_step g ev Ht) as H1.
    pose proof (IH _ (handle_turnScore g ev Ht)) as H2.
    apply Forall2_same_length_lookup. split.
    { rewrite (Forall2_length _ _ _ H1). by rewrite (Forall2_length _ _ _ H2). }
    intros i x z Hx Hz.
    destruct (Forall2_lookup_l _ _ _ _ _ H1 Hx) as (y & Hy & Hn1 & Hc1 & Hs1).
    destruct (Forall2_lookup_lr _ _ _ _ _ _ H2 Hy Hz) as (Hn2 & Hc2 & Hs2).
    split; [congruence|]. split; [congruence|]. lia.
Qed.

(** X9 on the bank that takes Alice from 9900 to 10000. *)
Lemma totals_only_grow_witness :
  Forall2 (λ p q, FarkleGame.name q = FarkleGame.name p
                  ∧ FarkleGame.color q = FarkleGame.color p
                  ∧ FarkleGame.totalScore p ≤ FarkleGame.totalScore q)
          (FarkleGame.players Samples.about_to_trigger)
          (FarkleGame.players
             (FarkleGame.run Samples.about_to_trigger [FarkleGame.BankButton])).
Proof.
  apply (proj1 (totals_only_grow Samples.about_to_trigger ltac:(vm_compute; discriminate))).
Defined.

Section buttons.
Import FarkleGame.
Implicit Types (g : FarkleGame.t).

Lemma confirm_accepts g score :
  turnState g = selecting → JsSet.size (selectedDice g) ≠ 0 →
  scoreSelection (selectedValues g) = Some score →
  selectedDice (_confirmSelection g) = JsSet.empty
  ∧ (turnScore (_confirmSelection g) = turnScore g + score
     ∨ turnState (_confirmSelection g) = farkle).
Proof.
  intros Hst Hsel Hs. unfold _confirmSelection.
  rewrite Hst. rewrite bool_decide_eq_true_2 by done. cbn [negb].
  rewrite bool_decide_eq_false_2 by done. rewrite Hs. cbv zeta.
  destruct (bool_decide (6 ≤ _)); [split; [done|by left]|].
  destruct (_ && _); [split; [done|by right]|]. split; [done|by left].
Qed.

End buttons.

(** X10.  The confirm button tells the truth.  In state [selecting] the
    button is enabled ([isValid]) exactly when [_confirmSelection] accepts
    the selection and changes the game; the score shown on it is positive
    and is what the confirmation adds to the turn score, unless the
    confirmation is a forced bust. *)
Theorem confirm_button_matches_confirm (g : FarkleGame.t) :
  FarkleGame.turnState g = FarkleGame.selecting →
  (FarkleGame.isValid g = true ↔ FarkleGame._confirmSelection g ≠ g)
  ∧ (∀ selScore,
       FarkleGame._getSelectionScore g = Some selScore →
       FarkleGame.isValid g = true
       ∧ 0 < selScore
       ∧ (FarkleGame.turnScore (FarkleGame._confirmSelection g)
          = FarkleGame.turnScore g + selScore
          ∨ FarkleGame.turnState (FarkleGame._confirmSelection g)
            = FarkleGame.farkle)).
Proof.
  intros Hst. unfold FarkleGame.isValid, FarkleGame._getSelectionScore.
  case_bool_decide as Hsel.
  { split; [|done]. split; [done|]. intros Hne. exfalso. apply Hne.
    unfold FarkleGame._confirmSelection. rewrite Hst.
    rewrite bool_decide_eq_true_2 by done. cbn [negb].
    by rewrite bool_decide_eq_true_2. }
  destruct (scoreSelection (FarkleGame.selectedValues g)) as [score|] eqn:Es.
  - pose proof (scoreSelection_positive _ _ Es) as Hpos.
    destruct (confirm_accepts g score Hst Hsel Es) as [Hempty Hscore].
    rewrite bool_decide_eq_true_2 by done. split.
    + split; [|done]. intros _ Heq. rewrite Heq in Hempty.
      apply Hsel. unfold JsSet.size. by rewrite Hempty.
    + intros selScore [= <-]. done.
  - split; [|done]. split; [done|]. intros Hne. exfalso. apply Hne.
    unfold FarkleGame._confirmSelection. rewrite Hst.
    rewrite bool_decide_eq_true_2 by done. cbn [negb].
    rewrite bool_decide_eq_false_2 by done. by rewrite Es.
Qed.

(** X10 on the selection of a single two. *)
Lemma confirm_button_matches_confirm_witness :
  FarkleGame.isValid Samples.selected_a_two = true
  ↔ FarkleGame._confirmSelection Samples.selected_a_two ≠ Samples.selected_a_two.
Proof.
  apply (proj1 (confirm_button_matches_confirm Samples.selected_a_two eq_refl)).
Defined.

Section rerolls.
Import FarkleGame.
Implicit Types (g : FarkleGame.t).

(** The dice that are not set aside are as many as the roll button says. *)
Lemma available_count (s : list nat) :
  NoDup s → Forall (λ i, (i < 6)%nat) s →
  Z.of_nat (length (filter (λ i, JsSet.has i s = false) six)) = 6 - JsSet.size s.
Proof.
  intros Hnd Hb. unfold JsSet.size.
  assert (filter (λ i, ¬ JsSet.has i s = false) six ≡ₚ s) as Hin.
  { apply NoDup_Permutation; [apply NoDup_filter, NoDup_seq|done|].
    intros i. rewrite list_elem_of_filter. unfold six.
    rewrite elem_of_seq, not_false_iff_true, JsSet_has_true.
    rewrite Forall_forall in Hb. split; [tauto|]. intros Hi.
    specialize (Hb i Hi). split; [done|lia]. }
  pose proof (filter_app_complement (λ i, JsSet.has i s = false) six) as Hc.
  apply Permutation_length in Hc. rewrite length_app, Hin in Hc.
  change (length six) with 6%nat in Hc. lia.
Qed.

End rerolls.

(** X11.  A roll of the turn throws the dice that are not set aside and no
    others.  On a table of six dice, when no roll is in progress and the
    turn is [idle] or [confirmed], [_rollDice] moves to [rolling], counts
    the roll, clears the selection, leaves the turn score and the set-aside
    dice alone, holds exactly the set-aside dice, keeps the value of every
    set-aside die and gives every other die its draw; when the set-aside
    indices are distinct dice, the dice thrown are as many as the roll
    button shows ([6 - setAsideDice.size]). *)
Theorem rollDice_throws_available_dice (rnd : nat → Z) (g : FarkleGame.t) :
  DiceEngine.count (FarkleGame.diceEngine g) = 6%nat →
  length (DiceEngine.values (FarkleGame.diceEngine g)) = 6%nat →
  length (DiceEngine.held (FarkleGame.diceEngine g)) = 6%nat →
  DiceEngine.isRolling (FarkleGame.diceEngine g) = false →
  FarkleGame.turnState g = FarkleGame.idle
  ∨ FarkleGame.turnState g = FarkleGame.confirmed →
  let g' := FarkleGame._rollDice rnd g in
  FarkleGame.turnState g' = FarkleGame.rolling
  ∧ FarkleGame.rollCount g' = FarkleGame.rollCount g + 1
  ∧ FarkleGame.selectedDice g' = JsSet.empty
  ∧ FarkleGame.turnScore g' = FarkleGame.turnScore g
  ∧ FarkleGame.setAsideDice g' = FarkleGame.setAsideDice g
  ∧ (∀ i, (i < 6)%nat →
          DiceEngine.held (FarkleGame.diceEngine g') !! i
          = Some (JsSet.has i (FarkleGame.setAsideDice g))
          ∧ DiceEngine.values (FarkleGame.diceEngine g') !! i
            = if JsSet.has i (FarkleGame.setAsideDice g)
              then DiceEngine.values (FarkleGame.diceEngine g) !! i
              else Some (rnd i))
  ∧ (NoDup (FarkleGame.setAsideDice g) →
     Forall (λ i, (i < 6)%nat) (FarkleGame.setAsideDice g) →
     Z.of_nat (length (FarkleGame.availableIndices g)) = FarkleGame.remaining g).
Proof.
  intros Hc Hl Hh Hr Hst g'. unfold g', FarkleGame._rollDice. rewrite Hr.
  assert (negb (bool_decide (FarkleGame.turnState g = FarkleGame.idle))
          && negb (bool_decide (FarkleGame.turnState g = FarkleGame.confirmed))
          = false) as ->.
  { destruct Hst as [-> | ->]; done. }
  cbv zeta.
  destruct (hold_set_aside_spec (FarkleGame.setAsideDice g)
              (DiceEngine.held (FarkleGame.diceEngine g)) Hh) as [Hhl Hhv].
  set (e := DiceEngine.set_held _ _).
  assert (DiceEngine.roll rnd e
          = (DiceEngine.set_values (DiceEngine.roll_values rnd
               (DiceEngine.set_rollsLeft 0
                  (DiceEngine.set_hasRolled true (DiceEngine.set_isRolling true e))))
               (DiceEngine.set_rollsLeft 0
                  (DiceEngine.set_hasRolled true (DiceEngine.set_isRolling true e))),
             true)) as Hroll.
  { unfold DiceEngine.roll. cbn -[FarkleGame.hold_set_aside DiceEngine.roll_values]. by rewrite Hr. }
  cbn -[FarkleGame.hold_set_aside DiceEngine.roll]. fold e. rewrite Hroll.
  cbn -[FarkleGame.hold_set_aside DiceEngine.roll_values].
  do 5 (split; [done|]). split.
  - intros i Hi. split; [by apply Hhv|].
    unfold DiceEngine.roll_values. cbn -[FarkleGame.hold_set_aside]. rewrite Hc.
    destruct (roll_loop rnd (FarkleGame.hold_set_aside (FarkleGame.setAsideDice g)
                               (DiceEngine.held (FarkleGame.diceEngine g)))
                6 (DiceEngine.values (FarkleGame.diceEngine g))) as [_ Hv]; [lia|].
    cbn zeta in Hv. rewrite Hv. rewrite decide_True by done.
    rewrite (Hhv i Hi). cbn [default from_option]. unfold id.
    by destruct (JsSet.has i _).
  - intros Hnd Hb. by apply available_count.
Qed.

(** X11 on the second roll of a turn in which the sixth die, a five, was
    set aside. *)
Lemma rollDice_throws_available_dice_witness :
  let g := FarkleGame._confirmSelection
             (FarkleGame._onDiceClick 5 (Samples.rolled Samples.mixed Samples.fresh)) in
  let g' := FarkleGame._rollDice Samples.fives g in
  DiceEngine.values (FarkleGame.diceEngine g') !! 5%nat = Some 5
  ∧ DiceEngine.values (FarkleGame.diceEngine g') !! 0%nat = Some 5
  ∧ FarkleGame.setAsideDice g' = [5%nat].
Proof.
  intros g g'.
  destruct (rollDice_throws_available_dice Samples.fives g)
    as (_ & _ & _ & _ & Ha & Hv & _); [reflexivity ..|by right|].
  split; [exact (proj2 (Hv 5%nat ltac:(lia)))|].
  split; [exact (proj2 (Hv 0%nat ltac:(lia)))|exact Ha].
Defined.

Section rotation.
Import FarkleGame.
Implicit Types (g : FarkleGame.t).

Lemma nextPlayer_outside_final_round g :
  finalRound g = false →
  _nextPlayer g = _autoSave (_startTurn (set_currentPlayerIndex (next_index g) g)).
Proof.
  intros Hfr. unfold _nextPlayer. rewrite Hfr. cbn [andb].
  change (finalRound (set_currentPlayerIndex _ g)) with (finalRound g).
  by rewrite Hfr.
Qed.

End rotation.

(** X12.  Outside the final round the turn goes round the table: passing the
    turn [k] times from player [i] of [n] makes it the turn of player
    [(i + k) mod n], the game is still outside the final round with the same
    players and no winners fixed, and each turn starts [idle] with no points,
    no roll made and no die set aside or selected. *)
Theorem turns_go_round (g : FarkleGame.t) (k : nat) :
  FarkleGame.finalRound g = false →
  (FarkleGame.currentPlayerIndex g < length (FarkleGame.players g))%nat →
  let g' := Nat.iter k FarkleGame._nextPlayer g in
  FarkleGame.currentPlayerIndex g'
  = ((FarkleGame.currentPlayerIndex g + k) mod length (FarkleGame.players g))%nat
  ∧ FarkleGame.finalRound g' = false
  ∧ FarkleGame.players g' = FarkleGame.players g
  ∧ FarkleGame.winners g' = FarkleGame.winners g
  ∧ ((0 < k)%nat →
     FarkleGame.turnState g' = FarkleGame.idle
     ∧ FarkleGame.turnScore g' = 0
     ∧ FarkleGame.rollCount g' = 0
     ∧ FarkleGame.setAsideDice g' = JsSet.empty
     ∧ FarkleGame.selectedDice g' = JsSet.empty).
Proof.
  intros Hfr Hlt. cbn zeta. induction k as [|k IH].
  - change (Nat.iter 0 FarkleGame._nextPlayer g) with g.
    rewrite Nat.add_0_r, Nat.mod_small by done.
    do 4 (split; [done|]). lia.
  - destruct IH as (Hi & Hf & Hp & Hw & _).
    change (Nat.iter (S k) FarkleGame._nextPlayer g)
      with (FarkleGame._nextPlayer (Nat.iter k FarkleGame._nextPlayer g)).
    set (gk := Nat.iter k FarkleGame._nextPlayer g) in *.
    rewrite (nextPlayer_outside_final_round gk Hf). cbn.
    unfold FarkleGame.next_index. rewrite Hi, Hp.
    split.
    { rewrite Nat.Div0.add_mod_idemp_l. f_equal. lia. }
    done.
Qed.

(** X12 on a new game of two: three passes. *)
Lemma turns_go_round_witness :
  FarkleGame.currentPlayerIndex (Nat.iter 3 FarkleGame._nextPlayer Samples.fresh)
  = ((0 + 3) mod 2)%nat.
Proof.
  apply (turns_go_round Samples.fresh 3); [reflexivity|cbn; lia].
Defined.

Section straight_offer.
Import FarkleGame.
Implicit Types (g : FarkleGame.t) (dice : list Z).

(** Five of the six faces always include a one or a five, so such a roll
    is no bust. *)
Lemma five_of_six_scores dice :
  length dice = 6%nat → five_of_six dice → isFarkle dice = false.
Proof.
  intros Hsix (Hfive & Hrange & _). unfold isFarkle.
  rewrite decide_False by (rewrite Hsix; done).
  destruct (decide (1 ∈ dice)) as [H1|H1];
    [by rewrite (bool_decide_eq_true_2 _ H1)|].
  destruct (decide (5 ∈ dice)) as [H5|H5];
    [by rewrite (bool_decide_eq_true_2 _ H5), orb_true_r|].
  exfalso.
  assert (5 = 1) as Heq; [|done].
  apply (missing_face_unique dice 1 5 Hfive Hrange); (split; [unfold is_face; lia|done]).
Qed.

(** With nothing set aside the available dice are the six dice. *)
Lemma all_dice_available g :
  length (DiceEngine.values (diceEngine g)) = 6%nat →
  setAsideDice g = JsSet.empty →
  availableDice g = DiceEngine.values (diceEngine g).
Proof.
  intros Hsix Hsa. unfold availableDice, availableIndices. rewrite Hsa.
  destruct (DiceEngine.values (diceEngine g))
    as [|v0 [|v1 [|v2 [|v3 [|v4 [|v5 [|]]]]]]]; try discriminate Hsix.
  reflexivity.
Qed.

(** With a die set aside fewer than six dice are available. *)
Lemma some_dice_set_aside g :
  NoDup (setAsideDice g) → Forall (λ i, (i < 6)%nat) (setAsideDice g) →
  setAsideDice g ≠ JsSet.empty → length (availableDice g) ≠ 6%nat.
Proof.
  intros Hnd Hb Hne. unfold availableDice, availableIndices.
  rewrite length_fmap. pose proof (available_count _ Hnd Hb) as Hc.
  unfold JsSet.size in Hc.
  destruct (setAsideDice g) as [|i s]; [done|]. cbn [length] in Hc. lia.
Qed.

End straight_offer.

(** X27.  When the straight is offered.  At the end of a roll of a table
    with six dice, [_onRollEnd] offers the straight attempt exactly when
    no die is set aside and the six dice show five of the six faces, one
    of them twice: such a roll is never a bust, the game goes to
    [selecting] and the offer names the one face that is missing.  After
    any other roll that is not a bust the game goes to [selecting] with no
    offer; after a bust the state is [farkle] and the turn score is 0. *)
Theorem straight_offered_after_roll (g : FarkleGame.t) :
  length (DiceEngine.values (FarkleGame.diceEngine g)) = 6%nat →
  NoDup (FarkleGame.setAsideDice g) →
  Forall (λ i, (i < 6)%nat) (FarkleGame.setAsideDice g) →
  let dice := DiceEngine.values (FarkleGame.diceEngine g) in
  let g' := FarkleGame._onRollEnd g in
  (FarkleGame.setAsideDice g = JsSet.empty ∧ five_of_six dice →
   isFarkle (FarkleGame.availableDice g) = false
   ∧ FarkleGame.turnState g' = FarkleGame.selecting
   ∧ ∃ m, missing_face dice m
          ∧ (∀ m', missing_face dice m' → m' = m)
          ∧ FarkleGame.straightAttemptData g'
            = Some {| possible := true; missingValue := Some m |})
  ∧ (¬ (FarkleGame.setAsideDice g = JsSet.empty ∧ five_of_six dice) →
     isFarkle (FarkleGame.availableDice g) = false →
     FarkleGame.turnState g' = FarkleGame.selecting
     ∧ FarkleGame.straightAttemptData g' = None)
  ∧ (isFarkle (FarkleGame.availableDice g) = true →
     FarkleGame.turnState g' = FarkleGame.farkle
     ∧ FarkleGame.turnScore g' = 0).
Proof.
  intros Hsix Hnd Hb dice g'. subst g'. unfold FarkleGame._onRollEnd.
  change (FarkleGame.availableDice (FarkleGame.set_diceEngine _ g))
    with (FarkleGame.availableDice g).
  split; [|split].
  - intros [Hsa Hfos].
    rewrite (all_dice_available g Hsix Hsa). fold dice.
    rewrite (five_of_six_scores dice Hsix Hfos).
    split; [done|]. rewrite decide_True by done.
    destruct (detect_yes dice Hsix Hfos) as (m & Hm & Huniq & Hdet).
    rewrite Hdet. cbn [possible]. split; [reflexivity|]. exists m. split; [done|]. split; [done|]. reflexivity.
  - intros Hno Hnf. rewrite Hnf.
    destruct (decide (length (FarkleGame.availableDice g) = 6%nat)) as [Hl|Hl];
      [|split; reflexivity].
    destruct (decide (FarkleGame.setAsideDice g = JsSet.empty)) as [Hsa|Hsa];
      [|by apply some_dice_set_aside in Hsa].
    rewrite (all_dice_available g Hsix Hsa). fold dice.
    rewrite (detect_no dice) by (intros [_ Hfos]; by apply Hno).
    split; reflexivity.
  - intros Hf. rewrite Hf. split; reflexivity.
Qed.

(** X27 on the roll 2,3,4,6,2,5: the straight is offered, a one is
    missing. *)
Lemma straight_offered_after_roll_witness :
  let g := Samples.rolled Samples.mixed Samples.fresh in
  ∃ m, missing_face (DiceEngine.values (FarkleGame.diceEngine g)) m
       ∧ FarkleGame.straightAttemptData (FarkleGame._onRollEnd g)
         = Some {| possible := true; missingValue := Some m |}.
Proof.
  intros g.
  assert (DiceEngine.values (FarkleGame.diceEngine g) = [2; 3; 4; 6; 2; 5]) as Hv
    by (vm_compute; reflexivity).
  assert (five_of_six (DiceEngine.values (FarkleGame.diceEngine g))) as Hfos.
  { rewrite Hv. split; [vm_compute; reflexivity|].
    split; [repeat constructor; unfold is_face; lia|].
    exists 2. split; [vm_compute; reflexivity|]. intros v Hne. rewrite !occ_cons.
    change (occ v []) with 0. repeat case_decide; lia. }
  destruct (straight_offered_after_roll g) as [H _];
    [vm_compute; reflexivity | vm_compute; constructor | vm_compute; constructor |].
  destruct H as (_ & _ & m & Hm & _ & Hoffer);
    [split; [vm_compute; reflexivity|exact Hfos]|].
  exists m. split; [exact Hm|exact Hoffer].
Defined.

Section straight_setup.
Import FarkleGame.
Implicit Types (g : FarkleGame.t) (dice : list Z).

(** The duplicated face is the one [_attemptStraight] looks up. *)
Lemma duplicate_found dice d :
  occ d dice = 2 → (∀ v, v ≠ d → occ v dice ≤ 1) →
  find (λ v, bool_decide (countFrequency dice !! v = Some 2))
       (Object_keys (countFrequency dice)) = Some d.
Proof.
  intros Hd Hothers.
  destruct (find _ _) as [x|] eqn:E.
  - apply find_some in E as [_ Hx]. apply bool_decide_eq_true in Hx.
    rewrite countFrequency_lookup in Hx. case_decide; [|done].
    injection Hx as Hx. destruct (decide (x = d)) as [->|Hne]; [done|].
    specialize (Hothers x Hne). lia.
  - exfalso. assert (d ∈ dice) as Hin by (apply occ_pos; lia).
    eapply find_none in E.
    + apply bool_decide_eq_false in E. apply E.
      rewrite countFrequency_lookup, decide_True by done. by rewrite Hd.
    + apply list_elem_of_In. rewrite Object_keys_countFrequency.
      by apply elem_of_remove_dups.
Qed.

(** Once a die is kept, the loop sets every further die aside. *)
Lemma keep_rest (values : list Z) dupVal (k : nat) (l : list nat) : ∀ sa : JsSet.t,
  foldl (keep_one_duplicate values dupVal) (Some k, sa) l
  = (Some k, foldl (λ s i, JsSet.add i s) sa l).
Proof.
  induction l as [|i l IH]; intros sa; [done|]. cbn [foldl].
  unfold keep_one_duplicate at 2. rewrite andb_false_r. apply IH.
Qed.

(** The loop keeps the first die that shows the duplicated face. *)
Lemma keep_first (values : list Z) (d : Z) (k : nat) (pre post : list nat) :
  ∀ sa : JsSet.t,
  values !! k = Some d → Forall (λ j, values !! j ≠ Some d) pre →
  foldl (keep_one_duplicate values (Some d)) (None, sa) (pre ++ k :: post)
  = (Some k, foldl (λ s i, JsSet.add i s) sa (pre ++ post)).
Proof.
  induction pre as [|j pre IH]; intros sa Hk Hpre; cbn [app foldl].
  - unfold keep_one_duplicate at 2.
    rewrite bool_decide_eq_true_2 by done. cbn. apply keep_rest.
  - inversion Hpre; subst. unfold keep_one_duplicate at 2.
    rewrite bool_decide_eq_false_2 by done. cbn [andb]. by apply IH.
Qed.

(** Replacing one die moves one occurrence from its face to the new one. *)
Lemma occ_insert dice (k : nat) (d m v : Z) :
  dice !! k = Some d →
  occ v (<[k := m]> dice)
  = occ v dice - (if decide (d = v) then 1 else 0) + (if decide (m = v) then 1 else 0).
Proof.
  revert k. induction dice as [|x dice IH]; intros k Hk; [done|].
  destruct k as [|k].
  - injection Hk as ->. change (<[0%nat := m]> (d :: dice)) with (m :: dice).
    rewrite !occ_cons. lia.
  - change (<[S k := m]> (x :: dice)) with (x :: <[k := m]> dice).
    change ((x :: dice) !! S k) with (dice !! k) in Hk.
    rewrite !occ_cons, (IH k Hk). lia.
Qed.

(** With five of the six faces on six dice, the missing face in place of
    one of the two equal dice completes the straight. *)
Lemma straight_completed dice (k : nat) (d m : Z) :
  length dice = 6%nat → five_of_six dice → occ d dice = 2 →
  dice !! k = Some d → missing_face dice m →
  full_straight (<[k := m]> dice).
Proof.
  intros Hsix (Hfive & Hrange & d' & Hd' & Hothers) Hd Hk [Hm Hnm].
  assert (d' = d) as ->.
  { destruct (decide (d' = d)) as [|Hne]; [done|].
    specialize (Hothers d ltac:(done)). lia. }
  split; [by rewrite length_insert|].
  pose proof (total_occ faces dice NoDup_faces) as Hsum.
  rewrite Hsix in Hsum.
  specialize (Hsum ltac:(intros x Hx; apply faces_is_face;
                         by apply (proj1 (Forall_forall _ _) Hrange))).
  unfold faces, total_of in Hsum. cbn in Hsum.
  assert (is_face d) as Hdf.
  { apply (proj1 (Forall_forall _ _) Hrange). apply occ_pos. lia. }
  pose proof (occ_zero m dice Hnm) as Hz.
  pose proof (Hothers 1). pose proof (Hothers 2). pose proof (Hothers 3).
  pose proof (Hothers 4). pose proof (Hothers 5). pose proof (Hothers 6).
  pose proof (occ_nonneg 1 dice). pose proof (occ_nonneg 2 dice).
  pose proof (occ_nonneg 3 dice). pose proof (occ_nonneg 4 dice).
  pose proof (occ_nonneg 5 dice). pose proof (occ_nonneg 6 dice).
  unfold is_face in Hm, Hdf.
  assert (d = 1 ∨ d = 2 ∨ d = 3 ∨ d = 4 ∨ d = 5 ∨ d = 6) as Hdc by lia.
  assert (m = 1 ∨ m = 2 ∨ m = 3 ∨ m = 4 ∨ m = 5 ∨ m = 6) as Hmc by lia.
  unfold faces. repeat apply Forall_cons_2; try apply Forall_nil_2;
    rewrite (occ_insert dice k d m _ Hk);
    destruct Hdc as [ -> | [ -> | [ -> | [ -> | [ -> | -> ]]]]];
    destruct Hmc as [ -> | [ -> | [ -> | [ -> | [ -> | -> ]]]]];
    repeat case_decide; try lia.
Qed.

End straight_setup.

(** X26.  A straight attempt re-rolls one die.  When the straight is
    attempted in state [selecting] with nothing set aside, the engine at
    rest and six dice showing five of the six faces, [_attemptStraight]
    keeps the first die [k] that shows the duplicated face for the roll and
    sets the five others aside, in index order; these five are held, die
    [k] alone takes a new value, the roll is in progress in state
    [straightAttempt], the roll is counted, the turn score is untouched and
    the handler waits for die [k] with the missing value of the offer.  If
    the new value of die [k] is the face that was missing, the six dice
    form the full straight. *)
Theorem straight_attempt_rerolls_one_die
    (rnd : nat → Z) (g : FarkleGame.t) (sa : StraightAttempt) :
  FarkleGame.turnState g = FarkleGame.selecting →
  FarkleGame.straightAttemptData g = Some sa →
  FarkleGame.setAsideDice g = JsSet.empty →
  DiceEngine.isRolling (FarkleGame.diceEngine g) = false →
  DiceEngine.count (FarkleGame.diceEngine g) = 6%nat →
  let dice := DiceEngine.values (FarkleGame.diceEngine g) in
  length dice = 6%nat → five_of_six dice →
  let g' := FarkleGame._attemptStraight rnd g in
  ∃ (k : nat) (d : Z),
    (k < 6)%nat ∧ dice !! k = Some d ∧ occ d dice = 2
    ∧ (∀ j, (j < k)%nat → dice !! j ≠ Some d)
    ∧ FarkleGame.setAsideDice g' = filter (λ i, i ≠ k) FarkleGame.six
    ∧ FarkleGame.selectedDice g' = JsSet.empty
    ∧ (∀ i, (i < 6)%nat →
            DiceEngine.held (FarkleGame.diceEngine g') !! i
            = Some (bool_decide (i ≠ k)))
    ∧ DiceEngine.values (FarkleGame.diceEngine g') = <[k := rnd k]> dice
    ∧ DiceEngine.isRolling (FarkleGame.diceEngine g') = true
    ∧ FarkleGame.turnState g' = FarkleGame.straightAttempt
    ∧ FarkleGame.rollCount g' = FarkleGame.rollCount g + 1
    ∧ FarkleGame.turnScore g' = FarkleGame.turnScore g
    ∧ FarkleGame.straightHandler g' = Some (Some k, missingValue sa)
    ∧ ∀ m, missing_face dice m → rnd k = m →
           full_straight (DiceEngine.values (FarkleGame.diceEngine g')).
Proof.
  intros Hts Hsad Hsa Hir Hcount dice Hsix Hfos g'.
  assert (DiceEngine.values (FarkleGame.diceEngine g) = dice) as Hdice by done.
  clearbody dice.
  pose proof Hfos as (_ & _ & d & Hd & Hothers).
  assert (d ∈ dice) as Hin by (apply occ_pos; lia).
  destruct (list_find (λ x, x = d) dice) as [[k x]|] eqn:Ef; cycle 1.
  { apply list_find_None in Ef. exfalso.
    by apply (proj1 (Forall_forall _ _) Ef d Hin). }
  apply list_find_Some in Ef as (Hk & -> & Hfirst).
  assert (k < 6)%nat as Hk6 by (rewrite <- Hsix; by eapply lookup_lt_Some).
  assert (∀ j, (j < k)%nat → dice !! j ≠ Some d) as Hfirst'.
  { intros j Hj Hjd. by apply (Hfirst j d Hjd Hj). }
  exists k, d. do 4 (split; [done|]).
  assert (∀ m, missing_face dice m → full_straight (<[k := m]> dice)) as Hfull.
  { intros m Hm. by eapply straight_completed. }
  assert (g' = FarkleGame._attemptStraight rnd g) as Hg' by done. clearbody g'.
  unfold FarkleGame._attemptStraight in Hg'.
  rewrite Hsad, Hts in Hg'. cbn [negb] in Hg'.
  rewrite bool_decide_eq_true_2 in Hg' by done. cbn [negb] in Hg'. cbv zeta in Hg'.
  change (DiceEngine.values
            (FarkleGame.diceEngine
               (FarkleGame.set_turnState FarkleGame.straightAttempt g)))
    with (DiceEngine.values (FarkleGame.diceEngine g)) in Hg'.
  rewrite Hdice in Hg'.
  rewrite (duplicate_found dice d Hd Hothers) in Hg'.
  change (FarkleGame.setAsideDice
            (FarkleGame.set_turnState FarkleGame.straightAttempt g))
    with (FarkleGame.setAsideDice g) in Hg'.
  rewrite Hsa in Hg'.
  assert (∀ pre post,
            FarkleGame.six = pre ++ k :: post →
            Forall (λ j, (j < k)%nat) pre →
            foldl (FarkleGame.keep_one_duplicate dice (Some d)) (None, JsSet.empty)
                  FarkleGame.six
            = (Some k, foldl (λ s i, JsSet.add i s) JsSet.empty (pre ++ post)))
    as Hloop.
  { intros pre post -> Hpre. apply keep_first; [done|].
    eapply Forall_impl; [exact Hpre|]. intros j Hj. by apply Hfirst'. }
  assert (∀ pre post,
            FarkleGame.six = pre ++ k :: post →
            Forall (λ j, (j < k)%nat) pre →
            g' = FarkleGame.set_diceEngine (DiceEngine.roll rnd
                   (DiceEngine.set_rollsLeft 1 (DiceEngine.set_held
                      (FarkleGame.hold_set_aside
                         (foldl (λ s i, JsSet.add i s) JsSet.empty (pre ++ post))
                         (replicate 6 false)) (FarkleGame.diceEngine g)))).1
                   (FarkleGame.set_straightHandler (Some (Some k, missingValue sa))
                      (FarkleGame.set_rollCount (FarkleGame.rollCount g + 1)
                         (FarkleGame.set_diceEngine
                            (DiceEngine.set_rollsLeft 1 (DiceEngine.set_held
                               (FarkleGame.hold_set_aside
                                  (foldl (λ s i, JsSet.add i s) JsSet.empty (pre ++ post))
                                  (replicate 6 false)) (FarkleGame.diceEngine g)))
                            (FarkleGame.set_selectedDice JsSet.empty
                               (FarkleGame.set_setAsideDice
                                  (foldl (λ s i, JsSet.add i s) JsSet.empty (pre ++ post))
                                  (FarkleGame.set_turnState FarkleGame.straightAttempt g)))))))
    as Hstep.
  { intros pre post Hpp Hpre. by rewrite (Hloop pre post Hpp Hpre) in Hg'. }
  clear Hg' Hloop Hfos Hd Hothers Hin Hfirst Hfirst' Hts Hsad.
  destruct g as [ps cpi ts rc sad sd tst sadata fr frtp phft e sh tm sv w].
  destruct e as [c s mr vs hs rl hr ir].
  cbn in Hsa, Hir, Hcount, Hdice. subst sad ir c vs.
  destruct dice as [|v0 [|v1 [|v2 [|v3 [|v4 [|v5 [|]]]]]]]; try discriminate Hsix.
  destruct k as [|[|[|[|[|[|]]]]]]; try lia;
    [ specialize (Hstep [] [1; 2; 3; 4; 5]%nat eq_refl ltac:(repeat constructor; lia))
    | specialize (Hstep [0]%nat [2; 3; 4; 5]%nat eq_refl ltac:(repeat constructor; lia))
    | specialize (Hstep [0; 1]%nat [3; 4; 5]%nat eq_refl ltac:(repeat constructor; lia))
    | specialize (Hstep [0; 1; 2]%nat [4; 5]%nat eq_refl ltac:(repeat constructor; lia))
    | specialize (Hstep [0; 1; 2; 3]%nat [5]%nat eq_refl ltac:(repeat constructor; lia))
    | specialize (Hstep [0; 1; 2; 3; 4]%nat [] eq_refl ltac:(repeat constructor; lia)) ];
    vm_compute in Hstep; subst g';
    (split; [reflexivity|]); (split; [reflexivity|]);
    (split; [intros i Hi; destruct i as [|[|[|[|[|[|]]]]]]; try lia; reflexivity|]);
    do 6 (split; [reflexivity|]);
    intros m Hm Hr; specialize (Hfull m Hm); rewrite <- Hr in Hfull; exact Hfull.
Qed.

(** X26 on the roll 2,3,4,6,2,5 with a one drawn for the re-rolled die. *)
Lemma straight_attempt_rerolls_one_die_witness :
  let g := Samples.rolled Samples.mixed Samples.fresh in
  let g' := FarkleGame._attemptStraight (λ _, 1) g in
  five_of_six (DiceEngine.values (FarkleGame.diceEngine g))
  ∧ FarkleGame.setAsideDice g' = [1; 2; 3; 4; 5]%nat
  ∧ full_straight (DiceEngine.values (FarkleGame.diceEngine g')).
Proof.
  intros g g'.
  assert (DiceEngine.values (FarkleGame.diceEngine g) = [2; 3; 4; 6; 2; 5]) as Hv
    by (vm_compute; reflexivity).
  assert (five_of_six (DiceEngine.values (FarkleGame.diceEngine g))) as Hfos.
  { rewrite Hv. split; [vm_compute; reflexivity|].
    split; [repeat constructor; unfold is_face; lia|].
    exists 2. split; [vm_compute; reflexivity|]. intros v Hne. rewrite !occ_cons.
    change (occ v []) with 0. repeat case_decide; lia. }
  assert (missing_face (DiceEngine.values (FarkleGame.diceEngine g)) 1) as Hm.
  { rewrite Hv. split; [unfold is_face; lia|].
    intros H. repeat (apply elem_of_cons in H as [H|H]; [discriminate H|]).
    by apply elem_of_nil in H. }
  split; [exact Hfos|].
  destruct (straight_attempt_rerolls_one_die (λ _, 1) g
              {| possible := true; missingValue := Some 1 |})
    as (k & d & _ & _ & _ & _ & _ & _ & _ & _ & _ & _ & _ & _ & _ & Hfull);
    [vm_compute; reflexivity .. | exact Hfos |].
  split; [vm_compute; reflexivity|].
  by apply (Hfull 1).
Defined.

(** * Yahtzee: the categories of the score sheet *)

Section yahtzee_scoring.
Import Yahtzee.
Implicit Types (d : list Z) (v : Z).

Lemma sum_from (a : Z) d : foldl Z.add a d = a + sum d.
Proof.
  unfold sum. revert a. induction d as [|x d IH]; intros a; cbn [foldl]; [lia|].
  rewrite (IH (a + x)), (IH (0 + x)). lia.
Qed.

Lemma sum_cons x d : sum (x :: d) = x + sum d.
Proof. unfold sum at 1. cbn [foldl]. rewrite sum_from. lia. Qed.

Lemma sum_Permutation d1 d2 : d1 ≡ₚ d2 → sum d1 = sum d2.
Proof.
  induction 1 as [|x l1 l2 _ IH|x y l|l1 l2 l3 _ IH1 _ IH2];
    rewrite ?sum_cons; lia.
Qed.

Lemma counts_Permutation d1 d2 : d1 ≡ₚ d2 → counts d1 = counts d2.
Proof.
  intros H. apply map_eq. intros v.
  change (countFrequency d1 !! v = countFrequency d2 !! v).
  rewrite !countFrequency_lookup, (occ_Permutation v _ _ H).
  destruct (decide (v ∈ d1)) as [Hin|Hin].
  - rewrite decide_True; [done|]. by rewrite <- H.
  - rewrite decide_False; [done|]. by rewrite <- H.
Qed.

Lemma merge_sort_Permutation_eq d1 d2 :
  d1 ≡ₚ d2 → merge_sort Z.le d1 = merge_sort Z.le d2.
Proof.
  intros H. apply (Sorted_unique Z.le); [apply Sorted_merge_sort; apply _ ..|].
  by rewrite !merge_sort_Permutation.
Qed.

Lemma yahtzeeCheck_spec d : yahtzeeCheck d = 50 ↔ ∀ x y, x ∈ d → y ∈ d → x = y.
Proof.
  destruct d as [|d0 d]; cbn [yahtzeeCheck].
  { split; [|done]. intros _ x y Hx. by apply elem_of_nil in Hx. }
  destruct (forallb _ (d0 :: d)) eqn:E.
  - split; [|done]. intros _ x y Hx Hy.
    rewrite forallb_forall in E.
    apply list_elem_of_In, E, bool_decide_eq_true in Hx.
    apply list_elem_of_In, E, bool_decide_eq_true in Hy. congruence.
  - split; [done|]. intros Hall. exfalso.
    assert (forallb (λ v, bool_decide (v = d0)) (d0 :: d) = true) as Ht; [|congruence].
    apply forallb_forall. intros x Hx. apply bool_decide_eq_true.
    apply Hall; [by apply list_elem_of_In|by left].
Qed.

Lemma yahtzeeCheck_values d : yahtzeeCheck d = 50 ∨ yahtzeeCheck d = 0.
Proof.
  destruct d as [|d0 d]; cbn [yahtzeeCheck]; [by left|].
  destruct (forallb _ (d0 :: d)); auto.
Qed.

Lemma yahtzeeCheck_Permutation d1 d2 : d1 ≡ₚ d2 → yahtzeeCheck d1 = yahtzeeCheck d2.
Proof.
  intros H.
  assert (yahtzeeCheck d1 = 50 ↔ yahtzeeCheck d2 = 50) as Hiff.
  { rewrite !yahtzeeCheck_spec. split; intros Hall x y Hx Hy; apply Hall.
    all: first [by rewrite H | by rewrite <- H]. }
  destruct (yahtzeeCheck_values d1) as [E1|E1], (yahtzeeCheck_values d2) as [E2|E2];
    try congruence.
  - apply Hiff in E1. congruence.
  - apply Hiff in E2. congruence.
Qed.

End yahtzee_scoring.

(** X13.  The score of a Yahtzee category does not depend on the order of
    the dice: for every category of the score sheet, two rolls that are
    permutations of each other get the same score. *)
Theorem category_scores_ignore_order (c : Yahtzee.Category) (d1 d2 : list Z) :
  c ∈ Yahtzee.categories → d1 ≡ₚ d2 → Yahtzee.calc c d1 = Yahtzee.calc c d2.
Proof.
  intros Hc H. unfold Yahtzee.categories in Hc.
  assert (∀ v, Yahtzee.countDice d1 v = Yahtzee.countDice d2 v) as Hcount.
  { intros v. unfold Yahtzee.countDice. apply sum_Permutation. by rewrite H. }
  repeat (apply elem_of_cons in Hc as [->|Hc]); cbn [Yahtzee.calc];
    try apply Hcount; try done.
  - unfold Yahtzee.threeOfAKind.
    by rewrite (counts_Permutation _ _ H), (sum_Permutation _ _ H).
  - unfold Yahtzee.fourOfAKind.
    by rewrite (counts_Permutation _ _ H), (sum_Permutation _ _ H).
  - unfold Yahtzee.fullHouse. by rewrite (counts_Permutation _ _ H).
  - unfold Yahtzee.smallStraight.
    by rewrite (merge_sort_Permutation_eq _ _ (remove_dups_Permutation _ _ H)).
  - unfold Yahtzee.largeStraight. by rewrite (merge_sort_Permutation_eq _ _ H).
  - by apply yahtzeeCheck_Permutation.
  - by apply sum_Permutation.
  - by apply elem_of_nil in Hc.
Qed.

(** X13 on a small straight rolled out of order. *)
Lemma category_scores_ignore_order_witness :
  Yahtzee.smallStraight [3; 1; 4; 2; 6] = Yahtzee.smallStraight [1; 2; 3; 4; 6].
Proof.
  apply (category_scores_ignore_order
           {| Yahtzee.id := "smallStraight"; Yahtzee.type := Yahtzee.lower;
              Yahtzee.calc := Yahtzee.smallStraight |}
           [3; 1; 4; 2; 6] [1; 2; 3; 4; 6]).
  - unfold Yahtzee.categories. do 10 apply list_elem_of_further. apply list_elem_of_here.
  - apply (Permutation_trans (l' := [1; 3; 4; 2; 6])); [apply perm_swap|].
    apply perm_skip.
    apply (Permutation_trans (l' := [3; 2; 4; 6])); [apply perm_skip, perm_swap|].
    apply perm_swap.
Defined.

Section yahtzee_kinds.
Import Yahtzee.
Implicit Types (d : list Z) (v : Z).

Lemma countDice_occ d v : countDice d v = v * occ v d.
Proof.
  unfold countDice. rewrite filter_eq_replicate.
  pose proof (occ_nonneg v d) as Hpos.
  generalize (Z.to_nat (occ v d)) (Z2Nat.id _ Hpos). intros n <-.
  induction n as [|n IH]; [unfold sum; cbn; lia|].
  cbn [replicate]. rewrite sum_cons, IH. lia.
Qed.

Lemma of_a_kind (k : Z) d :
  0 < k →
  existsb (λ c, bool_decide (k ≤ c)) (Object_values (counts d)) = true
  ↔ ∃ v, k ≤ occ v d.
Proof.
  intros Hk. apply (existsb_values_countFrequency (λ c, k ≤ c)). lia.
Qed.

Lemma values_countFrequency (c : Z) d :
  0 < c → c ∈ Object_values (counts d) ↔ ∃ v, occ v d = c.
Proof.
  intros Hc. change (counts d) with (countFrequency d).
  rewrite Object_values_countFrequency, list_elem_of_fmap. split.
  - intros (v & -> & _). by exists v.
  - intros (v & <-). exists v. split; [done|].
    apply elem_of_remove_dups, occ_pos. lia.
Qed.

Lemma filter_all {A} (P : A → Prop) `{∀ x, Decision (P x)} (l : list A) :
  length (filter P l) = length l → Forall P l.
Proof.
  induction l as [|x l IH]; [constructor|].
  rewrite filter_cons. pose proof (length_filter P l).
  case_decide; cbn [length]; intros Hl; [|lia].
  constructor; [done|]. apply IH. lia.
Qed.

Lemma occ_filter_ne a b d : b ≠ a → occ b (filter (λ x, ¬ x = a) d) = occ b d.
Proof.
  intros Hne. unfold occ. f_equal. f_equal.
  rewrite list_filter_filter. apply list_filter_iff. intros x. split; [tauto|].
  intros ->. done.
Qed.

(** Five dice with three of one face and two of another. *)
Lemma full_house_shape d a b :
  length d = 5%nat → occ a d = 3 → occ b d = 2 → a ≠ b ∧ d ≡ₚ [a; a; a; b; b].
Proof.
  intros Hlen Ha Hb.
  assert (a ≠ b) as Hne by (intros ->; lia). split; [done|].
  pose proof (filter_app_complement (λ x, x = a) d) as Hsplit.
  rewrite filter_eq_replicate, Ha in Hsplit. cbn [Z.to_nat Pos.to_nat Pos.iter_op replicate] in Hsplit.
  change (Z.to_nat 3) with 3%nat in Hsplit. cbn [replicate] in Hsplit.
  set (K := filter (λ x, ¬ x = a) d) in *.
  assert (length K = 2%nat) as HK.
  { apply Permutation_length in Hsplit. rewrite length_app, Hlen in Hsplit.
    cbn [length] in Hsplit. lia. }
  assert (Forall (λ x, x = b) K) as Hall.
  { apply (filter_all (λ x, x = b) K). pose proof (occ_filter_ne a b d ltac:(done)) as Ho.
    fold K in Ho. unfold occ in Ho, Hb. lia. }
  destruct K as [|x [|y [|]]]; try discriminate HK.
  inversion Hall as [|? ? -> Hall']; subst. inversion Hall' as [|? ? -> _]; subst.
  by rewrite <- Hsplit.
Qed.

End yahtzee_kinds.

(** X14.  The sums and the kinds of the Yahtzee score sheet.  For any dice:
    an upper category scores its face times the number of dice showing it;
    three (four) of a kind scores the sum of all dice when some face shows
    on at least three (four) dice and 0 otherwise; chance scores the sum;
    the Yahtzee category scores 50 when all dice are equal and 0 otherwise;
    a full house scores 25 when some face shows exactly three times and
    some face exactly twice, and 0 otherwise: for five dice, exactly for
    three of one face and two of another, so five of a kind is no full
    house. *)
Theorem sums_and_kinds (d : list Z) :
  (∀ v, Yahtzee.countDice d v = v * occ v d)
  ∧ ((∃ v, 3 ≤ occ v d) → Yahtzee.threeOfAKind d = Yahtzee.sum d)
  ∧ (¬ (∃ v, 3 ≤ occ v d) → Yahtzee.threeOfAKind d = 0)
  ∧ ((∃ v, 4 ≤ occ v d) → Yahtzee.fourOfAKind d = Yahtzee.sum d)
  ∧ (¬ (∃ v, 4 ≤ occ v d) → Yahtzee.fourOfAKind d = 0)
  ∧ Yahtzee.chance d = Yahtzee.sum d
  ∧ ((∀ x y, x ∈ d → y ∈ d → x = y) → Yahtzee.yahtzeeCheck d = 50)
  ∧ (¬ (∀ x y, x ∈ d → y ∈ d → x = y) → Yahtzee.yahtzeeCheck d = 0)
  ∧ ((∃ a, occ a d = 3) ∧ (∃ b, occ b d = 2) → Yahtzee.fullHouse d = 25)
  ∧ (¬ ((∃ a, occ a d = 3) ∧ (∃ b, occ b d = 2)) → Yahtzee.fullHouse d = 0)
  ∧ (length d = 5%nat →
     Yahtzee.fullHouse d = 25 ↔ ∃ a b, a ≠ b ∧ d ≡ₚ [a; a; a; b; b])
  ∧ (length d = 5%nat → Yahtzee.yahtzeeCheck d = 50 → Yahtzee.fullHouse d = 0).
Proof.
  assert (Yahtzee.fullHouse d = 25 ↔ (∃ a, occ a d = 3) ∧ (∃ b, occ b d = 2)) as Hfh.
  { unfold Yahtzee.fullHouse. cbv zeta.
    rewrite <- (values_countFrequency 3 d), <- (values_countFrequency 2 d) by lia.
    do 2 case_bool_decide; cbn [andb]; split; try done; tauto. }
  assert (Yahtzee.fullHouse d = 25 ∨ Yahtzee.fullHouse d = 0) as Hfv.
  { unfold Yahtzee.fullHouse. cbv zeta. destruct (_ && _); auto. }
  split; [apply countDice_occ|].
  split. { intros H. unfold Yahtzee.threeOfAKind. by rewrite (proj2 (of_a_kind 3 d ltac:(lia)) H). }
  split. { intros H. unfold Yahtzee.threeOfAKind.
           destruct (existsb _ _) eqn:E; [|done]. by apply (of_a_kind 3 d) in E. }
  split. { intros H. unfold Yahtzee.fourOfAKind. by rewrite (proj2 (of_a_kind 4 d ltac:(lia)) H). }
  split. { intros H. unfold Yahtzee.fourOfAKind.
           destruct (existsb _ _) eqn:E; [|done]. by apply (of_a_kind 4 d) in E. }
  split; [done|].
  split; [by apply yahtzeeCheck_spec|].
  split. { intros H. destruct (yahtzeeCheck_values d) as [E|E]; [|done].
           exfalso. apply H. by apply yahtzeeCheck_spec. }
  split; [by apply Hfh|].
  split. { intros H. destruct Hfv as [E|E]; [|done]. by apply Hfh in E. }
  split.
  - intros Hlen. rewrite Hfh. split.
    + intros [[a Ha] [b Hb]]. exists a, b. by apply full_house_shape.
    + intros (a & b & Hne & Hp). split; [exists a|exists b].
      all: rewrite (occ_Permutation _ _ _ Hp), !occ_cons.
      all: change (occ _ []) with 0; repeat case_decide; congruence || lia.
  - intros Hlen Hy. destruct Hfv as [E|E]; [exfalso|done].
    apply Hfh in E as [[a Ha] [b Hb]].
    pose proof (proj1 (yahtzeeCheck_spec d) Hy) as Hall.
    assert (a ∈ d) by (apply occ_pos; lia). assert (b ∈ d) by (apply occ_pos; lia).
    assert (a = b) as -> by (by apply Hall). lia.
Qed.

(** X14 on five twos: a Yahtzee, no full house. *)
Lemma sums_and_kinds_witness : Yahtzee.fullHouse [2; 2; 2; 2; 2] = 0.
Proof.
  destruct (sums_and_kinds [2; 2; 2; 2; 2])
    as (_ & _ & _ & _ & _ & _ & _ & _ & _ & _ & _ & H).
  apply H; reflexivity.
Defined.

Section yahtzee_straights.
Import Yahtzee.
Implicit Types (d : list Z) (v : Z).

(** The distinct faces of a roll, in ascending order. *)
Lemma sorted_faces d :
  Forall is_face d →
  merge_sort Z.le (remove_dups d) = filter (λ v, v ∈ d) faces.
Proof.
  intros Hf.
  assert (remove_dups d ≡ₚ filter (λ v, v ∈ d) faces) as Hp.
  { apply NoDup_Permutation; [apply NoDup_remove_dups|apply NoDup_filter, NoDup_faces|].
    intros v. rewrite elem_of_remove_dups, list_elem_of_filter, faces_is_face.
    rewrite Forall_forall in Hf. split; [auto|tauto]. }
  rewrite (merge_sort_Permutation_eq _ _ Hp).
  unfold faces. rewrite !filter_cons, filter_nil.
  repeat case_decide; reflexivity.
Qed.

Lemma smallStraight_faces d :
  Forall is_face d →
  smallStraight d
  = if bool_decide (1 ∈ d) && bool_decide (2 ∈ d) && bool_decide (3 ∈ d)
       && bool_decide (4 ∈ d)
       || bool_decide (2 ∈ d) && bool_decide (3 ∈ d) && bool_decide (4 ∈ d)
          && bool_decide (5 ∈ d)
       || bool_decide (3 ∈ d) && bool_decide (4 ∈ d) && bool_decide (5 ∈ d)
          && bool_decide (6 ∈ d)
    then 30 else 0.
Proof.
  intros Hf. unfold smallStraight. cbv zeta. rewrite (sorted_faces d Hf).
  unfold faces. rewrite !filter_cons, filter_nil.
  repeat case_bool_decide; repeat (case_decide; try done); reflexivity.
Qed.

Lemma sorted_is (l d : list Z) :
  Sorted Z.le l → merge_sort Z.le d = l ↔ d ≡ₚ l.
Proof.
  intros Hs. split.
  - intros <-. by rewrite merge_sort_Permutation.
  - intros Hp. apply (Sorted_unique Z.le); [apply Sorted_merge_sort; apply _|done|].
    by rewrite merge_sort_Permutation.
Qed.

End yahtzee_straights.

(** X15.  The straights of the Yahtzee score sheet, for dice showing faces
    1-6.  A large straight scores 40 exactly when the dice are 1,2,3,4,5 or
    2,3,4,5,6 in some order, and 0 otherwise; a small straight scores 30
    exactly when the dice show all of 1,2,3,4, or all of 2,3,4,5, or all of
    3,4,5,6, and 0 otherwise; so a large straight is also a small
    straight. *)
Theorem straights_characterised (d : list Z) :
  Forall is_face d →
  (Yahtzee.largeStraight d = 40
   ↔ d ≡ₚ [1; 2; 3; 4; 5] ∨ d ≡ₚ [2; 3; 4; 5; 6])
  ∧ (Yahtzee.largeStraight d = 40 ∨ Yahtzee.largeStraight d = 0)
  ∧ (Yahtzee.smallStraight d = 30
     ↔ (1 ∈ d ∧ 2 ∈ d ∧ 3 ∈ d ∧ 4 ∈ d)
       ∨ (2 ∈ d ∧ 3 ∈ d ∧ 4 ∈ d ∧ 5 ∈ d)
       ∨ (3 ∈ d ∧ 4 ∈ d ∧ 5 ∈ d ∧ 6 ∈ d))
  ∧ (Yahtzee.smallStraight d = 30 ∨ Yahtzee.smallStraight d = 0)
  ∧ (Yahtzee.largeStraight d = 40 → Yahtzee.smallStraight d = 30).
Proof.
  intros Hf.
  assert (Yahtzee.largeStraight d = 40
          ↔ d ≡ₚ [1; 2; 3; 4; 5] ∨ d ≡ₚ [2; 3; 4; 5; 6]) as Hl.
  { unfold Yahtzee.largeStraight. cbv zeta.
    rewrite <- (sorted_is [1; 2; 3; 4; 5] d), <- (sorted_is [2; 3; 4; 5; 6] d)
      by (repeat constructor; lia).
    do 2 case_bool_decide; cbn [orb]; split; try done; tauto. }
  assert (Yahtzee.smallStraight d = 30
          ↔ (1 ∈ d ∧ 2 ∈ d ∧ 3 ∈ d ∧ 4 ∈ d)
            ∨ (2 ∈ d ∧ 3 ∈ d ∧ 4 ∈ d ∧ 5 ∈ d)
            ∨ (3 ∈ d ∧ 4 ∈ d ∧ 5 ∈ d ∧ 6 ∈ d)) as Hs.
  { rewrite (smallStraight_faces d Hf).
    repeat case_bool_decide; cbn [andb orb]; split; try done; tauto. }
  split; [done|].
  split. { unfold Yahtzee.largeStraight. cbv zeta. destruct (_ || _); auto. }
  split; [done|].
  split. { rewrite (smallStraight_faces d Hf). destruct (_ || _); auto. }
  intros [Hp|Hp]%Hl; apply Hs; [left|right; left]; rewrite Hp;
    rewrite !elem_of_cons; auto 10.
Qed.

(** X15 on the roll 2,3,4,5,6. *)
Lemma straights_characterised_witness :
  Forall is_face [2; 3; 4; 5; 6]
  ∧ (Yahtzee.largeStraight [2; 3; 4; 5; 6] = 40
     ↔ [2; 3; 4; 5; 6] ≡ₚ [1; 2; 3; 4; 5] ∨ [2; 3; 4; 5; 6] ≡ₚ [2; 3; 4; 5; 6]).
Proof.
  assert (Forall is_face [2; 3; 4; 5; 6]) as Hf
    by (repeat constructor; unfold is_face; lia).
  split; [exact Hf|].
  exact (proj1 (straights_characterised [2; 3; 4; 5; 6] Hf)).
Defined.

(** * Yahtzee: the score sheet and the turns *)

Section yahtzee_sheet.
Import Yahtzee.
Implicit Types (g : Yahtzee.t) (p q : Yahtzee.Player).

Lemma yahtzee_autoSave_players g : players (_autoSave g) = players g.
Proof. done. Qed.

(** What an event does to the players: nothing, or one new score for the
    player whose turn it is. *)
Lemma yahtzee_handle_players g ev :
  players (handle g ev) = players g
  ∨ ∃ p q catId, players g !! currentPlayerIndex g = Some p
      ∧ scores p !! catId = None
      ∧ name q = name p ∧ color q = color p
      ∧ (∃ s, scores q = <[catId := s]> (scores p))
      ∧ players (handle g ev) = <[currentPlayerIndex g := q]> (players g).
Proof.
  destruct ev as [rnd| |index|catId]; cbn [handle].
  - left. unfold _rollDice. by destruct (negb _).
  - by left.
  - left. unfold holdClick. destruct (DiceEngine.toggleHold _ _) as [e []]; done.
  - destruct (selectCategory_players catId g) as [?|(p & cat & Hp & Hfree & ->)];
      [by left|right].
    match goal with
    | |- ∃ _ _ _, _ ∧ _ ∧ _ ∧ _ ∧ _ ∧ <[_ := ?x]> _ = _ => set (q := x)
    end.
    exists p, q, catId. split; [done|]. split; [done|].
    assert (name q = name p ∧ color q = color p
            ∧ ∃ s, scores q = <[catId := s]> (scores p)) as (Hn & Hc & Hs).
    { unfold q.
      destruct (_ && _); [destruct (bool_decide (1 < _))|]; cbn; eauto. }
    done.
Qed.

Lemma written_once_step g ev i p catId s :
  players g !! i = Some p → scores p !! catId = Some s →
  ∃ q, players (handle g ev) !! i = Some q ∧ scores q !! catId = Some s
       ∧ name q = name p ∧ color q = color p.
Proof.
  intros Hp Hs.
  destruct (yahtzee_handle_players g ev)
    as [->|(p0 & q & c & Hp0 & Hfree & Hn & Hc & [s0 Hq] & ->)]; [by exists p|].
  destruct (decide (i = currentPlayerIndex g)) as [->|Hne].
  - assert (p0 = p) as -> by congruence.
    exists q. rewrite list_lookup_insert_eq by (by eapply lookup_lt_Some).
    split; [done|]. split; [|done]. rewrite Hq.
    rewrite lookup_insert_ne; [done|]. intros ->. congruence.
  - exists p. by rewrite list_lookup_insert_ne.
Qed.

End yahtzee_sheet.

(** X16.  A score is written once.  Whatever is rolled, held or selected
    afterwards, a category that holds a score for a player keeps that score,
    and the player keeps name and colour. *)
Theorem scores_are_written_once (g : Yahtzee.t) (evs : list Yahtzee.Event)
    (i : nat) (p : Yahtzee.Player) (catId : string) (s : Z) :
  Yahtzee.players g !! i = Some p →
  Yahtzee.scores p !! catId = Some s →
  ∃ q, Yahtzee.players (Yahtzee.run g evs) !! i = Some q
       ∧ Yahtzee.scores q !! catId = Some s
       ∧ Yahtzee.name q = Yahtzee.name p ∧ Yahtzee.color q = Yahtzee.color p.
Proof.
  revert g p. induction evs as [|ev evs IH]; intros g p Hp Hs; [by exists p|].
  destruct (written_once_step g ev i p catId s Hp Hs) as (q & Hq & Hqs & Hn & Hc).
  destruct (IH _ q Hq Hqs) as (r & Hr & Hrs & Hn' & Hc').
  exists r. split; [done|]. split; [done|]. split; congruence.
Qed.

(** X16 on the game with a Yahtzee scored: a second five-of-a-kind and two
    more clicks leave the 50 in place. *)
Lemma scores_are_written_once_witness :
  ∃ q, Yahtzee.players
         (Yahtzee.run Samples.yahtzee_scored
            [Yahtzee.RollButton Samples.threes; Yahtzee.RollFinished;
             Yahtzee.CategoryClick "yahtzee"; Yahtzee.CategoryClick "chance"])
       !! 0%nat = Some q
       ∧ Yahtzee.scores q !! "yahtzee" = Some 50
       ∧ Yahtzee.name q = "Alice" ∧ Yahtzee.color q = "#e74c3c".
Proof.
  apply (scores_are_written_once Samples.yahtzee_scored _ 0
           {| Yahtzee.name := "Alice"; Yahtzee.color := "#e74c3c";
              Yahtzee.scores := {["yahtzee" := 50]}; Yahtzee.yahtzees := 1 |}
           "yahtzee" 50); vm_compute; reflexivity.
Defined.

Section yahtzee_selection.
Import Yahtzee.
Implicit Types (g : Yahtzee.t) (p q : Yahtzee.Player).

(** The identifiers of the categories are distinct, so a category is found
    by its identifier. *)
Lemma find_category cat :
  cat ∈ categories → find (λ c, bool_decide (id c = id cat)) categories = Some cat.
Proof.
  unfold categories. intros Hin.
  repeat (apply elem_of_cons in Hin as [->|Hin]; [reflexivity|]).
  by apply elem_of_nil in Hin.
Qed.

End yahtzee_selection.

(** X17.  The score sheet records what it shows.  When the dice have been
    rolled and are at rest, the Yahtzee counters agree with the sheet (as
    in every game, [new_counted_once], [selectCategory_counted_once]) and
    the current player has not filled a category, selecting it records
    exactly the value [calc] gives for the dice, the potential score the
    sheet shows, in that category of that player and nowhere else. *)
Theorem selection_records_shown_score (g : Yahtzee.t) (p : Yahtzee.Player)
    (cat : Yahtzee.Category) :
  DiceEngine.hasRolled (Yahtzee.diceEngine g) = true →
  DiceEngine.isRolling (Yahtzee.diceEngine g) = false →
  Forall Yahtzee.counted_once (Yahtzee.players g) →
  Yahtzee.players g !! Yahtzee.currentPlayerIndex g = Some p →
  cat ∈ Yahtzee.categories →
  Yahtzee.scores p !! Yahtzee.id cat = None →
  let g' := Yahtzee._selectCategory (Yahtzee.id cat) g in
  ∃ q, Yahtzee.players g' = <[Yahtzee.currentPlayerIndex g := q]> (Yahtzee.players g)
       ∧ Yahtzee.scores q
         = <[Yahtzee.id cat :=
               Yahtzee.calc cat (DiceEngine.values (Yahtzee.diceEngine g))]>
             (Yahtzee.scores p)
       ∧ Yahtzee.name q = Yahtzee.name p.
Proof.
  intros Hrolled Hrest Hall Hp Hcat Hfree g'. unfold g', Yahtzee._selectCategory.
  rewrite Hrolled, Hrest, Hp, (find_category cat Hcat). cbn [negb orb].
  rewrite bool_decide_eq_false_2 by (rewrite Hfree; by intros [? ?]).
  assert (Yahtzee.counted_once p) as Hc.
  { rewrite Forall_forall in Hall. apply Hall. by eapply list_elem_of_lookup_2. }
  cbv zeta.
  destruct (bool_decide (Yahtzee.id cat = "yahtzee")
            && bool_decide (Yahtzee.calc cat _ = 50)) eqn:Ey.
  - apply andb_true_iff in Ey as [Hid%bool_decide_eq_true Hs%bool_decide_eq_true].
    assert (Yahtzee.yahtzees p = 0) as Hz.
    { destruct Hc as [?|[_ [x Hx]]]; [done|]. rewrite Hid in Hfree. congruence. }
    cbn [Yahtzee.yahtzees Yahtzee.set_yahtzees]. rewrite Hz.
    rewrite bool_decide_eq_false_2 by lia.
    eexists. split.
    { destruct (forallb _ _); [unfold Yahtzee._endGame|rewrite nextPlayer_players];
        reflexivity. }
    done.
  - eexists. split.
    { destruct (forallb _ _); [unfold Yahtzee._endGame|rewrite nextPlayer_players];
        reflexivity. }
    done.
Qed.

(** X17 on five threes scored as threes. *)
Lemma selection_records_shown_score_witness :
  ∃ q, Yahtzee.players
         (Yahtzee._selectCategory "threes" Samples.second_yahtzee_rolled)
       = <[0%nat := q]> (Yahtzee.players Samples.second_yahtzee_rolled)
       ∧ Yahtzee.scores q !! "threes" = Some 15
       ∧ Yahtzee.scores q !! "yahtzee" = Some 50.
Proof.
  set (alice := {| Yahtzee.name := "Alice"; Yahtzee.color := "#e74c3c";
                   Yahtzee.scores := {["yahtzee" := 50]}; Yahtzee.yahtzees := 1 |}).
  set (threes := {| Yahtzee.id := "threes"; Yahtzee.type := Yahtzee.upper;
                    Yahtzee.calc := λ d, Yahtzee.countDice d 3 |}).
  assert (Forall Yahtzee.counted_once (Yahtzee.players Samples.second_yahtzee_rolled))
    as Hall.
  { replace (Yahtzee.players Samples.second_yahtzee_rolled) with [alice]
      by (vm_compute; reflexivity).
    apply Forall_cons_2; [|apply Forall_nil_2].
    right. split; [reflexivity|]. exists 50. vm_compute. reflexivity. }
  assert (threes ∈ Yahtzee.categories) as Hcat.
  { unfold Yahtzee.categories. do 2 apply list_elem_of_further. apply list_elem_of_here. }
  destruct (selection_records_shown_score Samples.second_yahtzee_rolled alice threes
              eq_refl eq_refl Hall eq_refl Hcat eq_refl) as (q & Hq & Hs & _).
  exists q. split; [exact Hq|]. rewrite Hs. split; vm_compute; reflexivity.
Defined.

Section yahtzee_end.
Import Yahtzee.
Implicit Types (g : Yahtzee.t) (p q : Yahtzee.Player).

(** The loop of [_endGame] is the loop of the Farkle controller run on the
    totals of the score sheets. *)
Lemma yahtzee_winner_fold (ps : list Player) :
  foldl winner_step (-1, []) (imap pair ps)
  = FarkleGame.find_winners
      ((λ p, {| FarkleGame.name := name p; FarkleGame.color := color p;
                FarkleGame.totalScore := calculateTotal p categories |}) <$> ps).
Proof.
  unfold FarkleGame.find_winners.
  induction ps as [|x ps IH] using rev_ind; [done|].
  rewrite fmap_app, !imap_app, !foldl_app, IH, length_fmap. cbn [fmap list_fmap imap foldl].
  by destruct (foldl FarkleGame.winner_step _ _) as [m ws].
Qed.

Lemma yahtzee_winners_max (ps : list Player) (i : nat) :
  ps ≠ [] → Forall (λ p, 0 ≤ calculateTotal p categories) ps →
  i ∈ (foldl winner_step (-1, []) (imap pair ps)).2
  ↔ ∃ p, ps !! i = Some p
         ∧ ∀ q, q ∈ ps → calculateTotal q categories ≤ calculateTotal p categories.
Proof.
  intros Hne Hpos. rewrite yahtzee_winner_fold, find_winners_max.
  - rewrite list_lookup_fmap. split.
    + intros (fp & Hfp & Hall).
      destruct (ps !! i) as [p|] eqn:Hp; [|done]. injection Hfp as <-.
      exists p. split; [done|]. intros q Hq.
      apply (Hall {| FarkleGame.name := name q; FarkleGame.color := color q;
                     FarkleGame.totalScore := calculateTotal q categories |}).
      apply list_elem_of_fmap. by exists q.
    + intros (p & Hp & Hall). rewrite Hp. eexists. split; [done|].
      intros fq (q & -> & Hq)%list_elem_of_fmap. cbn. by apply Hall.
  - intros Hnil. apply fmap_nil_inv in Hnil. done.
  - apply Forall_fmap. eapply Forall_impl; [done|]. by intros p Hp.
Qed.

Lemma yahtzee_startTurn_winners fuel g : winners (_startTurn fuel g) = winners g.
Proof.
  revert g. induction fuel as [|fuel IH]; intros g; cbn [_startTurn].
  - destruct (players _ !! _) as [p|]; [|done]. by destruct (_isPlayerFinished p).
  - destruct (players _ !! _) as [p|]; [|done].
    destruct (_isPlayerFinished p); [|done]. cbn. by rewrite IH.
Qed.

(** An accepted selection ends the game or passes the turn. *)
Lemma selectCategory_outcome catId g :
  _selectCategory catId g = g
  ∨ ∃ g1, players g1 = players (_selectCategory catId g)
          ∧ winners g1 = winners g
          ∧ _selectCategory catId g
            = if forallb _isPlayerFinished (players g1)
              then _endGame g1 else _nextPlayer g1.
Proof.
  unfold _selectCategory.
  destruct (negb _ || _); [by left|].
  destruct (players g !! currentPlayerIndex g) as [p|]; [|by left].
  destruct (find _ categories) as [cat|]; [|by left].
  destruct (bool_decide (is_Some _)); [by left|]. right. cbv zeta.
  destruct (_ && _); [destruct (bool_decide (1 < _))|].
  all: eexists; split; [|split; [|reflexivity]]; [|done].
  all: cbn [players set_players]; destruct (forallb _ _);
    by rewrite ?nextPlayer_players.
Qed.

End yahtzee_end.

(** X18.  The last score ends the game, and the winners have the highest
    total.  As long as some player has an empty category after a selection,
    no winners are fixed by it; the accepted selection after which every
    player has filled every category fixes them, and with totals that are
    not negative the winners are exactly the players whose total
    ([calculateTotal]) is maximal, several on a tie. *)
Theorem last_score_ends_the_game (catId : string) (g : Yahtzee.t) :
  let g' := Yahtzee._selectCategory catId g in
  (forallb Yahtzee._isPlayerFinished (Yahtzee.players g') = false →
   Yahtzee.winners g' = Yahtzee.winners g)
  ∧ (g' ≠ g →
     forallb Yahtzee._isPlayerFinished (Yahtzee.players g') = true →
     Yahtzee.players g' ≠ [] →
     Forall (λ p, 0 ≤ Yahtzee.calculateTotal p Yahtzee.categories)
            (Yahtzee.players g') →
     ∃ ws, Yahtzee.winners g' = Some ws
           ∧ ∀ i, i ∈ ws
                  ↔ ∃ p, Yahtzee.players g' !! i = Some p
                         ∧ ∀ q, q ∈ Yahtzee.players g' →
                                Yahtzee.calculateTotal q Yahtzee.categories
                                ≤ Yahtzee.calculateTotal p Yahtzee.categories).
Proof.
  intros g'. unfold g'.
  destruct (selectCategory_outcome catId g) as [->|(g1 & Hp & Hw & ->)]; [done|].
  destruct (forallb Yahtzee._isPlayerFinished (Yahtzee.players g1)) eqn:Hall.
  - split.
    + cbn. rewrite Hall. discriminate.
    + intros _ _ Hne Hpos. cbn in Hne, Hpos |- *. eexists. split; [done|].
      intros i. by apply yahtzee_winners_max.
  - split.
    + intros _. unfold Yahtzee._nextPlayer. cbn.
      by rewrite yahtzee_startTurn_winners.
    + rewrite nextPlayer_players, Hall. discriminate.
Qed.

(** X18 on a game with categories left: no winners yet. *)
Lemma last_score_ends_the_game_witness :
  let g := Samples.second_yahtzee_rolled in
  Yahtzee.winners (Yahtzee._selectCategory "chance" g) = Yahtzee.winners g.
Proof.
  intros g.
  apply (proj1 (last_score_ends_the_game "chance" g)). vm_compute. reflexivity.
Defined.

Section yahtzee_turns.
Import Yahtzee.
Implicit Types (g : Yahtzee.t) (p q : Yahtzee.Player).
Local Open Scope nat_scope.

Lemma least_true (P : nat → bool) (m : nat) :
  (∃ k, k < m ∧ P k = true) →
  ∃ k, k < m ∧ P k = true ∧ ∀ j, j < k → P j = false.
Proof.
  induction m as [|m IH]; intros (k & Hk & HP); [lia|].
  assert (Decision (∃ j, j < m ∧ P j = true)) as Hdec.
  { destruct (decide (Exists (λ j, P j = true) (seq 0 m))) as [Hy|Hn]; [left|right].
    - apply Exists_exists in Hy as (j & Hj & HPj). apply elem_of_seq in Hj.
      exists j. split; [lia|done].
    - intros (j & Hj & HPj). apply Hn, Exists_exists. exists j.
      split; [|done]. apply elem_of_seq. lia. }
  destruct Hdec as [Hex|Hno].
  - destruct (IH Hex) as (k' & Hk' & HP' & Hleast). exists k'. split; [lia|done].
  - assert (k = m) as ->.
    { destruct (decide (k = m)); [done|]. exfalso. apply Hno. exists k. split; [lia|done]. }
    exists m. split; [lia|]. split; [done|]. intros j Hj.
    destruct (P j) eqn:E; [|done]. exfalso. apply Hno. by exists j.
Qed.

Lemma seat_advance g k :
  seat (advance g) k = seat g (S k).
Proof.
  unfold seat, advance. cbn. rewrite Nat.Div0.add_mod_idemp_l. f_equal. lia.
Qed.

Lemma seat_reset g k :
  seat_finished (set_diceEngine (DiceEngine.reset (diceEngine g)) g) k
  = seat_finished g k.
Proof. done. Qed.

(** [_startTurn] passes over the finished players. *)
Lemma startTurn_skips (k : nat) : ∀ fuel g,
  k ≤ fuel → currentPlayerIndex g < length (players g) →
  (∀ j, j < k → seat_finished g j = true) → seat_finished g k = false →
  currentPlayerIndex (_startTurn fuel g) = seat g k
  ∧ players (_startTurn fuel g) = players g
  ∧ DiceEngine.hasRolled (diceEngine (_startTurn fuel g)) = false
  ∧ DiceEngine.isRolling (diceEngine (_startTurn fuel g)) = false
  ∧ DiceEngine.rollsLeft (diceEngine (_startTurn fuel g))
    = DiceEngine.maxRolls (diceEngine g).
Proof.
  induction k as [|k IH]; intros fuel g Hfuel Hcur Hfin Hun.
  - unfold seat_finished, seat in Hun. rewrite Nat.add_0_r, Nat.mod_small in Hun by done.
    assert (_startTurn fuel g
            = set_diceEngine (DiceEngine.reset (diceEngine g)) g) as ->.
    { destruct fuel; cbn [_startTurn]; cbn [players set_diceEngine currentPlayerIndex];
        destruct (players g !! currentPlayerIndex g) as [p|]; try done;
        by rewrite Hun. }
    unfold seat. rewrite Nat.add_0_r, Nat.mod_small by done. done.
  - destruct fuel as [|fuel]; [lia|].
    pose proof (Hfin 0 ltac:(lia)) as H0.
    unfold seat_finished, seat in H0. rewrite Nat.add_0_r, Nat.mod_small in H0 by done.
    destruct (players g !! currentPlayerIndex g) as [p|] eqn:Hp; [|done].
    cbn [_startTurn]. cbn [players set_diceEngine currentPlayerIndex].
    rewrite Hp, H0.
    set (g1 := advance (set_diceEngine (DiceEngine.reset (diceEngine g)) g)).
    destruct (IH fuel g1) as (Hi & Hps & Hr & Hro & Hl).
    + lia.
    + unfold g1, advance. cbn. apply Nat.mod_upper_bound. lia.
    + intros j Hj. unfold g1. rewrite <- (Hfin (S j)) by lia.
      unfold seat_finished. by rewrite seat_advance.
    + unfold g1. rewrite <- Hun. unfold seat_finished. by rewrite seat_advance.
    + cbn [_autoSave set_saved currentPlayerIndex players diceEngine].
      rewrite Hi, Hps, Hr, Hro, Hl. unfold g1. rewrite seat_advance. done.
Qed.

End yahtzee_turns.

(** X19.  The turn passes to the next player who still has a category to
    fill.  When the turn index is a player and some player is unfinished,
    [_nextPlayer] makes it the turn of the first unfinished player after
    the current one in turn order (the current one again if all others are
    finished), leaves the players alone and hands over a reset engine.
    In particular the mutual recursion of [_startTurn] and [_nextPlayer]
    ends within one round of the table. *)
Theorem nextPlayer_finds_unfinished_player (g : Yahtzee.t) :
  (Yahtzee.currentPlayerIndex g < length (Yahtzee.players g))%nat →
  (∃ i p, Yahtzee.players g !! i = Some p ∧ Yahtzee._isPlayerFinished p = false) →
  let g' := Yahtzee._nextPlayer g in
  ∃ k, (1 ≤ k ≤ length (Yahtzee.players g))%nat
       ∧ Yahtzee.currentPlayerIndex g' = Yahtzee.seat g k
       ∧ Yahtzee.seat_finished g k = false
       ∧ (∀ j, (1 ≤ j < k)%nat → Yahtzee.seat_finished g j = true)
       ∧ Yahtzee.players g' = Yahtzee.players g
       ∧ DiceEngine.hasRolled (Yahtzee.diceEngine g') = false
       ∧ DiceEngine.isRolling (Yahtzee.diceEngine g') = false
       ∧ DiceEngine.rollsLeft (Yahtzee.diceEngine g')
         = DiceEngine.maxRolls (Yahtzee.diceEngine g).
Proof.
  intros Hcur (i & p & Hp & Hun) g'.
  set (n := length (Yahtzee.players g)) in *.
  assert (i < n)%nat as Hi by (by eapply lookup_lt_Some).
  assert (∃ k, (k < n)%nat ∧ Yahtzee.seat_finished g (S k) = false) as Hex.
  { pose proof (turns_after_inj n (Yahtzee.currentPlayerIndex g) i _ Hcur Hi eq_refl) as Hseat.
    pose proof (turns_after_bound n (Yahtzee.currentPlayerIndex g) i ltac:(lia)) as Hb.
    set (t := FarkleGame.turns_after n (Yahtzee.currentPlayerIndex g) i) in *.
    destruct t as [|t].
    - exists (n - 1)%nat. split; [lia|]. unfold Yahtzee.seat_finished, Yahtzee.seat.
      fold n. replace (Yahtzee.currentPlayerIndex g + S (n - 1))%nat
        with (Yahtzee.currentPlayerIndex g + 1 * n)%nat by lia.
      rewrite Nat.Div0.mod_add, Nat.mod_small by done.
      rewrite Nat.add_0_r, Nat.mod_small in Hseat by done. subst i.
      by rewrite Hp.
    - exists t. split; [lia|]. unfold Yahtzee.seat_finished, Yahtzee.seat.
      fold n. rewrite <- Hseat. by rewrite Hp. }
  destruct (least_true (λ k, negb (Yahtzee.seat_finished g (S k))) n) as (k & Hk & Hfk & Hleast).
  { destruct Hex as (k & Hk & Hf). exists k. split; [done|]. by rewrite Hf. }
  apply negb_true_iff in Hfk.
  set (g1 := Yahtzee.advance g).
  destruct (startTurn_skips k n g1) as (Hidx & Hps & Hr & Hro & Hl).
  - lia.
  - unfold g1, Yahtzee.advance. cbn. apply Nat.mod_upper_bound. fold n. lia.
  - intros j Hj. unfold Yahtzee.seat_finished, g1. rewrite seat_advance.
    specialize (Hleast j Hj). apply negb_false_iff in Hleast. exact Hleast.
  - unfold Yahtzee.seat_finished, g1. rewrite seat_advance. exact Hfk.
  - exists (S k). split; [lia|].
    unfold g', Yahtzee._nextPlayer. fold n. fold g1.
    cbn [Yahtzee._autoSave Yahtzee.set_saved Yahtzee.currentPlayerIndex
           Yahtzee.players Yahtzee.diceEngine].
    rewrite Hidx, Hps, Hr, Hro, Hl. unfold g1. rewrite seat_advance.
    split; [done|]. split; [done|]. split; [|done].
    intros j Hj. destruct j as [|j]; [lia|].
    specialize (Hleast j ltac:(lia)). by apply negb_false_iff in Hleast.
Qed.

(** X19 on a one-player game: the turn comes back to the player. *)
Lemma nextPlayer_finds_unfinished_player_witness :
  ∃ k, (1 ≤ k ≤ 1)%nat
       ∧ Yahtzee.currentPlayerIndex (Yahtzee._nextPlayer Samples.yahtzee_scored)
         = Yahtzee.seat Samples.yahtzee_scored k.
Proof.
  destruct (nextPlayer_finds_unfinished_player Samples.yahtzee_scored)
    as (k & Hk & Hi & _).
  - vm_compute. lia.
  - eexists 0%nat, _. split; vm_compute; reflexivity.
  - exists k. split; [exact Hk|exact Hi].
Defined.

(** X20.  A saved Yahtzee game comes back as it was.  Restoring what
    [_autoSave] stored gives the same players (names, colours, score sheets
    and Yahtzee counters), the same turn index and the same dice, held
    flags, rolls left and has-rolled flag, with no roll in progress; the
    roll button of the restored game is enabled exactly when the saved game
    had a roll left. *)
Theorem yahtzee_restore_round_trip (g g0 : Yahtzee.t)
    (ps : list Yahtzee.Player) (index : nat) (d : DiceEngine.State) :
  Yahtzee.saved (Yahtzee._autoSave g) = Some (ps, index, d) →
  let r := Yahtzee._restoreState ps index (Some d) g0 in
  Yahtzee.players r = Yahtzee.players g
  ∧ Yahtzee.currentPlayerIndex r = Yahtzee.currentPlayerIndex g
  ∧ DiceEngine.getState (Yahtzee.diceEngine r)
    = DiceEngine.getState (Yahtzee.diceEngine g)
  ∧ DiceEngine.isRolling (Yahtzee.diceEngine r) = false
  ∧ DiceEngine.canRoll (Yahtzee.diceEngine r)
    = bool_decide (0 < DiceEngine.rollsLeft (Yahtzee.diceEngine g))%Z.
Proof.
  cbn. intros [= <- <- <-]. cbn. split; [done|]. split; [done|].
  split; [done|]. split; [done|]. unfold DiceEngine.canRoll. cbn.
  by rewrite andb_true_r.
Qed.

(** X20 on the game saved after the second five-of-a-kind was rolled. *)
Lemma yahtzee_restore_round_trip_witness :
  Yahtzee.players
    (Yahtzee._restoreState (Yahtzee.players Samples.second_yahtzee_rolled) 0
       (Some (DiceEngine.getState (Yahtzee.diceEngine Samples.second_yahtzee_rolled)))
       (Yahtzee.new [("Alice", "#e74c3c")]))
  = Yahtzee.players Samples.second_yahtzee_rolled.
Proof.
  apply (yahtzee_restore_round_trip Samples.second_yahtzee_rolled
           (Yahtzee.new [("Alice", "#e74c3c")])).
  reflexivity.
Defined.

Section yahtzee_totals.
Import Yahtzee.

Lemma lower_categories :
  id <$> filter (λ c, type c = lower) categories
  = ["threeKind"; "fourKind"; "fullHouse"; "smallStraight"; "largeStraight";
     "yahtzee"; "chance"].
Proof. reflexivity. Qed.

Lemma lower_fold (p : Player) (z : Z) (cs : list Category) :
  foldl (λ total c, total + or0 (scores p !! id c)) z cs
  = foldl (λ total i, total + or0 (scores p !! i)) z (id <$> cs).
Proof. revert z. induction cs as [|c cs IH]; intros z; cbn; [done|]. by rewrite IH. Qed.

End yahtzee_totals.

(** X25.  Filling an empty category adds its score to the total.  For a
    row [c] of the score sheet that the player has not filled and a score
    [v ≥ 0], writing [v] raises [calculateUpperSum] by [v] when [c] is in
    the upper section and leaves it alone otherwise; [calculateTotal]
    rises by [v] (by nothing for the bonus row, which the total does not
    read) plus the 35 points of the upper bonus exactly when an upper
    category takes the upper sum from below 63 to 63 or more; so the total
    never goes down. *)
Theorem filling_a_category_adds_its_score
    (p : Yahtzee.Player) (c : Yahtzee.Category) (v : Z) :
  c ∈ Yahtzee.categories → Yahtzee.scores p !! Yahtzee.id c = None → 0 ≤ v →
  let q := Yahtzee.set_score (Yahtzee.id c) v p in
  let up := Yahtzee.calculateUpperSum p in
  Yahtzee.calculateUpperSum q
  = up + (if decide (Yahtzee.type c = Yahtzee.upper) then v else 0)
  ∧ Yahtzee.calculateTotal q Yahtzee.categories
    = Yahtzee.calculateTotal p Yahtzee.categories
      + (if decide (Yahtzee.type c = Yahtzee.bonus) then 0 else v)
      + (if bool_decide (Yahtzee.type c = Yahtzee.upper ∧ up < 63 ≤ up + v)
         then 35 else 0)
  ∧ Yahtzee.calculateTotal p Yahtzee.categories
    ≤ Yahtzee.calculateTotal q Yahtzee.categories.
Proof.
  intros Hc He Hv q up.
  assert (Yahtzee.calculateUpperSum q
          = up + (if decide (Yahtzee.type c = Yahtzee.upper) then v else 0)
          ∧ Yahtzee.calculateTotal q Yahtzee.categories
            = Yahtzee.calculateTotal p Yahtzee.categories
              + (if decide (Yahtzee.type c = Yahtzee.bonus) then 0 else v)
              + (if bool_decide (Yahtzee.type c = Yahtzee.upper
                                 ∧ up < 63 ≤ up + v)
                 then 35 else 0)) as [H1 H2].
  { subst q up. unfold Yahtzee.calculateTotal. rewrite !lower_fold, lower_categories.
    unfold Yahtzee.calculateUpperSum.
    unfold Yahtzee.categories in Hc.
    repeat (apply elem_of_cons in Hc as [->|Hc]);
      [..|by apply elem_of_nil in Hc];
      cbn [Yahtzee.id Yahtzee.type Yahtzee.set_score Yahtzee.scores
           Yahtzee.yahtzees foldl] in *;
      rewrite ?lookup_insert_eq, ?lookup_insert_ne by done;
      rewrite ?He; cbn [or0 from_option default]; unfold Datatypes.id;
      rewrite bool_decide_and;
      rewrite ?(bool_decide_eq_true_2 (Yahtzee.upper = Yahtzee.upper)),
              ?(bool_decide_eq_false_2 (Yahtzee.lower = Yahtzee.upper)),
              ?(bool_decide_eq_false_2 (Yahtzee.bonus = Yahtzee.upper)) by done;
      cbn [andb];
      (split; [repeat case_decide; try done; lia|]);
      repeat case_bool_decide; repeat case_decide; try done; lia. }
  split; [done|]. split; [done|].
  rewrite H2. case_decide; case_bool_decide; lia.
Qed.

(** X25 on a sheet with 45 points in the upper section: 18 points for the
    sixes reach 63 and bring the bonus. *)
Lemma filling_a_category_adds_its_score_witness :
  let p := {| Yahtzee.name := "Alice"; Yahtzee.color := "#e74c3c";
              Yahtzee.scores :=
                <["ones" := 3]> (<["twos" := 6]> (<["threes" := 9]>
                  (<["fours" := 12]> (<["fives" := 15]> ∅))));
              Yahtzee.yahtzees := 0 |} in
  Yahtzee.calculateTotal p Yahtzee.categories = 45
  ∧ Yahtzee.calculateTotal (Yahtzee.set_score "sixes" 18 p) Yahtzee.categories = 98.
Proof.
  intros p.
  set (sixes := {| Yahtzee.id := "sixes"; Yahtzee.type := Yahtzee.upper;
                   Yahtzee.calc := λ d, Yahtzee.countDice d 6 |}).
  assert (sixes ∈ Yahtzee.categories) as Hcat.
  { unfold Yahtzee.categories. do 5 apply list_elem_of_further. apply list_elem_of_here. }
  destruct (filling_a_category_adds_its_score p sixes 18 Hcat eq_refl)
    as (_ & H & _); [lia|].
  split; [vm_compute; reflexivity|].
  etrans; [exact H|]. vm_compute. reflexivity.
Defined.

(** * The store of suspended games and finished matches *)

Section history.
Import GameHistory.
Context {A B : Type}.
Implicit Types (st : Store A B) (m : Match B) (g h : Game A).

Lemma set_MATCH_HISTORY_get (v : list (Match B)) st :
  available st = true → writable st = true →
  getMatchHistory (set_MATCH_HISTORY v st).2 = v.
Proof.
  intros Ha Hw. unfold getMatchHistory, get_MATCH_HISTORY, set_MATCH_HISTORY.
  rewrite Ha, Hw. cbn. by rewrite ?Ha.
Qed.

Lemma set_MATCH_HISTORY_refused (v : list (Match B)) st :
  available st = false ∨ writable st = false → (set_MATCH_HISTORY v st).2 = st.
Proof.
  intros H. unfold set_MATCH_HISTORY.
  destruct H as [-> | ->]; by rewrite ?andb_false_r.
Qed.

Lemma set_ACTIVE_GAMES_get (migrated : string) (v : list (Game A)) st :
  available st = true → writable st = true →
  (set_ACTIVE_GAMES v st).1 = true
  ∧ (getActiveGames migrated (set_ACTIVE_GAMES v st).2).1 = v
  ∧ (getActiveGames migrated (set_ACTIVE_GAMES v st).2).2 = (set_ACTIVE_GAMES v st).2.
Proof.
  intros Ha Hw. unfold set_ACTIVE_GAMES. rewrite Ha, Hw. cbn.
  unfold getActiveGames, get_ACTIVE_GAMES. cbn. by rewrite ?Ha.
Qed.

(** Reading the suspended games leaves the store available and
    writable. *)
Lemma getActiveGames_flags (migrated : string) st :
  available (getActiveGames migrated st).2 = available st
  ∧ writable (getActiveGames migrated st).2 = writable st.
Proof.
  unfold getActiveGames. destruct (get_ACTIVE_GAMES st); [done|].
  destruct (get_ACTIVE_GAME st) as [old|]; [|done].
  cbv zeta. unfold set_ACTIVE_GAMES, remove_ACTIVE_GAME.
  destruct (available st) eqn:Ha, (writable st) eqn:Hw; cbn; rewrite ?Ha, ?Hw; done.
Qed.

Lemma findIndex_Some (gid : option string) (games : list (Game A)) (i : nat) :
  findIndex gid games = Some i →
  ∃ h, games !! i = Some h ∧ gameId h = gid
       ∧ ∀ j h', games !! j = Some h' → (j < i)%nat → gameId h' ≠ gid.
Proof.
  unfold findIndex. destruct (list_find _ _) as [[i' h]|] eqn:E; [|done].
  intros [= <-]. apply list_find_Some in E as (Hh & Hid & Hleast). eauto.
Qed.

Lemma findIndex_None (gid : option string) (games : list (Game A)) :
  findIndex gid games = None → ∀ h, h ∈ games → gameId h ≠ gid.
Proof.
  unfold findIndex. destruct (list_find _ _) as [[i' h]|] eqn:E; [done|].
  intros _. apply list_find_None in E. rewrite Forall_forall in E. done.
Qed.

End history.

(** X21.  The match history keeps the newest fifty, newest first.
    [addMatchToHistory] returns an entry with the given result and an
    identifier; on a store that is available and accepts the write, the
    history afterwards is the new entry followed by the former history, cut
    to 50 entries, so it never holds more than 50, its first entry is the
    new one, and [getRecentMatches] returns its first [count] entries; on a
    store that is unavailable or refuses the write the history is as it
    was. *)
Theorem history_keeps_newest_fifty {A B : Type} (fresh now : string)
    (m : GameHistory.Match B) (st : GameHistory.Store A B) :
  let entry := (GameHistory.addMatchToHistory fresh now m st).1 in
  let st' := (GameHistory.addMatchToHistory fresh now m st).2 in
  GameHistory.result entry = GameHistory.result m
  ∧ is_Some (GameHistory.id entry)
  ∧ (GameHistory.available st = true → GameHistory.writable st = true →
     GameHistory.getMatchHistory st'
     = take 50 (entry :: GameHistory.getMatchHistory st)
     ∧ (length (GameHistory.getMatchHistory st') ≤ 50)%nat
     ∧ head (GameHistory.getMatchHistory st') = Some entry
     ∧ ∀ count, GameHistory.getRecentMatches count st'
                = take (count `min` 50) (entry :: GameHistory.getMatchHistory st))
  ∧ (GameHistory.available st = false ∨ GameHistory.writable st = false →
     GameHistory.getMatchHistory st' = GameHistory.getMatchHistory st).
Proof.
  intros entry st'. unfold entry, st', GameHistory.addMatchToHistory. cbn.
  set (e := {| GameHistory.id := _ |}).
  set (h := GameHistory.getMatchHistory st).
  assert ((if decide (50 < S (length h))%nat then e :: take 49 h else e :: h)
          = take 50 (e :: h)) as ->.
  { case_decide; [done|]. cbn. f_equal. rewrite take_ge; [done|lia]. }
  split; [done|]. split; [by eexists|]. split.
  - intros Ha Hw. rewrite set_MATCH_HISTORY_get by done.
    split; [done|]. split; [rewrite length_take; lia|]. split; [done|].
    intros count. unfold GameHistory.getRecentMatches.
    rewrite set_MATCH_HISTORY_get by done. by rewrite take_take.
  - intros H. by rewrite set_MATCH_HISTORY_refused.
Qed.

(** X21 on an empty store. *)
Lemma history_keeps_newest_fifty_witness :
  let st := {| GameHistory.available := true; GameHistory.writable := true;
               GameHistory.ACTIVE_GAMES := @None (list (GameHistory.Game unit));
               GameHistory.ACTIVE_GAME := None;
               GameHistory.MATCH_HISTORY := None |} in
  let m := {| GameHistory.id := None; GameHistory.date := None;
              GameHistory.result := "farkle" |} in
  (length (GameHistory.getMatchHistory
             (GameHistory.addMatchToHistory "k3x9" "2024-05-01" m st).2) ≤ 50)%nat.
Proof.
  intros st m.
  destruct (history_keeps_newest_fifty "k3x9" "2024-05-01" m st)
    as (_ & _ & H & _).
  destruct H as (_ & H & _); [reflexivity|reflexivity|exact H].
Defined.

Section active_games.
Import GameHistory.
Context {A B : Type}.
Implicit Types (st : Store A B) (g h : Game A) (games : list (Game A)).

Lemma filter_insert_out (P : Game A → Prop) `{∀ x, Decision (P x)} games i x y :
  games !! i = Some x → ¬ P x → ¬ P y → filter P (<[i := y]> games) = filter P games.
Proof.
  revert i. induction games as [|z games IH]; intros i Hx Hnx Hny; [done|].
  destruct i as [|i]; cbn in Hx.
  - injection Hx as ->. change (<[0%nat := y]> (x :: games)) with (y :: games).
    by rewrite !filter_cons, !decide_False.
  - change (<[S i := y]> (z :: games)) with (z :: <[i := y]> games).
    rewrite !filter_cons, (IH i) by done. done.
Qed.

(** The list after [saveActiveGame] put [data] into it. *)
Lemma upsert_spec games data :
  let games1 := match findIndex (gameId data) games with
                | Some idx => <[idx := data]> games
                | None => games ++ [data]
                end in
  data ∈ games1
  ∧ (∀ h, gameId h ≠ gameId data → h ∈ games1 ↔ h ∈ games)
  ∧ filter (λ h, gameId h ≠ gameId data) games1
    = filter (λ h, gameId h ≠ gameId data) games
  ∧ (NoDup (gameId <$> games) → NoDup (gameId <$> games1))
  ∧ (length games1 = length games
     ∨ (length games1 = S (length games) ∧ ∀ h, h ∈ games → gameId h ≠ gameId data)).
Proof.
  destruct (findIndex (gameId data) games) as [idx|] eqn:E; cbn zeta.
  - apply findIndex_Some in E as (x & Hx & Hid & _).
    assert (idx < length games)%nat as Hlt by (by eapply lookup_lt_Some).
    split; [|split; [|split; [|split]]].
    + apply list_elem_of_lookup. exists idx. by rewrite list_lookup_insert_eq.
    + intros h Hne. rewrite !list_elem_of_lookup. split; intros [j Hj].
      * destruct (decide (j = idx)) as [->|Hji].
        -- rewrite list_lookup_insert_eq in Hj by done. congruence.
        -- rewrite list_lookup_insert_ne in Hj by done. eauto.
      * exists j. rewrite list_lookup_insert_ne; [done|]. intros ->. congruence.
    + apply (filter_insert_out _ _ _ x); [done|intros Hn; by apply Hn ..].
    + intros Hnd. rewrite list_fmap_insert.
      rewrite list_insert_id; [done|]. rewrite list_lookup_fmap, Hx. cbn. by rewrite Hid.
    + left. by rewrite length_insert.
  - pose proof (findIndex_None _ _ E) as Hnone.
    split; [|split; [|split; [|split]]].
    + apply elem_of_app. right. by left.
    + intros h Hne. rewrite elem_of_app, list_elem_of_singleton. split; [|auto].
      intros [?|Heq]; [done|]. by subst h.
    + rewrite filter_app, filter_cons, decide_False, filter_nil, app_nil_r; [done|].
      intros Hn. by apply Hn.
    + intros Hnd. rewrite fmap_app. apply NoDup_app. split; [done|]. split.
      * intros x (h & -> & Hh)%list_elem_of_fmap [= Heq]%list_elem_of_singleton.
        by apply (Hnone h).
      * apply NoDup_singleton.
    + right. split; [|done]. rewrite length_app. cbn. lia.
Qed.

End active_games.

(** X22.  Suspended games are kept by identifier.  On a store that is
    available and accepts writes, [saveActiveGame] of a game that has an
    identifier returns [true]; the list read afterwards holds the game with
    the date of the save, holds exactly the former games with another
    identifier besides it, has the same length or one more (one more only
    when no former game had the identifier), and has distinct identifiers
    when the former list had; [removeActiveGame] of that identifier then
    leaves exactly the former games with another identifier. *)
Theorem active_games_are_kept_by_id {A B : Type} (fresh migrated now : string)
    (g : GameHistory.Game A) (st : GameHistory.Store A B) :
  GameHistory.available st = true → GameHistory.writable st = true →
  GameHistory.no_id (GameHistory.gameId g) = false →
  let games := (GameHistory.getActiveGames migrated st).1 in
  let st1 := (GameHistory.saveActiveGame fresh migrated now g st).2 in
  let games1 := (GameHistory.getActiveGames migrated st1).1 in
  let data := {| GameHistory.gameId := GameHistory.gameId g;
                 GameHistory.savedAt := Some now;
                 GameHistory.state := GameHistory.state g |} in
  (GameHistory.saveActiveGame fresh migrated now g st).1 = true
  ∧ (GameHistory.getActiveGames migrated st1).2 = st1
  ∧ data ∈ games1
  ∧ (∀ h, GameHistory.gameId h ≠ GameHistory.gameId g → h ∈ games1 ↔ h ∈ games)
  ∧ (length games1 = length games
     ∨ (length games1 = S (length games)
        ∧ ∀ h, h ∈ games → GameHistory.gameId h ≠ GameHistory.gameId g))
  ∧ (NoDup (GameHistory.gameId <$> games) → NoDup (GameHistory.gameId <$> games1))
  ∧ (GameHistory.getActiveGames migrated
       (GameHistory.removeActiveGame migrated (GameHistory.gameId g) st1)).1
    = filter (λ h, GameHistory.gameId h ≠ GameHistory.gameId g) games.
Proof.
  intros Ha Hw Hid. cbv zeta.
  set (data := {| GameHistory.gameId := GameHistory.gameId g |}).
  unfold GameHistory.saveActiveGame. rewrite Hid.
  destruct (getActiveGames_flags migrated st) as [Ha0 Hw0].
  rewrite Ha in Ha0. rewrite Hw in Hw0.
  destruct (GameHistory.getActiveGames migrated st) as [gs st0] eqn:Eg.
  cbn [fst snd] in *. fold data.
  set (gs1 := match GameHistory.findIndex (GameHistory.gameId data) gs with
              | Some idx => <[idx := data]> gs
              | None => gs ++ [data]
              end).
  destruct (set_ACTIVE_GAMES_get migrated gs1 st0 Ha0 Hw0) as (Hok & Hread & Hst).
  destruct (upsert_spec gs data) as (Hin & Hothers & Hfilter & Hnd & Hlen).
  fold gs1 in Hin, Hothers, Hfilter, Hnd, Hlen.
  split; [done|]. split; [done|]. rewrite Hread.
  split; [done|]. split; [done|]. split; [done|]. split; [done|].
  unfold GameHistory.removeActiveGame.
  destruct (GameHistory.getActiveGames migrated (GameHistory.set_ACTIVE_GAMES gs1 st0).2)
    as [gs2 st2] eqn:E2.
  cbn [fst snd] in Hread, Hst. subst gs2 st2.
  assert (GameHistory.available (GameHistory.set_ACTIVE_GAMES gs1 st0).2 = true
          ∧ GameHistory.writable (GameHistory.set_ACTIVE_GAMES gs1 st0).2 = true)
    as [Ha1 Hw1].
  { unfold GameHistory.set_ACTIVE_GAMES. rewrite Ha0, Hw0. done. }
  destruct (set_ACTIVE_GAMES_get migrated
              (filter (λ h, GameHistory.gameId h ≠ GameHistory.gameId g) gs1)
              _ Ha1 Hw1) as (_ & -> & _).
  exact Hfilter.
Qed.

(** X22 on an empty store. *)
Lemma active_games_are_kept_by_id_witness :
  let st := {| GameHistory.available := true; GameHistory.writable := true;
               GameHistory.ACTIVE_GAMES := None;
               GameHistory.ACTIVE_GAME := None;
               GameHistory.MATCH_HISTORY := @None (list (GameHistory.Match unit)) |} in
  let g := {| GameHistory.gameId := Some "lq3f0a"; GameHistory.savedAt := None;
              GameHistory.state := "farkle" |} in
  (GameHistory.saveActiveGame "new" "old" "2024-05-01" g st).1 = true.
Proof.
  intros st g.
  apply (active_games_are_kept_by_id "new" "old" "2024-05-01" g st); reflexivity.
Defined.
